(** * GStreamer bridge: buffering and scheduling engine

  A shallow embedding of the buffering code of the [gstreamer] module:

  - [gstreamer_consumer] (consumer/gstreamer_consumer.cpp): the capture
    queue fed by [send] once per production-clock tick;
  - [GstInput] (producer/gst_input.cpp): the two sample queues filled by
    the appsink callbacks and flushed by [seek], [abort] and the
    destructor;
  - [GstProducer::Impl] (producer/gst_producer.cpp): the scheduler loop
    [run], the playout buffer, [prev_frame], [next_frame] and [seek];
  - the consumer's factories, encode thread and pipeline description, the
    producer's control calls and trim parameters
    (producer/gstreamer_producer.cpp) and the pixel-format conversions
    (util/gst_util.cpp).

  Every member function becomes a function on a record holding the fields
  of its object.  Calls into the diagnostics graph and into GStreamer's
  reference counting are kept as lists of calls, in program order. *)

From Stdlib Require Import String Ascii ZArith List Bool Lia DecimalString.
Import ListNotations.
Local Open Scope Z_scope.

Set Implicit Arguments.

(** ** Machine integers *)

Module Int.

Definition INT_MAX : Z := 2147483647.
Definition INT64_MAX : Z := 9223372036854775807.
Definition INT64_MIN : Z := - 9223372036854775808.

(** Two's complement reduction of an unbounded integer to [bits] bits. *)
Definition wrap_signed (bits : Z) (x : Z) : Z :=
  let m := 2 ^ bits in
  let r := x mod m in
  if r <? 2 ^ (bits - 1) then r else r - m.

Definition wrap_int (x : Z) : Z := wrap_signed 32 x.
Definition wrap_int64 (x : Z) : Z := wrap_signed 64 x.
Definition wrap_uint32 (x : Z) : Z := x mod 2 ^ 32.

Definition in_int (x : Z) : Prop := - INT_MAX - 1 <= x <= INT_MAX.
Definition in_int64 (x : Z) : Prop := INT64_MIN <= x <= INT64_MAX.

End Int.

(** ** diagnostics::graph

  The graph is a sink: the code only writes to it.  A graph is the list of
  the calls made on it, oldest first.  The numeric argument of [set_value]
  is a floating-point ratio and is not recorded. *)

Module diagnostics.

Inductive tag_severity := WARNING | INFO.

Inductive call :=
| set_color (name : string)
| set_text
| set_value (name : string)
| set_tag (severity : tag_severity) (name : string).

Definition graph := list call.

Definition is_tag (name : string) (c : call) : bool :=
  match c with
  | set_tag _ n => String.eqb n name
  | _ => false
  end.

(** Number of times the tag [name] was raised on the graph. *)
Definition tag_count (name : string) (g : graph) : nat :=
  length (filter (is_tag name) g).

End diagnostics.

(** ** tbb::concurrent_bounded_queue

  The operations the module uses, on a queue that no other thread touches
  during the call: [try_push] refuses when the queue holds [capacity]
  items, [try_pop] refuses on an empty queue and then leaves the
  destination as it was. *)

Module concurrent_bounded_queue.

Record t (A : Type) := mk { items : list A; capacity : Z }.

Arguments mk {A} _ _.

Definition empty {A} : t A := mk [] Int.INT64_MAX.

Definition set_capacity {A} (c : Z) (q : t A) : t A := mk (items q) c.

Definition size {A} (q : t A) : Z := Z.of_nat (length (items q)).

Definition try_push {A} (x : A) (q : t A) : bool * t A :=
  if size q <? capacity q
  then (true, mk (items q ++ [x]) (capacity q))
  else (false, q).

Definition try_pop {A} (dst : A) (q : t A) : bool * A * t A :=
  match items q with
  | [] => (false, dst, q)
  | x :: rest => (true, x, mk rest (capacity q))
  end.

End concurrent_bounded_queue.

Module cbq := concurrent_bounded_queue.

(** ** CasparCG core types used by the module

  Frames are opaque to the module: it copies them, tests them for
  emptiness and asks for a still.  A frame carries the identity of its
  image, which stands for the pixel data. *)

Module core.

Module video_field.

Inductive t := progressive | a | b.

Definition eqb (x y : t) : bool :=
  match x, y with
  | progressive, progressive | a, a | b, b => true
  | _, _ => false
  end.

End video_field.

(** [core::const_frame]: [None] is the default-constructed, empty frame. *)
Definition const_frame := option Z.

(** [core::draw_frame]: an optional image with its [is_still] transform
    flag; [draw_frame{}] has no image. *)
Record draw_frame := mk_draw_frame { image : option Z; is_still : bool }.

Definition draw_frame_empty : draw_frame := mk_draw_frame None false.

(** [draw_frame::operator bool] *)
Definition has_image (f : draw_frame) : bool :=
  match image f with Some _ => true | None => false end.

(** [draw_frame::still] *)
Definition still (f : draw_frame) : draw_frame := mk_draw_frame (image f) true.

End core.

(** ** gstreamer_consumer (consumer/gstreamer_consumer.cpp) *)

Module Consumer.

Import diagnostics.

(** A C++ exception, by its message. *)
Definition exception := string.

(** [std::future<bool>] as [make_ready_future] builds it. *)
Inductive future (A : Type) := make_ready_future (value : A).

Record gstreamer_consumer := mk {
  channel_index_ : Z;
  realtime_      : bool;
  graph_         : graph;
  path_          : string;
  args_          : string;
  exception_     : option exception;
  frame_buffer_  : cbq.t core.const_frame;
  is_running_    : bool;
  aborting_      : bool
}.

(** A [char] of the path, sign-extended to [int] as on the x86 targets. *)
Definition char_value (c : ascii) : Z :=
  let n := Z.of_N (N_of_ascii c) in
  if n <? 128 then n else n - 256.

(** The constructor's hash loop: [hash = hash * 31 + c] on [uint32_t]. *)
Fixpoint path_hash (hash : Z) (path : string) : Z :=
  match path with
  | EmptyString => hash
  | String c rest => path_hash (Int.wrap_uint32 (hash * 31 + char_value c)) rest
  end.

(** The constructor (lines 82-107). *)
Definition create (path args : string) (realtime : bool) : gstreamer_consumer :=
  {| channel_index_ := path_hash 0 path mod 10000;
     realtime_      := realtime;
     graph_         := [set_color "frame-time"; set_color "dropped-frame";
                        set_color "input"];
     path_          := path;
     args_          := args;
     exception_     := None;
     frame_buffer_  := cbq.set_capacity (if realtime then 1 else 64) cbq.empty;
     is_running_    := false;
     aborting_      := false |}.

Definition with_buffer (q : cbq.t core.const_frame) (g : graph)
           (c : gstreamer_consumer) : gstreamer_consumer :=
  {| channel_index_ := channel_index_ c;
     realtime_      := realtime_ c;
     graph_         := g;
     path_          := path_ c;
     args_          := args_ c;
     exception_     := exception_ c;
     frame_buffer_  := q;
     is_running_    := is_running_ c;
     aborting_      := aborting_ c |}.

(** The [catch (...)] of the encode thread started by [initialize]
    (lines 192-196): the exception in flight is stored. *)
Definition frame_thread_catch (e : exception) (c : gstreamer_consumer)
  : gstreamer_consumer :=
  {| channel_index_ := channel_index_ c;
     realtime_      := realtime_ c;
     graph_         := graph_ c;
     path_          := path_ c;
     args_          := args_ c;
     exception_     := Some e;
     frame_buffer_  := frame_buffer_ c;
     is_running_    := is_running_ c;
     aborting_      := aborting_ c |}.

(** [send] (lines 200-215).  [inl e]: the call throws [e];
    [inr (fut, c')]: it returns [fut] and leaves the consumer as [c']. *)
Definition send (field : core.video_field.t) (frame : core.const_frame)
           (c : gstreamer_consumer)
  : exception + (future bool * gstreamer_consumer) :=
  match exception_ c with
  | Some e => inl e
  | None =>
      let (pushed, q) := cbq.try_push frame (frame_buffer_ c) in
      let g1 := if pushed then graph_ c
                else graph_ c ++ [set_tag WARNING "dropped-frame"] in
      let g2 := g1 ++ [set_value "input"] in
      inr (make_ready_future (is_running_ c), with_buffer q g2 c)
  end.

(** Consecutive [send] calls, one per frame of [frames], with nothing else
    running in between; stops at the first call that throws. *)
Fixpoint send_all (field : core.video_field.t) (frames : list core.const_frame)
         (c : gstreamer_consumer) : exception + gstreamer_consumer :=
  match frames with
  | [] => inr c
  | f :: rest =>
      match send field f c with
      | inl e => inl e
      | inr (_, c') => send_all field rest c'
      end
  end.

(** Frames held by the capture queue, oldest first. *)
Definition retained (c : gstreamer_consumer) : list core.const_frame :=
  cbq.items (frame_buffer_ c).

Definition dropped_frames (c : gstreamer_consumer) : nat :=
  tag_count "dropped-frame" (graph_ c).

End Consumer.

(** ** [send], statement by statement

    [Consumer.send] gives what a call returns and, when it returns, the
    consumer it leaves.  Here the body of [send] (lines 200-215) is written
    as the sequence of its statements, each acting on the consumer and on
    the list of the calls made on [frame_buffer_]; a statement that throws
    ends the sequence and leaves both as they are at the throw. *)

Module ConsumerCalls.

Import diagnostics Consumer.

(** A call on [frame_buffer_]. *)
Inductive queue_call :=
| call_try_push (frame : core.const_frame).

Definition state : Type := gstreamer_consumer * list queue_call.

Definition statement (A : Type) : Type := state -> (exception + A) * state.

Definition ret {A : Type} (x : A) : statement A := fun st => (inr x, st).

Definition bind {A B : Type} (m : statement A) (f : A -> statement B)
  : statement B :=
  fun st =>
    match m st with
    | (inl e, st') => (inl e, st')
    | (inr x, st') => f x st'
    end.

Local Notation "x <- m ;; f" := (bind m (fun x => f))
  (at level 61, m at next level, right associativity).

(** [std::rethrow_exception] *)
Definition rethrow_exception {A : Type} (e : exception) : statement A :=
  fun st => (inl e, st).

(** Reading a member. *)
Definition load {A : Type} (member : gstreamer_consumer -> A) : statement A :=
  fun st => (inr (member (fst st)), st).

(** [frame_buffer_.try_push(frame)] *)
Definition try_push (frame : core.const_frame) : statement bool :=
  fun st =>
    let (pushed, q) := cbq.try_push frame (frame_buffer_ (fst st)) in
    (inr pushed,
     (with_buffer q (graph_ (fst st)) (fst st),
      snd st ++ [call_try_push frame])).

(** A call on [graph_]. *)
Definition on_graph (c : diagnostics.call) : statement unit :=
  fun st =>
    (inr tt,
     (with_buffer (frame_buffer_ (fst st)) (graph_ (fst st) ++ [c]) (fst st),
      snd st)).

(** [send] (lines 200-215). *)
Definition send (field : core.video_field.t) (frame : core.const_frame)
  : statement (future bool) :=
  stored <- load exception_ ;;
  _ <- match stored with
       | Some e => rethrow_exception e
       | None => ret tt
       end ;;
  pushed <- try_push frame ;;
  _ <- (if negb pushed
        then on_graph (set_tag WARNING "dropped-frame")
        else ret tt) ;;
  _ <- on_graph (set_value "input") ;;
  running <- load is_running_ ;;
  ret (make_ready_future running).

End ConsumerCalls.

(** ** GStreamer handles

  A [GstSample*] is an address together with the presentation timestamp
  of the buffer it points to ([GST_BUFFER_PTS], in nanoseconds); address
  [0] is [nullptr].  The reference-counting and pipeline calls the module
  makes are kept in program order. *)

Module gst.

Record GstSample := mk_sample { addr : Z; buffer_pts : Z }.

Definition nullptr : GstSample := mk_sample 0 0.

Definition is_null (s : GstSample) : bool := addr s =? 0.

Inductive GstFlowReturn := GST_FLOW_OK | GST_FLOW_ERROR.

Inductive GstState := GST_STATE_NULL | GST_STATE_PAUSED | GST_STATE_PLAYING.

Inductive call :=
| gst_sample_ref (s : GstSample)
| gst_sample_unref (s : GstSample)
| gst_element_set_state (state : GstState)
| gst_element_seek_simple (seek_pos : Z).

Definition GST_MSECOND : Z := 1000000.

Definition counts (is_op : call -> bool) (log : list call) : Z :=
  Z.of_nat (length (filter is_op log)).

Definition is_unref (a : Z) (c : call) : bool :=
  match c with gst_sample_unref s => addr s =? a | _ => false end.

(** Number of [gst_sample_unref] calls made on the sample at address [a]. *)
Definition unrefs (a : Z) (log : list call) : Z := counts (is_unref a) log.

End gst.

(** ** GstInput (producer/gst_input.cpp) *)

Module Input.

Import diagnostics gst.

Record GstInput := mk {
  graph_         : graph;
  loop_          : option bool;
  pipeline_      : bool;            (* [pipeline_ != nullptr] *)
  video_buffer_  : cbq.t GstSample;
  audio_buffer_  : cbq.t GstSample;
  eof_           : bool;
  abort_request_ : bool;
  duration_      : Z;
  calls_         : list call
}.

(** State after the constructor (lines 18-37), which runs
    [initialize_pipeline] (lines 162-235).  [pipeline] tells whether
    [create_pipeline] produced a pipeline that then went to
    [GST_STATE_PAUSED] without [GST_STATE_CHANGE_FAILURE]: the one call
    made on it is logged.  With [pipeline = false], [create_pipeline]
    produced none and no call is made. *)
Definition create (loop : option bool) (pipeline : bool) : GstInput :=
  {| graph_         := [set_color "seek"; set_color "input"];
     loop_          := loop;
     pipeline_      := pipeline;
     video_buffer_  := cbq.set_capacity 64 cbq.empty;
     audio_buffer_  := cbq.set_capacity 128 cbq.empty;
     eof_           := false;
     abort_request_ := false;
     duration_      := 0;
     calls_         := if pipeline
                       then [gst_element_set_state GST_STATE_PAUSED]
                       else [] |}.

Definition set_video_buffer_ (q : cbq.t GstSample) (i : GstInput) :=
  mk (graph_ i) (loop_ i) (pipeline_ i) q (audio_buffer_ i) (eof_ i)
     (abort_request_ i) (duration_ i) (calls_ i).
Definition set_audio_buffer_ (q : cbq.t GstSample) (i : GstInput) :=
  mk (graph_ i) (loop_ i) (pipeline_ i) (video_buffer_ i) q (eof_ i)
     (abort_request_ i) (duration_ i) (calls_ i).
Definition set_graph_ (g : graph) (i : GstInput) :=
  mk g (loop_ i) (pipeline_ i) (video_buffer_ i) (audio_buffer_ i) (eof_ i)
     (abort_request_ i) (duration_ i) (calls_ i).
Definition set_eof_ (e : bool) (i : GstInput) :=
  mk (graph_ i) (loop_ i) (pipeline_ i) (video_buffer_ i) (audio_buffer_ i) e
     (abort_request_ i) (duration_ i) (calls_ i).
Definition set_abort_request_ (a : bool) (i : GstInput) :=
  mk (graph_ i) (loop_ i) (pipeline_ i) (video_buffer_ i) (audio_buffer_ i)
     (eof_ i) a (duration_ i) (calls_ i).
Definition set_calls_ (l : list call) (i : GstInput) :=
  mk (graph_ i) (loop_ i) (pipeline_ i) (video_buffer_ i) (audio_buffer_ i)
     (eof_ i) (abort_request_ i) (duration_ i) l.

Definition call_gst (c : call) (i : GstInput) : GstInput :=
  set_calls_ (calls_ i ++ [c]) i.

(** [new_video_sample] (lines 238-259); [pulled] is what
    [gst_app_sink_pull_sample] returned. *)
Definition new_video_sample (pulled : GstSample) (self : GstInput)
  : GstFlowReturn * GstInput :=
  if is_null pulled then (GST_FLOW_ERROR, self)
  else
    let self1 := call_gst (gst_sample_ref pulled) self in
    let (pushed, q) := cbq.try_push pulled (video_buffer_ self1) in
    if pushed
    then (GST_FLOW_OK,
          set_graph_ (graph_ self1 ++ [set_value "input"])
                     (set_video_buffer_ q self1))
    else (GST_FLOW_OK, call_gst (gst_sample_unref pulled) self1).

(** [new_audio_sample] (lines 261-280). *)
Definition new_audio_sample (pulled : GstSample) (self : GstInput)
  : GstFlowReturn * GstInput :=
  if is_null pulled then (GST_FLOW_ERROR, self)
  else
    let self1 := call_gst (gst_sample_ref pulled) self in
    let (pushed, q) := cbq.try_push pulled (audio_buffer_ self1) in
    if pushed
    then (GST_FLOW_OK, set_audio_buffer_ q self1)
    else (GST_FLOW_OK, call_gst (gst_sample_unref pulled) self1).

(** The calls made by [while (q.try_pop(sample)) if (sample)
    gst_sample_unref(sample);] on a queue holding [items]: every pass pops
    the head, so the loop runs once per item. *)
Fixpoint drain_calls (items : list GstSample) : list call :=
  match items with
  | [] => []
  | s :: rest =>
      (if is_null s then [] else [gst_sample_unref s]) ++ drain_calls rest
  end.

Definition drained {A} (q : cbq.t A) : cbq.t A := cbq.mk [] (cbq.capacity q).

(** The two drain loops shared by [seek], [abort], [reset] and the
    destructor: video queue first, then audio queue. *)
Definition drain_queues (i : GstInput) : GstInput :=
  let i1 := set_video_buffer_ (drained (video_buffer_ i))
              (set_calls_ (calls_ i ++ drain_calls (cbq.items (video_buffer_ i))) i) in
  set_audio_buffer_ (drained (audio_buffer_ i1))
    (set_calls_ (calls_ i1 ++ drain_calls (cbq.items (audio_buffer_ i1))) i1).

(** [seek] (lines 428-472). *)
Definition seek (position : Z) (flush : bool) (i : GstInput) : GstInput :=
  if negb (pipeline_ i) then i
  else
    let position := if position <? 0 then 0 else position in
    let seek_pos := Int.wrap_int64 (position * GST_MSECOND) in
    let i1 := if flush then drain_queues i else i in
    let i2 := call_gst (gst_element_seek_simple seek_pos) i1 in
    set_graph_ (graph_ i2 ++ [set_tag INFO "seek"]) (set_eof_ false i2).

(** [abort] (lines 474-495). *)
Definition abort (i : GstInput) : GstInput :=
  let i1 := set_abort_request_ true i in
  let i2 := if pipeline_ i1
            then call_gst (gst_element_set_state GST_STATE_NULL) i1 else i1 in
  drain_queues i2.

(** The destructor (lines 135-160), up to the release of the members. *)
Definition destroy (i : GstInput) : GstInput :=
  let i1 := set_abort_request_ true i in
  let i2 := if pipeline_ i1
            then call_gst (gst_element_set_state GST_STATE_NULL) i1 else i1 in
  drain_queues i2.

(** [try_pop_video] (lines 416-421). *)
Definition try_pop_video (dst : GstSample) (i : GstInput)
  : bool * GstSample * GstInput :=
  let '(result, dst', q) := cbq.try_pop dst (video_buffer_ i) in
  (result, dst',
   set_graph_ (graph_ i ++ [set_value "input"]) (set_video_buffer_ q i)).

Definition eof (i : GstInput) : bool := eof_ i.

Definition duration (i : GstInput) : Z := duration_ i.

(** The monitor thread's handling of [GST_MESSAGE_EOS] (lines 65-72). *)
Definition on_eos (i : GstInput) : GstInput :=
  match loop_ i with
  | Some true => seek 0 true i
  | _ => set_eof_ true i
  end.

End Input.

(** ** GstProducer::Impl (producer/gst_producer.cpp)

    The producer hands its graph to the input; the calls each of the two
    makes on it are kept with the one that makes them. *)

Module Producer.

Import diagnostics gst.

(** The members of [core::video_format_desc] the producer reads; [fps] is
    [static_cast<int>(format_desc_.fps)]. *)
Record video_format_desc := mk_format {
  fps         : Z;
  duration    : Z;
  field_count : Z
}.

(** [struct Frame] (lines 33-42). *)
Record Frame := mk_frame {
  video       : GstSample;
  audio       : GstSample;
  frame       : core.draw_frame;
  start_time  : Z;
  pts         : Z;
  fduration   : Z;   (* [Frame::duration] *)
  frame_count : Z
}.

(** [Frame{}] *)
Definition Frame_default : Frame :=
  mk_frame nullptr nullptr core.draw_frame_empty 0 0 0 0.

Record Impl := mk {
  format_desc_     : video_format_desc;
  graph_           : graph;
  calls_           : list call;  (* GStreamer calls made by the producer itself *)
  input_           : Input.GstInput;
  start_           : Z;
  duration_        : Z;
  input_duration_  : Z;
  seek_            : Z;
  loop_            : bool;
  frame_count_     : Z;
  frame_flush_     : bool;
  frame_time_      : Z;
  frame_duration_  : Z;
  frame_           : core.draw_frame;
  buffer_          : list Frame;  (* std::deque<Frame>, front first *)
  buffer_eof_      : bool;
  buffer_capacity_ : Z;
  latency_         : Z
}.

Definition set_graph_ (v : graph) (s : Impl) : Impl :=
  mk (format_desc_ s) v (calls_ s) (input_ s) (start_ s) (duration_ s)
     (input_duration_ s) (seek_ s) (loop_ s) (frame_count_ s)
     (frame_flush_ s) (frame_time_ s) (frame_duration_ s) (frame_ s)
     (buffer_ s) (buffer_eof_ s) (buffer_capacity_ s) (latency_ s).
Definition set_calls_ (v : list call) (s : Impl) : Impl :=
  mk (format_desc_ s) (graph_ s) v (input_ s) (start_ s) (duration_ s)
     (input_duration_ s) (seek_ s) (loop_ s) (frame_count_ s)
     (frame_flush_ s) (frame_time_ s) (frame_duration_ s) (frame_ s)
     (buffer_ s) (buffer_eof_ s) (buffer_capacity_ s) (latency_ s).
Definition set_input_ (v : Input.GstInput) (s : Impl) : Impl :=
  mk (format_desc_ s) (graph_ s) (calls_ s) v (start_ s) (duration_ s)
     (input_duration_ s) (seek_ s) (loop_ s) (frame_count_ s)
     (frame_flush_ s) (frame_time_ s) (frame_duration_ s) (frame_ s)
     (buffer_ s) (buffer_eof_ s) (buffer_capacity_ s) (latency_ s).
Definition set_start_ (v : Z) (s : Impl) : Impl :=
  mk (format_desc_ s) (graph_ s) (calls_ s) (input_ s) v (duration_ s)
     (input_duration_ s) (seek_ s) (loop_ s) (frame_count_ s)
     (frame_flush_ s) (frame_time_ s) (frame_duration_ s) (frame_ s)
     (buffer_ s) (buffer_eof_ s) (buffer_capacity_ s) (latency_ s).
Definition set_duration_ (v : Z) (s : Impl) : Impl :=
  mk (format_desc_ s) (graph_ s) (calls_ s) (input_ s) (start_ s) v
     (input_duration_ s) (seek_ s) (loop_ s) (frame_count_ s)
     (frame_flush_ s) (frame_time_ s) (frame_duration_ s) (frame_ s)
     (buffer_ s) (buffer_eof_ s) (buffer_capacity_ s) (latency_ s).
Definition set_seek_ (v : Z) (s : Impl) : Impl :=
  mk (format_desc_ s) (graph_ s) (calls_ s) (input_ s) (start_ s)
     (duration_ s) (input_duration_ s) v (loop_ s) (frame_count_ s)
     (frame_flush_ s) (frame_time_ s) (frame_duration_ s) (frame_ s)
     (buffer_ s) (buffer_eof_ s) (buffer_capacity_ s) (latency_ s).
Definition set_loop_ (v : bool) (s : Impl) : Impl :=
  mk (format_desc_ s) (graph_ s) (calls_ s) (input_ s) (start_ s)
     (duration_ s) (input_duration_ s) (seek_ s) v (frame_count_ s)
     (frame_flush_ s) (frame_time_ s) (frame_duration_ s) (frame_ s)
     (buffer_ s) (buffer_eof_ s) (buffer_capacity_ s) (latency_ s).
Definition set_frame_count_ (v : Z) (s : Impl) : Impl :=
  mk (format_desc_ s) (graph_ s) (calls_ s) (input_ s) (start_ s)
     (duration_ s) (input_duration_ s) (seek_ s) (loop_ s) v
     (frame_flush_ s) (frame_time_ s) (frame_duration_ s) (frame_ s)
     (buffer_ s) (buffer_eof_ s) (buffer_capacity_ s) (latency_ s).
Definition set_frame_flush_ (v : bool) (s : Impl) : Impl :=
  mk (format_desc_ s) (graph_ s) (calls_ s) (input_ s) (start_ s)
     (duration_ s) (input_duration_ s) (seek_ s) (loop_ s) (frame_count_ s)
     v (frame_time_ s) (frame_duration_ s) (frame_ s) (buffer_ s)
     (buffer_eof_ s) (buffer_capacity_ s) (latency_ s).
Definition set_frame_time_ (v : Z) (s : Impl) : Impl :=
  mk (format_desc_ s) (graph_ s) (calls_ s) (input_ s) (start_ s)
     (duration_ s) (input_duration_ s) (seek_ s) (loop_ s) (frame_count_ s)
     (frame_flush_ s) v (frame_duration_ s) (frame_ s) (buffer_ s)
     (buffer_eof_ s) (buffer_capacity_ s) (latency_ s).
Definition set_frame_ (v : core.draw_frame) (s : Impl) : Impl :=
  mk (format_desc_ s) (graph_ s) (calls_ s) (input_ s) (start_ s)
     (duration_ s) (input_duration_ s) (seek_ s) (loop_ s) (frame_count_ s)
     (frame_flush_ s) (frame_time_ s) (frame_duration_ s) v (buffer_ s)
     (buffer_eof_ s) (buffer_capacity_ s) (latency_ s).
Definition set_frame_duration_ (v : Z) (s : Impl) : Impl :=
  mk (format_desc_ s) (graph_ s) (calls_ s) (input_ s) (start_ s)
     (duration_ s) (input_duration_ s) (seek_ s) (loop_ s) (frame_count_ s)
     (frame_flush_ s) (frame_time_ s) v (frame_ s) (buffer_ s)
     (buffer_eof_ s) (buffer_capacity_ s) (latency_ s).
Definition set_buffer_ (v : list Frame) (s : Impl) : Impl :=
  mk (format_desc_ s) (graph_ s) (calls_ s) (input_ s) (start_ s)
     (duration_ s) (input_duration_ s) (seek_ s) (loop_ s) (frame_count_ s)
     (frame_flush_ s) (frame_time_ s) (frame_duration_ s) (frame_ s) v
     (buffer_eof_ s) (buffer_capacity_ s) (latency_ s).
Definition set_buffer_eof_ (v : bool) (s : Impl) : Impl :=
  mk (format_desc_ s) (graph_ s) (calls_ s) (input_ s) (start_ s)
     (duration_ s) (input_duration_ s) (seek_ s) (loop_ s) (frame_count_ s)
     (frame_flush_ s) (frame_time_ s) (frame_duration_ s) (frame_ s)
     (buffer_ s) v (buffer_capacity_ s) (latency_ s).
Definition set_latency_ (v : Z) (s : Impl) : Impl :=
  mk (format_desc_ s) (graph_ s) (calls_ s) (input_ s) (start_ s)
     (duration_ s) (input_duration_ s) (seek_ s) (loop_ s) (frame_count_ s)
     (frame_flush_ s) (frame_time_ s) (frame_duration_ s) (frame_ s)
     (buffer_ s) (buffer_eof_ s) (buffer_capacity_ s) v.

Definition graph_call (c : diagnostics.call) (s : Impl) : Impl :=
  set_graph_ (graph_ s ++ [c]) s.

Definition gst_calls (l : list call) (s : Impl) : Impl :=
  set_calls_ (calls_ s ++ l) s.

(** [update_state] (lines 235-242), which every public call runs on exit:
    of the members modelled here it only touches the graph. *)
Definition update_state (s : Impl) : Impl := graph_call set_text s.

(** The constructor (lines 84-132); [pipeline] tells whether the input
    obtained a pipeline. *)
Definition create (format_desc : video_format_desc) (pipeline : bool)
           (start seek duration : option Z) (loop : option bool) : Impl :=
  let input := Input.create None pipeline in
  let input := if pipeline
               then Input.call_gst (gst_element_set_state GST_STATE_PLAYING) input
               else input in
  {| format_desc_     := format_desc;
     graph_           := [set_color "underflow"; set_color "frame-time";
                          set_color "buffer"; set_text];
     calls_           := [];
     input_           := input;
     start_           := match start with Some v => v | None => 0 end;
     duration_        := match duration with Some v => v | None => Int.INT64_MAX end;
     input_duration_  := 0;
     seek_            := match seek with
                         | Some v => if 0 <? v then v else -1
                         | None => -1
                         end;
     loop_            := match loop with Some v => v | None => false end;
     frame_count_     := 0;
     frame_flush_     := true;
     frame_time_      := 0;
     frame_duration_  := 0;
     frame_           := core.draw_frame_empty;
     buffer_          := [];
     buffer_eof_      := false;
     buffer_capacity_ := Z.quot (fps format_desc) 4;
     latency_         := 0 |}.

(** [end] as [run] and [next_frame] both compute it. *)
Definition clip_end (s : Impl) : Z :=
  if negb (duration_ s =? Int.INT64_MAX)
  then Int.wrap_int64 (start_ s + duration_ s)
  else Int.INT64_MAX.

(** An [int] converted to [size_t] for the comparison with
    [buffer_.size()]. *)
Definition to_size_t (x : Z) : Z := x mod 2 ^ 64.

Definition buffer_size (s : Impl) : Z := Z.of_nat (length (buffer_ s)).

(** *** The scheduler thread: [run] (lines 148-233)

    One pass of the [while] loop is cut into four segments; another thread
    may run between two segments.  [at_push] is the wait on
    [buffer_cond_]: the segment is taken only once the predicate holds. *)

Inductive label :=
| at_seek    (* line 160: top of the loop *)
| at_eof     (* line 171 *)
| at_pop     (* line 193 *)
| at_push.   (* line 210 *)

(** The locals of [run]. *)
Record locals := mk_locals {
  lframe           : Frame;   (* [Frame frame] *)
  warning_debounce : Z;
  pc               : label
}.

Definition run_start : locals := mk_locals Frame_default 0 at_seek.

(** What a segment did besides changing the state. *)
Inductive action :=
| act_none
| act_sleep (ms : Z)     (* [std::this_thread::sleep_for] *)
| act_blocked.           (* still waiting on [buffer_cond_] *)

(** Lines 159-168. *)
Definition run_seek (s : Impl) (r : locals) : Impl * locals * action :=
  let seek_pos := seek_ s in
  let s := set_seek_ (-1) s in
  if 0 <=? seek_pos
  then (set_frame_flush_ true
          (set_input_ (Input.seek seek_pos true (input_ s)) s),
        mk_locals Frame_default (warning_debounce r) at_seek, act_none)
  else (s, mk_locals (lframe r) (warning_debounce r) at_eof, act_none).

(** Lines 170-190. *)
Definition run_eof (s : Impl) (r : locals) : Impl * locals * action :=
  let start := start_ s in
  let end_ := clip_end s in
  let time := Int.wrap_int64 (pts (lframe r) + fduration (lframe r)) in
  let s := set_buffer_eof_ (Input.eof (input_ s) || (end_ <=? time)) s in
  if buffer_eof_ s
  then
    if loop_ s && (2 <? frame_count_ s)
    then (set_frame_flush_ true
            (set_input_ (Input.seek start true (input_ s)) s),
          mk_locals Frame_default (warning_debounce r) at_seek, act_none)
    else (s, mk_locals (lframe r) (warning_debounce r) at_seek, act_sleep 10)
  else (s, mk_locals (lframe r) (warning_debounce r) at_pop, act_none).

(** [core::draw_frame(make_frame(this, *frame_factory_, video_sample))]:
    the image copied out of the sample, named after the sample. *)
Definition make_frame (sample : GstSample) : core.draw_frame :=
  core.mk_draw_frame (Some (addr sample)) false.

(** Lines 192-207 and 224-231. *)
Definition run_pop (s : Impl) (r : locals) : Impl * locals * action :=
  let '(popped, video_sample, input) := Input.try_pop_video nullptr (input_ s) in
  let s := set_input_ input s in
  if popped
  then
    if is_null video_sample
    then (s, mk_locals (lframe r) (warning_debounce r) at_seek, act_none)
    else
      let f := lframe r in
      let f := mk_frame video_sample (audio f) (make_frame video_sample)
                        (start_time f)
                        (Z.quot (buffer_pts video_sample mod 2 ^ 64) 1000000)
                        (duration (format_desc_ s))
                        (frame_count_ s) in
      (set_frame_count_ (Int.wrap_int64 (frame_count_ s + 1)) s,
       mk_locals f (warning_debounce r) at_push, act_none)
  else
    let w := Int.wrap_int (warning_debounce r + 1) in
    (s, mk_locals (lframe r) w at_seek,
     act_sleep (if 25 <? w then 20 else 5)).

(** Lines 209-222: the predicate of the wait, then the push. *)
Definition run_push (s : Impl) (r : locals) : Impl * locals * action :=
  if buffer_size s <? to_size_t (buffer_capacity_ s)
  then
    let s := if seek_ s =? -1
             then set_buffer_ (buffer_ s ++ [lframe r]) s
             else s in
    let s := graph_call (set_value "frame-time")
               (graph_call (set_value "buffer") s) in
    (s, mk_locals Frame_default (warning_debounce r) at_seek, act_none)
  else (s, r, act_blocked).

Definition run_step (s : Impl) (r : locals) : Impl * locals * action :=
  match pc r with
  | at_seek => run_seek s r
  | at_eof => run_eof s r
  | at_pop => run_pop s r
  | at_push => run_push s r
  end.

(** *** The calls of the production clock *)

(** [prev_frame] (lines 244-263). *)
Definition prev_frame (field : core.video_field.t) (s : Impl)
  : core.draw_frame * Impl :=
  let s :=
    if negb (core.video_field.eqb field core.video_field.b)
    then
      if frame_flush_ s || negb (core.has_image (frame_ s))
      then
        match buffer_ s with
        | head :: _ =>
            set_frame_flush_ false
              (set_frame_duration_ (fduration head)
                 (set_frame_time_ (pts head)
                    (set_frame_ (frame head) s)))
        | [] => s
        end
      else s
    else s in
  (core.still (frame_ s), update_state s).

(** [is_ready] (lines 265-269). *)
Definition is_ready (s : Impl) : bool :=
  negb (match buffer_ s with [] => true | _ => false end)
  || core.has_image (frame_ s).

(** The [return] statement [next_frame] leaves by: line 330 with the
    frame it popped, line 289 with the held frame, or lines 294 and 303. *)
Inductive delivery :=
| delivered (f : Frame)
| freeze (held : core.draw_frame)
| underflow.

(** The [core::draw_frame] that [next_frame] returns. *)
Definition returned (d : delivery) : core.draw_frame :=
  match d with
  | delivered f => frame f
  | freeze held => core.still held
  | underflow => core.draw_frame_empty
  end.

(** Lines 292-294 and 301-303. *)
Definition signal_underflow (s : Impl) : Impl :=
  set_latency_ (Int.wrap_int (latency_ s + 1))
    (graph_call (set_tag WARNING "underflow") s).

(** The [gst_sample_unref] calls guarded by [if (f.video)] and
    [if (f.audio)]. *)
Definition release_calls (f : Frame) : list call :=
  (if is_null (video f) then [] else [gst_sample_unref (video f)])
  ++ (if is_null (audio f) then [] else [gst_sample_unref (audio f)]).

(** [next_frame] (lines 271-331). *)
Definition next_frame (field : core.video_field.t) (s : Impl)
  : delivery * Impl :=
  let '(d, s) :=
    match buffer_ s with
    | [] => (None, s)
    | head :: rest =>
        if frame_flush_ s && (buffer_size s <? 4) then (None, s)
        else
          let is_field_1 := Z.rem (frame_count head) 2 =? 0 in
          if (field_count (format_desc_ s) =? 2)
             && ((core.video_field.eqb field core.video_field.a && negb is_field_1)
                 || (core.video_field.eqb field core.video_field.b && is_field_1))
          then (Some underflow, signal_underflow s)
          else
            let s := if negb (latency_ s =? -1) then set_latency_ (-1) s else s in
            let s := set_frame_flush_ false
                       (set_frame_duration_ (fduration head)
                          (set_frame_time_ (pts head)
                             (set_frame_ (frame head) s))) in
            let s := gst_calls (release_calls head) s in
            let s := set_buffer_ rest s in
            let s := graph_call (set_value "buffer") s in
            (Some (delivered head), s)
    end in
  match d with
  | Some d => (d, update_state s)
  | None =>
      (* lines 277-295 *)
      let end_ := clip_end s in
      if buffer_eof_ s && negb (frame_flush_ s)
      then
        let s :=
          if (frame_time_ s <? end_) && negb (frame_duration_ s =? 0)
          then set_frame_time_ (Int.wrap_int64 (frame_time_ s + frame_duration_ s)) s
          else if frame_time_ s <? end_
               then set_frame_time_ (input_duration_ s) s
               else s in
        (freeze (frame_ s), update_state s)
      else (underflow, update_state (signal_underflow s))
  end.

(** [seek] (lines 333-356) in its two parts: the store to [seek_]
    (line 337), then the block under [buffer_mutex_] (lines 339-355)
    followed by [update_state]. *)
Definition seek_store (time : Z) (s : Impl) : Impl := set_seek_ time s.

Definition seek_flush (s : Impl) : Impl :=
  let s := set_buffer_ [] s in                            (* buffer_.clear() *)
  let s := gst_calls (flat_map release_calls (buffer_ s)) s in  (* the loop *)
  let s := graph_call (set_value "buffer") s in
  update_state s.

Definition seek (time : Z) (s : Impl) : Impl := seek_flush (seek_store time s).

(** [time], [loop], [start], [duration] (lines 358-394). *)
Definition time (s : Impl) : Z := frame_time_ s.

Definition loop (v : bool) (s : Impl) : Impl := update_state (set_loop_ v s).

Definition start (v : Z) (s : Impl) : Impl := update_state (set_start_ v s).

Definition set_duration (v : Z) (s : Impl) : Impl :=
  update_state (set_duration_ v s).

(** The destructor (lines 134-146), once the scheduler thread is joined. *)
Definition destroy (s : Impl) : Impl := set_input_ (Input.abort (input_ s)) s.

End Producer.

(** ** The producer with its threads

  The scheduler thread, the production clock, the control calls and the
  pipeline's callbacks act on one [Impl].  An event is one atomic piece of
  one of them: a segment of [run], a whole clock call (it runs under
  [buffer_mutex_]), one of the two parts of [seek], a callback.  Any
  interleaving of the threads is a list of events. *)

Module System.

Import gst Producer.

Record world := mk { impl : Impl; sched : locals }.

Inductive event :=
| ev_run                                        (* next segment of [run] *)
| ev_prev_frame (field : core.video_field.t)
| ev_next_frame (field : core.video_field.t)
| ev_seek_store (time : Z)
| ev_seek_flush
| ev_loop (v : bool)
| ev_start (v : Z)
| ev_duration (v : Z)
| ev_new_video_sample (pulled : GstSample)
| ev_new_audio_sample (pulled : GstSample)
| ev_eos.

Inductive observation :=
| obs_none
| obs_action (a : action)
| obs_prev (f : core.draw_frame)
| obs_next (d : delivery)
| obs_flow (r : GstFlowReturn).

Definition on_input (f : Input.GstInput -> Input.GstInput) (w : world) : world :=
  mk (set_input_ (f (input_ (impl w))) (impl w)) (sched w).

Definition step (w : world) (e : event) : world * observation :=
  match e with
  | ev_run =>
      let '(s, r, a) := run_step (impl w) (sched w) in (mk s r, obs_action a)
  | ev_prev_frame field =>
      let (f, s) := prev_frame field (impl w) in (mk s (sched w), obs_prev f)
  | ev_next_frame field =>
      let (d, s) := next_frame field (impl w) in (mk s (sched w), obs_next d)
  | ev_seek_store time => (mk (seek_store time (impl w)) (sched w), obs_none)
  | ev_seek_flush => (mk (seek_flush (impl w)) (sched w), obs_none)
  | ev_loop v => (mk (loop v (impl w)) (sched w), obs_none)
  | ev_start v => (mk (start v (impl w)) (sched w), obs_none)
  | ev_duration v => (mk (set_duration v (impl w)) (sched w), obs_none)
  | ev_new_video_sample pulled =>
      let (r, i) := Input.new_video_sample pulled (input_ (impl w)) in
      (mk (set_input_ i (impl w)) (sched w), obs_flow r)
  | ev_new_audio_sample pulled =>
      let (r, i) := Input.new_audio_sample pulled (input_ (impl w)) in
      (mk (set_input_ i (impl w)) (sched w), obs_flow r)
  | ev_eos => (on_input Input.on_eos w, obs_none)
  end.

(** The world after the events [es], with what each event returned. *)
Fixpoint run_events (w : world) (es : list event) : world * list observation :=
  match es with
  | [] => (w, [])
  | e :: rest =>
      let (w1, o) := step w e in
      let (w2, os) := run_events w1 rest in
      (w2, o :: os)
  end.

(** A freshly constructed producer whose scheduler thread is about to
    enter its loop. *)
Definition initial (format_desc : video_format_desc) (pipeline : bool)
           (start seek duration : option Z) (loop : option bool) : world :=
  mk (create format_desc pipeline start seek duration loop) run_start.

(** The frames the scheduler has created and nobody has consumed:
    the playout buffer, then the frame the scheduler waits to push. *)
Definition pending (w : world) : list Frame :=
  buffer_ (impl w)
  ++ match pc (sched w) with at_push => [lframe (sched w)] | _ => [] end.

End System.

(** ** Parameter strings

    [boost::iequals] and [boost::join] on strings of 8-bit characters, with
    the case folding of the classic locale: only the letters A-Z fold. *)

Module text.

Definition to_lower (c : ascii) : ascii :=
  let n := nat_of_ascii c in
  if (65 <=? n)%nat && (n <=? 90)%nat then ascii_of_nat (n + 32) else c.

Fixpoint iequals (x y : string) : bool :=
  match x, y with
  | EmptyString, EmptyString => true
  | String a x', String b y' =>
      Ascii.eqb (to_lower a) (to_lower b) && iequals x' y'
  | _, _ => false
  end.

Fixpoint join (sep : string) (parts : list string) : string :=
  match parts with
  | [] => EmptyString
  | [p] => p
  | p :: rest => (p ++ sep ++ join sep rest)%string
  end.

Definition empty (x : string) : bool :=
  match x with EmptyString => true | _ => false end.

End text.

(** ** The consumer factories (consumer/gstreamer_consumer.cpp, lines 580-636)

    [None] stands for [core::frame_consumer::empty()]. *)

Module ConsumerFactory.

Definition param (n : nat) (params : list string) : string :=
  nth n params EmptyString.

(** [create_consumer] (lines 580-624). *)
Definition create_consumer (params : list string)
  : option Consumer.gstreamer_consumer :=
  match params with
  | [] => None
  | _ =>
      if text.iequals (param 0 params) "GSADD"
         || text.iequals (param 0 params) "GSFILE"
      then
        if (length params <? 3)%nat then None
        else
          let is_stream := text.iequals (param 1 params) "STREAM" in
          let is_file := text.iequals (param 1 params) "FILE" in
          if negb is_stream && negb is_file then None
          else
            Some (Consumer.create (param 2 params)
                                  (text.join " " (skipn 3 params)) is_stream)
      else if (2 <=? length params)%nat
              && (text.iequals (param 0 params) "STREAM"
                  || text.iequals (param 0 params) "FILE")
      then
        Some (Consumer.create (param 1 params)
                              (text.join " " (skipn 2 params))
                              (text.iequals (param 0 params) "STREAM"))
      else None
  end.

(** [create_preconfigured_consumer] (lines 626-636), on the values the
    property tree yields for "path", "args" and "realtime" ([None] where
    the key is missing). *)
Definition create_preconfigured_consumer
           (path args : option string) (realtime : option bool)
  : Consumer.gstreamer_consumer :=
  Consumer.create (match path with Some v => v | None => EmptyString end)
                  (match args with Some v => v | None => EmptyString end)
                  (match realtime with Some v => v | None => false end).

End ConsumerFactory.

(** ** The encode thread (consumer/gstreamer_consumer.cpp, lines 109-198 and
    521-576)

    The consumer together with the members and locals its thread works on.
    [make_gst_sample] is a parameter: the sample it returns for a frame,
    [nullptr] when it gives up or throws a [std::exception], which
    [process_frames] catches.  The timestamp written into a pushed buffer
    is a floating-point function of the frame counter and the frame rate;
    the counter is what the push records here. *)

Module Encoder.

Import diagnostics.

Inductive app_src_call :=
| gst_app_src_push_sample (sample : gst.GstSample) (frame_count : Z)
| gst_sample_unref (sample : gst.GstSample)
| gst_app_src_end_of_stream.

Inductive thread_state :=
| not_started
| pumping       (* inside the loop of [process_frames] *)
| finished.

Record encoder := mk {
  consumer    : Consumer.gstreamer_consumer;
  pipeline_   : bool;           (* [pipeline_ != nullptr] *)
  appsrc_     : bool;           (* [appsrc_ != nullptr] *)
  thread      : thread_state;   (* [frame_thread_] *)
  frame_count : Z;              (* local of [process_frames] *)
  src_calls   : list app_src_call
}.

Definition with_consumer (c : Consumer.gstreamer_consumer) (e : encoder) :=
  mk c (pipeline_ e) (appsrc_ e) (thread e) (frame_count e) (src_calls e).

Definition set_is_running_ (v : bool) (c : Consumer.gstreamer_consumer) :=
  Consumer.mk (Consumer.channel_index_ c) (Consumer.realtime_ c)
              (Consumer.graph_ c) (Consumer.path_ c) (Consumer.args_ c)
              (Consumer.exception_ c) (Consumer.frame_buffer_ c) v
              (Consumer.aborting_ c).

Definition set_aborting_ (v : bool) (c : Consumer.gstreamer_consumer) :=
  Consumer.mk (Consumer.channel_index_ c) (Consumer.realtime_ c)
              (Consumer.graph_ c) (Consumer.path_ c) (Consumer.args_ c)
              (Consumer.exception_ c) (Consumer.frame_buffer_ c)
              (Consumer.is_running_ c) v.

Definition set_channel_index_ (v : Z) (c : Consumer.gstreamer_consumer) :=
  Consumer.mk v (Consumer.realtime_ c)
              (Consumer.graph_ c) (Consumer.path_ c) (Consumer.args_ c)
              (Consumer.exception_ c) (Consumer.frame_buffer_ c)
              (Consumer.is_running_ c) (Consumer.aborting_ c).

(** [index] (line 223); the sum is an [int]. *)
Definition index (c : Consumer.gstreamer_consumer) : Z :=
  Int.wrap_int (600000 + Consumer.channel_index_ c).

(** A consumer as constructed, before [initialize]. *)
Definition fresh (c : Consumer.gstreamer_consumer) : encoder :=
  mk c false false not_started 0 [].

(** How the thread body fares before it enters [process_frames]
    (lines 136-188). *)
Inductive startup :=
| pipeline_throws (e : Consumer.exception)   (* [create_pipeline] throws *)
| state_change_fails (appsrc : bool)         (* [GST_STATE_CHANGE_FAILURE] *)
| playing (appsrc : bool).

(** [initialize] (lines 124-198) with the start of the thread it spawns.
    [inl]: the call throws. *)
Definition initialize (channel_index : Z) (how : startup) (e : encoder)
  : Consumer.exception + encoder :=
  match thread e with
  | not_started =>
      let c := set_channel_index_ channel_index (consumer e) in
      let c := Consumer.with_buffer (Consumer.frame_buffer_ c)
                                    (Consumer.graph_ c ++ [set_text]) c in
      inr match how with
          | pipeline_throws ex =>
              mk (Consumer.frame_thread_catch ex c) false false finished 0 []
          | state_change_fails appsrc =>
              mk c true appsrc finished 0 []
          | playing appsrc =>
              mk (set_is_running_ true c) true appsrc pumping 0 []
          end
  | _ => inl "Cannot reinitialize gstreamer-consumer."%string
  end.

(** The end of [process_frames] (lines 570-575). *)
Definition leave (e : encoder) : encoder :=
  mk (set_is_running_ false (consumer e)) (pipeline_ e) (appsrc_ e) finished
     (frame_count e)
     (src_calls e
      ++ if pipeline_ e && appsrc_ e then [gst_app_src_end_of_stream] else []).

(** One pass of the loop of [process_frames] (lines 526-568).  The pop
    blocks on an empty queue: the pass then does not take place. *)
Definition pump (make_gst_sample : core.const_frame -> gst.GstSample)
           (e : encoder) : encoder :=
  match thread e with
  | pumping =>
      if Consumer.aborting_ (consumer e) then leave e
      else
        match cbq.items (Consumer.frame_buffer_ (consumer e)) with
        | [] => e
        | frame :: rest =>
            let q := cbq.mk rest (cbq.capacity (Consumer.frame_buffer_ (consumer e))) in
            let c := Consumer.with_buffer q (Consumer.graph_ (consumer e)) (consumer e) in
            match frame with
            | None => leave (with_consumer c e)
            | Some _ =>
                let sample := make_gst_sample frame in
                let c := Consumer.with_buffer q
                           (Consumer.graph_ c
                            ++ [set_value "frame-time"; set_value "input"]) c in
                if gst.is_null sample
                then with_consumer c e
                else
                  mk c (pipeline_ e) (appsrc_ e) pumping
                     (Int.wrap_int64 (frame_count e + 1))
                     (src_calls e
                      ++ [gst_app_src_push_sample sample (frame_count e);
                          gst_sample_unref sample])
            end
        end
  | _ => e
  end.

(** The production clock's [send] on the consumer inside; a throwing call
    leaves everything as it was. *)
Definition send (field : core.video_field.t) (frame : core.const_frame)
           (e : encoder) : encoder :=
  match Consumer.send field frame (consumer e) with
  | inl _ => e
  | inr (_, c) => with_consumer c e
  end.

(** The destructor (lines 109-121) up to its blocking push of the empty
    frame: the store to [aborting_], then
    [frame_buffer_.push(core::const_frame{})], which waits for room in the
    queue; [None]: the push cannot take place yet. *)
Definition destroy_begin (e : encoder) : encoder :=
  with_consumer (set_aborting_ true (consumer e)) e.

Definition destroy_push (e : encoder) : option encoder :=
  match thread e with
  | not_started => Some e
  | _ =>
      let q := Consumer.frame_buffer_ (consumer e) in
      if cbq.size q <? cbq.capacity q
      then Some (with_consumer
                   (Consumer.with_buffer
                      (cbq.mk (cbq.items q ++ [None]) (cbq.capacity q))
                      (Consumer.graph_ (consumer e)) (consumer e)) e)
      else None
  end.

Inductive event :=
| ev_send (field : core.video_field.t) (frame : core.const_frame)
| ev_pump.

Definition step (make_gst_sample : core.const_frame -> gst.GstSample)
           (e : encoder) (ev : event) : encoder :=
  match ev with
  | ev_send field frame => send field frame e
  | ev_pump => pump make_gst_sample e
  end.

Definition run (make_gst_sample : core.const_frame -> gst.GstSample)
           (e : encoder) (evs : list event) : encoder :=
  fold_left (step make_gst_sample) evs e.

End Encoder.

(** ** gstreamer_producer (producer/gstreamer_producer.cpp)

    The frame producer wraps one [GstProducer], which forwards every call
    to its [Impl]. *)

Module Wrapper.

Import Producer.

(** The getters of [Impl] (gst_producer.cpp, lines 370-394). *)
Definition get_loop (s : Impl) : bool := loop_ s.

Definition get_start (s : Impl) : Z := start_ s.

Definition get_duration (s : Impl) : Z :=
  if negb (duration_ s =? Int.INT64_MAX) then duration_ s else 0.

(** [frame_number] and [nb_frames] (lines 97-106): conversions to
    [std::uint32_t]. *)
Definition frame_number (s : Impl) : Z :=
  Int.wrap_uint32 (Int.wrap_int64 (time s - get_start s)).

Definition nb_frames (s : Impl) : Z :=
  if get_loop s then 4294967295 else Int.wrap_uint32 (get_duration s).

(** What [call] throws. *)
Inductive thrown :=
| out_of_range        (* [params.at(0)] on an empty vector *)
| bad_lexical_cast
| invalid_argument.

Section Call.

(** [boost::lexical_cast<int64_t>] and [boost::lexical_cast<bool>] on a
    parameter string; [None]: the cast throws. *)
Variable lexical_cast_int64 : string -> option Z.
Variable lexical_cast_bool : string -> option bool.

(** The target of a [seek] command before the optional offset is added
    (lines 145-156). *)
Definition seek_target (value : string) (s : Impl) : option Z :=
  if text.iequals value "rel" then Some (time s)
  else if text.iequals value "in" then Some (get_start s)
  else if text.iequals value "out"
       then Some (Int.wrap_int64 (get_start s + get_duration s))
  else if text.iequals value "end" then Some (get_duration s)
  else lexical_cast_int64 value.

(** [call] (lines 110-172).  [inl]: the call throws; [inr (n, s')]: it
    returns the number [n] as text and leaves the producer as [s']. *)
Definition call (params : list string) (s : Impl) : thrown + (Z * Impl) :=
  match params with
  | [] => inl out_of_range
  | cmd :: _ =>
      let value := nth 1 params EmptyString in
      if text.iequals cmd "loop"
      then
        if negb (text.empty value)
        then match lexical_cast_bool value with
             | None => inl bad_lexical_cast
             | Some v => inr (Z.b2z (get_loop (loop v s)), loop v s)
             end
        else inr (Z.b2z (get_loop s), s)
      else if text.iequals cmd "in" || text.iequals cmd "start"
      then
        if negb (text.empty value)
        then match lexical_cast_int64 value with
             | None => inl bad_lexical_cast
             | Some v => inr (get_start (start v s), start v s)
             end
        else inr (get_start s, s)
      else if text.iequals cmd "out"
      then
        if negb (text.empty value)
        then match lexical_cast_int64 value with
             | None => inl bad_lexical_cast
             | Some v =>
                 let s := set_duration (Int.wrap_int64 (v - get_start s)) s in
                 inr (Int.wrap_int64 (get_start s + get_duration s), s)
             end
        else inr (Int.wrap_int64 (get_start s + get_duration s), s)
      else if text.iequals cmd "length"
      then
        if negb (text.empty value)
        then match lexical_cast_int64 value with
             | None => inl bad_lexical_cast
             | Some v => inr (get_duration (set_duration v s), set_duration v s)
             end
        else inr (get_duration s, s)
      else if text.iequals cmd "seek" && negb (text.empty value)
      then
        match seek_target value s with
        | None => inl bad_lexical_cast
        | Some target =>
            if (2 <? length params)%nat
            then match lexical_cast_int64 (nth 2 params EmptyString) with
                 | None => inl bad_lexical_cast
                 | Some offset =>
                     let target := Int.wrap_int64 (target + offset) in
                     inr (target, seek target s)
                 end
            else inr (target, seek target s)
        end
      else inl invalid_argument
  end.

End Call.

(** The trim parameters of [create_producer] (lines 252-284), on the
    values of the SEEK, IN, LENGTH and OUT parameters ([None] where the
    parameter is absent), all [uint32_t].  The result is the [start],
    [seek] and [duration] handed to the constructor. *)
Definition UINT32_MAX : Z := 4294967295.

Definition clip_window (seek_p in_p length_p out_p : option Z)
  : option Z * option Z * option Z :=
  let seek := match seek_p with Some v => v | None => 0 end in
  let in_ := match in_p with Some v => v | None => seek end in
  let seek := match seek_p with Some _ => seek | None => in_ end in
  let out := match length_p with Some v => v | None => UINT32_MAX end in
  let out := if out <? Int.wrap_uint32 (UINT32_MAX - in_)
             then Int.wrap_uint32 (out + in_)
             else UINT32_MAX in
  let out := match out_p with Some v => v | None => out end in
  (if negb (in_ =? 0) then Some in_ else None,
   if negb (seek =? 0) then Some seek else None,
   if negb (out =? UINT32_MAX) then Some (Int.wrap_uint32 (out - in_)) else None).

(** The producer [create_producer] builds from these parameters. *)
Definition created (format_desc : video_format_desc) (pipeline : bool)
           (seek_p in_p length_p out_p : option Z) (loop : bool) : Impl :=
  let '(start, seek, duration) := clip_window seek_p in_p length_p out_p in
  create format_desc pipeline start seek duration (Some loop).

End Wrapper.

(** ** Pixel formats (util/gst_util.cpp)

    [core::pixel_format], [common::bit_depth] and [GstVideoFormat] are
    enumerations declared outside this module.  Each is given here with
    the members the code names and one more constructor standing for every
    member it does not name. *)

Module gst_util.

Inductive pixel_format :=
| rgb | bgr | rgba | bgra | argb | abgr | ycbcr | ycbcra | luma | gray | uyvy
| invalid
| pixel_format_other.

Inductive bit_depth := bit8 | bit10 | bit12 | bit16.

Inductive color_space := bt601 | bt709 | bt2020.

Inductive GstVideoFormat :=
| GST_VIDEO_FORMAT_UNKNOWN
| GST_VIDEO_FORMAT_RGB
| GST_VIDEO_FORMAT_RGB16
| GST_VIDEO_FORMAT_BGR
| GST_VIDEO_FORMAT_BGR16
| GST_VIDEO_FORMAT_RGBA
| GST_VIDEO_FORMAT_BGRA
| GST_VIDEO_FORMAT_ARGB
| GST_VIDEO_FORMAT_ABGR
| GST_VIDEO_FORMAT_I420
| GST_VIDEO_FORMAT_YV12
| GST_VIDEO_FORMAT_I420_10LE
| GST_VIDEO_FORMAT_I420_12LE
| GST_VIDEO_FORMAT_A420
| GST_VIDEO_FORMAT_GRAY8
| GST_VIDEO_FORMAT_GRAY16_LE
| GST_VIDEO_FORMAT_UYVY
| GST_VIDEO_FORMAT_other.

Inductive GstVideoColorMatrix :=
| GST_VIDEO_COLOR_MATRIX_BT601
| GST_VIDEO_COLOR_MATRIX_BT709
| GST_VIDEO_COLOR_MATRIX_BT2020
| GST_VIDEO_COLOR_MATRIX_other.

(** The members of [GstVideoInfo] that [gst_format_to_caspar] reads. *)
Record GstVideoInfo := mk_info {
  finfo  : GstVideoFormat;         (* [GST_VIDEO_INFO_FORMAT] *)
  matrix : GstVideoColorMatrix;    (* [colorimetry.matrix] *)
  width  : Z;                      (* [GST_VIDEO_INFO_WIDTH], an [int] *)
  height : Z                       (* [GST_VIDEO_INFO_HEIGHT], an [int] *)
}.

(** [core::pixel_format_desc::plane(width, height, stride, depth)]. *)
Record plane := mk_plane {
  plane_width  : Z;
  plane_height : Z;
  stride       : Z;
  depth        : bit_depth
}.

Record pixel_format_desc := mk_desc {
  format  : pixel_format;
  color   : color_space;
  planes  : list plane
}.

(** [pixel_format_to_gst] (lines 15-49). *)
Definition pixel_format_to_gst (f : pixel_format) (d : bit_depth)
  : GstVideoFormat :=
  let is_16bit := match d with bit8 => false | _ => true end in
  match f with
  | rgb => if is_16bit then GST_VIDEO_FORMAT_RGB16 else GST_VIDEO_FORMAT_RGB
  | bgr => if is_16bit then GST_VIDEO_FORMAT_BGR16 else GST_VIDEO_FORMAT_BGR
  | rgba => GST_VIDEO_FORMAT_RGBA
  | bgra => GST_VIDEO_FORMAT_BGRA
  | argb => GST_VIDEO_FORMAT_ARGB
  | abgr => GST_VIDEO_FORMAT_ABGR
  | ycbcr =>
      if is_16bit then GST_VIDEO_FORMAT_I420_10LE else GST_VIDEO_FORMAT_I420
  | ycbcra => GST_VIDEO_FORMAT_A420
  | luma | gray =>
      if is_16bit then GST_VIDEO_FORMAT_GRAY16_LE else GST_VIDEO_FORMAT_GRAY8
  | uyvy => GST_VIDEO_FORMAT_UYVY
  | _ => GST_VIDEO_FORMAT_UNKNOWN
  end.

(** [gst_format_to_caspar] (lines 51-190): the first [switch]. *)
Definition format_and_depth (g : GstVideoFormat) : pixel_format * bit_depth :=
  match g with
  | GST_VIDEO_FORMAT_RGB => (rgb, bit8)
  | GST_VIDEO_FORMAT_RGB16 => (rgb, bit16)
  | GST_VIDEO_FORMAT_BGR => (bgr, bit8)
  | GST_VIDEO_FORMAT_BGR16 => (bgr, bit16)
  | GST_VIDEO_FORMAT_RGBA => (rgba, bit8)
  | GST_VIDEO_FORMAT_BGRA => (bgra, bit8)
  | GST_VIDEO_FORMAT_ARGB => (argb, bit8)
  | GST_VIDEO_FORMAT_ABGR => (abgr, bit8)
  | GST_VIDEO_FORMAT_I420 | GST_VIDEO_FORMAT_YV12 => (ycbcr, bit8)
  | GST_VIDEO_FORMAT_I420_10LE => (ycbcr, bit10)
  | GST_VIDEO_FORMAT_I420_12LE => (ycbcr, bit12)
  | GST_VIDEO_FORMAT_A420 => (ycbcra, bit8)
  | GST_VIDEO_FORMAT_GRAY8 => (gray, bit8)
  | GST_VIDEO_FORMAT_GRAY16_LE => (gray, bit16)
  | GST_VIDEO_FORMAT_UYVY => (uyvy, bit8)
  | _ => (invalid, bit8)
  end.

(** The second [switch]. *)
Definition color_space_of (m : GstVideoColorMatrix) : color_space :=
  match m with
  | GST_VIDEO_COLOR_MATRIX_BT601 => bt601
  | GST_VIDEO_COLOR_MATRIX_BT709 => bt709
  | GST_VIDEO_COLOR_MATRIX_BT2020 => bt2020
  | GST_VIDEO_COLOR_MATRIX_other => bt709
  end.

(** The third [switch]; [/] on [int] truncates. *)
Definition planes_of (f : pixel_format) (w h : Z) (d : bit_depth) : list plane :=
  match f with
  | gray | luma => [mk_plane w h 1 d]
  | rgb | bgr => [mk_plane w h 3 d]
  | rgba | bgra | argb | abgr => [mk_plane w h 4 d]
  | ycbcr =>
      [mk_plane w h 1 d;
       mk_plane (Z.quot w 2) (Z.quot h 2) 1 d;
       mk_plane (Z.quot w 2) (Z.quot h 2) 1 d]
  | ycbcra =>
      [mk_plane w h 1 d;
       mk_plane (Z.quot w 2) (Z.quot h 2) 1 d;
       mk_plane (Z.quot w 2) (Z.quot h 2) 1 d;
       mk_plane w h 1 d]
  | uyvy => [mk_plane (Z.quot w 2) h 4 d]
  | _ => []
  end.

Definition gst_format_to_caspar (video_info : GstVideoInfo)
  : pixel_format_desc :=
  let '(f, d) := format_and_depth (finfo video_info) in
  mk_desc f (color_space_of (matrix video_info))
          (planes_of f (width video_info) (height video_info) d).

(** The planes [make_frame] copies for a frame of descriptor
    [format_desc] (lines 214-274), in the order of the copies: each is
    read as [format_desc.planes[p]]. *)
Definition make_frame_copies (format_desc : pixel_format_desc) : list nat :=
  match format format_desc with
  | bgra | rgba | argb | abgr | rgb | bgr => [0%nat]
  | ycbcr => [0%nat; 1%nat; 2%nat]
  | ycbcra => [0%nat; 1%nat; 2%nat; 3%nat]
  | _ => []
  end.

(** The format [make_gst_sample] gives the sample of a frame whose
    descriptor is [pix_desc] (lines 286-292):
    [pixel_format_to_gst(pix_desc.format, pix_desc.planes[0].depth)].
    [None]: the descriptor has no plane to read the depth from. *)
Definition sample_format (pix_desc : pixel_format_desc)
  : option GstVideoFormat :=
  match planes pix_desc with
  | [] => None
  | first :: _ => Some (pixel_format_to_gst (format pix_desc) (depth first))
  end.

End gst_util.

(** ** The consumer's pipeline description
    (consumer/gstreamer_consumer.cpp, lines 233-502)

    [create_pipeline] builds the text handed to [gst_parse_launch] by
    appending to [pipeline_desc].  The functions of the standard library,
    of boost and of the channel that it calls on its way are parameters:
    [std::to_string] and [std::stoi] on [int] ([None]: [stoi] throws), the
    three regular-expression searches with the groups they capture
    ([None]: no match), and the two operations on
    [boost::filesystem::path].  [options] is [std::map::find]. *)

Module ConsumerPipeline.

(** The double-quote character. *)
Definition quote : string := String (ascii_of_nat 34) EmptyString.

(** [hay.find(needle) != std::string::npos] *)
Definition contains (needle hay : string) : bool :=
  match String.index 0 needle hay with Some _ => true | None => false end.

(** [s.rfind(c)]; [None] is [npos]. *)
Fixpoint rfind (c : ascii) (s : string) : option nat :=
  match s with
  | EmptyString => None
  | String a rest =>
      match rfind c rest with
      | Some k => Some (S k)
      | None => if Ascii.eqb a c then Some 0%nat else None
      end
  end.

(** [s.substr(0, n)] with [n] possibly [npos]. *)
Definition substr_to (n : option nat) (s : string) : string :=
  match n with
  | Some n => String.substring 0 n s
  | None => s
  end.

(** [s.substr(pos)] for [pos <= s.size()]. *)
Definition substr_from (pos : nat) (s : string) : string :=
  String.substring pos (String.length s) s.

(** [boost::to_lower] *)
Fixpoint to_lower (s : string) : string :=
  match s with
  | EmptyString => EmptyString
  | String c rest => String (text.to_lower c) (to_lower rest)
  end.

(** The members of [format_desc_] the description shows. *)
Record video_format_desc := mk_format {
  width                 : Z;
  height                : Z;
  framerate_numerator   : Z;
  framerate_denominator : Z
}.

Section Options.

Variable to_string : Z -> string.
Variable stoi : string -> option Z.
Variable scale_regex : string -> option (string * string).
Variable simple_scale_regex : string -> option (string * string).
Variable fps_regex : string -> option string.
Variable extension : string -> string.
Variable replace_extension_mkv : string -> string.

Variable format_desc_ : video_format_desc.
Variable path_ : string.
Variable options : string -> option string.

Definition get_option (key default_value : string) : string :=
  match options key with Some v => v | None => default_value end.

(** Line 238. *)
Definition is_stream : bool := contains "://" path_.

(** Lines 256-260. *)
Definition video_codec : string :=
  match options "codec:v" with
  | Some v => v
  | None => get_option "vcodec" "x264"
  end.

(** Lines 263-267. *)
Definition audio_codec : string :=
  match options "codec:a" with
  | Some v => v
  | None => get_option "acodec" "aac"
  end.

(** The two [try] blocks (lines 270-289): the first [stoi] that throws
    ends the block, and the bitrate keeps the value it had then. *)
Definition bitrate (key ffmpeg_key : string) (default_value : Z) : Z :=
  match stoi (get_option key (to_string default_value)) with
  | None => default_value
  | Some v =>
      match options ffmpeg_key with
      | None => v
      | Some t => match stoi t with Some v' => v' | None => v end
      end
  end.

Definition video_bitrate : Z := bitrate "vbitrate" "bitrate:v" 3000.

Definition audio_bitrate : Z := bitrate "abitrate" "bitrate:a" 128.

(** Lines 292-298. *)
Definition video_filter : string := get_option "filter:v" EmptyString.

Definition audio_filter : string := get_option "filter:a" EmptyString.

Definition format : string := get_option "format" EmptyString.

(** Lines 301-305. *)
Definition add_source (pipeline_desc : string) : string :=
  (pipeline_desc
   ++ "appsrc name=video_src format=time do-timestamp=true is-live=true "
   ++ ("caps=video/x-raw,format=BGRA,width=" ++ to_string (width format_desc_)
       ++ ",height=" ++ to_string (height format_desc_)
       ++ ",framerate=" ++ to_string (framerate_numerator format_desc_)
       ++ "/" ++ to_string (framerate_denominator format_desc_) ++ " ! "))%string.

(** Lines 308-344. *)
Definition add_video_filter (pipeline_desc : string) : string :=
  if negb (text.empty video_filter)
  then
    let pipeline_desc :=
      if contains "scale=" video_filter
      then
        match scale_regex video_filter with
        | Some (w, h) =>
            (pipeline_desc ++ ("videoscale ! video/x-raw,width=" ++ w
                               ++ ",height=" ++ h ++ " ! "))%string
        | None =>
            match simple_scale_regex video_filter with
            | Some (w, h) =>
                (pipeline_desc ++ ("videoscale ! video/x-raw,width=" ++ w
                                   ++ ",height=" ++ h ++ " ! "))%string
            | None => (pipeline_desc ++ "videoscale ! ")%string
            end
        end
      else pipeline_desc in
    let pipeline_desc :=
      if contains "format=yuv420p" video_filter
      then (pipeline_desc ++ "videoconvert ! video/x-raw,format=I420 ! ")%string
      else pipeline_desc in
    match fps_regex video_filter with
    | Some fps =>
        (pipeline_desc ++ ("videorate ! video/x-raw,framerate=" ++ fps
                           ++ "/1 ! "))%string
    | None => pipeline_desc
    end
  else pipeline_desc.

(** The presets line 358 accepts. *)
Definition is_preset (preset : string) : bool :=
  String.eqb preset "ultrafast" || String.eqb preset "superfast"
  || String.eqb preset "veryfast" || String.eqb preset "faster"
  || String.eqb preset "fast" || String.eqb preset "medium"
  || String.eqb preset "slow" || String.eqb preset "slower"
  || String.eqb preset "veryslow".

Definition x264enc : string :=
  ("x264enc bitrate=" ++ to_string video_bitrate
   ++ " speed-preset=veryfast tune=zerolatency ! ")%string.

(** Lines 350-387.  [video_bitrate*1000] is an [int] product; where it
    overflows, which C++ leaves undefined, it wraps here. *)
Definition add_encoder (pipeline_desc : string) : string :=
  if String.eqb video_codec "x264" || String.eqb video_codec "libx264"
  then
    let pipeline_desc := (pipeline_desc ++ x264enc)%string in
    match options "preset:v" with
    | Some preset =>
        if is_preset preset
        then
          let pipeline_desc :=
            String.substring 0 (String.length pipeline_desc - 2) pipeline_desc in
          let pipeline_desc :=
            substr_to (rfind " " pipeline_desc) pipeline_desc in
          (pipeline_desc
           ++ (" speed-preset=" ++ preset ++ " tune=zerolatency ! "))%string
        else pipeline_desc
    | None => pipeline_desc
    end
  else if String.eqb video_codec "openh264"
  then (pipeline_desc
        ++ ("openh264enc bitrate="
            ++ to_string (Int.wrap_int (video_bitrate * 1000)) ++ " ! "))%string
  else if String.eqb video_codec "nvenc" || String.eqb video_codec "nvh264"
  then (pipeline_desc
        ++ ("nvh264enc bitrate=" ++ to_string video_bitrate ++ " ! "))%string
  else if String.eqb video_codec "vp8"
  then (pipeline_desc
        ++ ("vp8enc target-bitrate="
            ++ to_string (Int.wrap_int (video_bitrate * 1000)) ++ " ! "))%string
  else if String.eqb video_codec "vp9"
  then (pipeline_desc
        ++ ("vp9enc target-bitrate="
            ++ to_string (Int.wrap_int (video_bitrate * 1000)) ++ " ! "))%string
  else if String.eqb video_codec "jpeg" || String.eqb video_codec "mjpeg"
  then (pipeline_desc ++ "jpegenc quality=85 ! ")%string
  else (pipeline_desc ++ x264enc)%string.

(** Lines 390-396. *)
Definition add_parser (pipeline_desc : string) : string :=
  if String.eqb video_codec "x264" || String.eqb video_codec "libx264"
     || String.eqb video_codec "nvenc" || String.eqb video_codec "nvh264"
     || String.eqb video_codec "openh264"
  then (pipeline_desc ++ "h264parse ! ")%string
  else if String.eqb video_codec "vp8"
  then (pipeline_desc ++ "vp8parse ! ")%string
  else if String.eqb video_codec "vp9"
  then (pipeline_desc ++ "vp9parse ! ")%string
  else pipeline_desc.

(** Lines 399-439. *)
Definition container_format : string :=
  if negb (text.empty format) then format
  else if is_stream
  then
    if String.eqb (String.substring 0 7 path_) "rtmp://" then "flv"
    else if String.eqb (String.substring 0 7 path_) "rtsp://" then "rtp"
    else if String.eqb (String.substring 0 6 path_) "udp://" then "ts"
    else if String.eqb (String.substring 0 7 path_) "http://" then "hls"
    else EmptyString
  else
    let ext := to_lower (extension path_) in
    if String.eqb ext ".mp4" then "mp4"
    else if String.eqb ext ".mov" then "mov"
    else if String.eqb ext ".flv" then "flv"
    else if String.eqb ext ".mkv" then "matroska"
    else if String.eqb ext ".ts" then "ts"
    else if String.eqb ext ".webm" then "webm"
    else if String.eqb ext ".avi" then "avi"
    else "mp4".

Definition filesink (mux location : string) : string :=
  (mux ++ " ! filesink location=" ++ quote ++ location ++ quote ++ " ")%string.

(** Lines 442-497. *)
Definition add_output (pipeline_desc : string) : string :=
  if is_stream
  then
    if String.eqb (String.substring 0 7 path_) "rtmp://"
    then (pipeline_desc
          ++ ("flvmux streamable=true ! rtmpsink location=" ++ quote
              ++ path_ ++ quote ++ " "))%string
    else if String.eqb (String.substring 0 7 path_) "rtsp://"
    then (pipeline_desc
          ++ ("rtph264pay ! udpsink host=" ++ substr_from 7 path_
              ++ " port=5000 "))%string
    else if String.eqb (String.substring 0 6 path_) "udp://"
    then
      let udp_address := substr_from 6 path_ in
      let '(port, host) :=
        match String.index 0 ":" udp_address with
        | Some port_pos =>
            match stoi (substr_from (port_pos + 1) udp_address) with
            | Some port => (port, String.substring 0 port_pos udp_address)
            | None => (5000, udp_address)
            end
        | None => (5000, udp_address)
        end in
      (pipeline_desc
       ++ ("mpegtsmux ! udpsink host=" ++ host ++ " port=" ++ to_string port
           ++ " "))%string
    else if String.eqb (String.substring 0 7 path_) "http://"
    then (pipeline_desc
          ++ ("mpegtsmux ! hlssink location=" ++ substr_from 7 path_
              ++ " "))%string
    else (pipeline_desc ++ filesink "mpegtsmux" path_)%string
  else
    if String.eqb container_format "mp4"
    then (pipeline_desc ++ filesink "mp4mux" path_)%string
    else if String.eqb container_format "mov"
    then (pipeline_desc ++ filesink "qtmux" path_)%string
    else if String.eqb container_format "flv"
    then (pipeline_desc ++ filesink "flvmux" path_)%string
    else if String.eqb container_format "matroska"
            || String.eqb container_format "mkv"
    then (pipeline_desc ++ filesink "matroskamux" path_)%string
    else if String.eqb container_format "ts"
    then (pipeline_desc ++ filesink "mpegtsmux" path_)%string
    else if String.eqb container_format "webm"
    then
      if String.eqb video_codec "vp8" || String.eqb video_codec "vp9"
      then (pipeline_desc ++ filesink "webmmux" path_)%string
      else (pipeline_desc
            ++ filesink "matroskamux" (replace_extension_mkv path_))%string
    else if String.eqb container_format "avi"
    then (pipeline_desc ++ filesink "avimux" path_)%string
    else (pipeline_desc ++ filesink "mp4mux" path_)%string.

(** The description [create_pipeline] hands to
    [gstreamer::create_pipeline] (line 502). *)
Definition pipeline_desc : string :=
  let audio_codec := audio_codec in
  let audio_bitrate := audio_bitrate in
  let audio_filter := audio_filter in
  let pipeline_desc := add_source EmptyString in
  let pipeline_desc := add_video_filter pipeline_desc in
  let pipeline_desc := (pipeline_desc ++ "videoconvert ! ")%string in
  let pipeline_desc := add_encoder pipeline_desc in
  let pipeline_desc := add_parser pipeline_desc in
  add_output pipeline_desc.

End Options.

End ConsumerPipeline.

(** * Properties *)

(** ** Machine integers *)

Module Facts.

Lemma wrap_int_id x : Int.in_int x -> Int.wrap_int x = x.
Proof.
  unfold Int.in_int, Int.wrap_int, Int.wrap_signed, Int.INT_MAX. intros H.
  change (2 ^ 32) with 4294967296. change (2 ^ (32 - 1)) with 2147483648.
  destruct (Z_lt_le_dec x 0) as [Hneg | Hpos].
  - replace (x mod 4294967296) with (x + 4294967296).
    + destruct (x + 4294967296 <? 2147483648) eqn:E;
        [apply Z.ltb_lt in E | apply Z.ltb_ge in E]; lia.
    + apply Z.mod_unique with (q := -1); lia.
  - rewrite Z.mod_small by lia.
    destruct (x <? 2147483648) eqn:E;
      [apply Z.ltb_lt in E | apply Z.ltb_ge in E]; lia.
Qed.

Lemma wrap_int64_id x : Int.in_int64 x -> Int.wrap_int64 x = x.
Proof.
  unfold Int.in_int64, Int.wrap_int64, Int.wrap_signed, Int.INT64_MAX, Int.INT64_MIN. intros H.
  change (2 ^ 64) with 18446744073709551616.
  change (2 ^ (64 - 1)) with 9223372036854775808.
  destruct (Z_lt_le_dec x 0) as [Hneg | Hpos].
  - replace (x mod 18446744073709551616) with (x + 18446744073709551616).
    + destruct (x + 18446744073709551616 <? 9223372036854775808) eqn:E;
        [apply Z.ltb_lt in E | apply Z.ltb_ge in E]; lia.
    + apply Z.mod_unique with (q := -1); lia.
  - rewrite Z.mod_small by lia.
    destruct (x <? 9223372036854775808) eqn:E;
      [apply Z.ltb_lt in E | apply Z.ltb_ge in E]; lia.
Qed.

End Facts.

(** ** The capture queue *)

Module ConsumerSpec.

Import diagnostics Consumer.

Definition ten_frames : list core.const_frame :=
  map Some [1; 2; 3; 4; 5; 6; 7; 8; 9; 10].

(** A send on a full queue changes nothing but the graph, where it raises
    the tag once. *)
Lemma send_full field frame c :
  exception_ c = None ->
  cbq.capacity (frame_buffer_ c) <= cbq.size (frame_buffer_ c) ->
  exists c',
    send field frame c = inr (make_ready_future (is_running_ c), c')
    /\ frame_buffer_ c' = frame_buffer_ c
    /\ exception_ c' = None
    /\ dropped_frames c' = S (dropped_frames c).
Proof.
  intros Hexc Hfull. unfold send, cbq.try_push. rewrite Hexc.
  destruct (cbq.size (frame_buffer_ c) <? cbq.capacity (frame_buffer_ c)) eqn:E.
  - apply Z.ltb_lt in E. lia.
  - eexists. split; [reflexivity |]. cbn. repeat split; auto.
    unfold dropped_frames, tag_count.
    rewrite !filter_app, !length_app. cbn. lia.
Qed.

(** Once the queue is full, any further run of sends keeps its contents
    and raises one tag per frame. *)
Lemma send_all_full field frames : forall c,
  exception_ c = None ->
  cbq.capacity (frame_buffer_ c) <= cbq.size (frame_buffer_ c) ->
  exists c',
    send_all field frames c = inr c'
    /\ frame_buffer_ c' = frame_buffer_ c
    /\ dropped_frames c' = (dropped_frames c + length frames)%nat.
Proof.
  induction frames as [| f rest IH]; intros c Hexc Hfull.
  - exists c. cbn. repeat split; auto.
  - destruct (send_full field f c Hexc Hfull) as (c1 & Hs & Hq & He & Hd).
    cbn [send_all]. rewrite Hs.
    destruct (IH c1 He) as (c2 & Hs2 & Hq2 & Hd2).
    + rewrite Hq. exact Hfull.
    + exists c2. repeat split; [exact Hs2 | congruence |].
      rewrite Hd2, Hd. cbn [length]. lia.
Qed.

(** C1 (as the code has it).  On a realtime consumer, whose queue has
    capacity 1, ten consecutive [send] calls with no pop in between leave
    exactly one frame in the queue, the first one pushed, and raise the
    "dropped-frame" tag exactly nine times. *)
Theorem realtime_ten_sends_keep_first path args field frames :
  length frames = 10%nat ->
  exists c',
    send_all field frames (create path args true) = inr c'
    /\ retained c' = [hd None frames]
    /\ dropped_frames c' = 9%nat.
Proof.
  intros Hlen. destruct frames as [| f rest]; [discriminate |].
  cbn [send_all hd].
  assert (Hfirst : send field f (create path args true)
                   = inr (make_ready_future false,
                          with_buffer (cbq.mk [f] 1)
                            (graph_ (create path args true) ++ [set_value "input"])
                            (create path args true))) by reflexivity.
  rewrite Hfirst.
  match goal with |- context [send_all field rest ?c] =>
    destruct (send_all_full field rest c) as (c' & Hs & Hq & Hd)
  end; [reflexivity | cbn; lia |].
  exists c'. split; [exact Hs |]. split.
  - unfold retained. rewrite Hq. reflexivity.
  - rewrite Hd. cbn in Hlen. injection Hlen as Hlen. rewrite Hlen. reflexivity.
Qed.

Lemma realtime_ten_sends_keep_first_witness :
  exists c',
    send_all core.video_field.progressive ten_frames (create "out.mp4" "" true)
    = inr c'
    /\ retained c' = [Some 1]
    /\ dropped_frames c' = 9%nat.
Proof.
  apply (@realtime_ten_sends_keep_first "out.mp4" "" core.video_field.progressive
           ten_frames).
  reflexivity.
Defined.

(** C1 (as the spec words it) fails: after the ten sends the frame in the
    queue is frame 1, not frame 10. *)
Lemma realtime_ten_sends_tenth_lost :
  exists c',
    send_all core.video_field.progressive ten_frames (create "out.mp4" "" true)
    = inr c'
    /\ retained c' = [Some 1]
    /\ retained c' <> [last ten_frames None]
    /\ ~ In (Some 10) (retained c').
Proof.
  remember (send_all _ _ _) as r eqn:Hr. vm_compute in Hr. subst r.
  eexists. split; [reflexivity |]. vm_compute. repeat split.
  - discriminate.
  - intros [H | []]. discriminate.
Qed.

(** The two descriptions of [send] agree: [Consumer.send] is what the
    statements return, with the consumer they leave when they return. *)
Ltac run_statements :=
  cbv beta iota zeta
      delta [ConsumerCalls.send ConsumerCalls.bind ConsumerCalls.load
             ConsumerCalls.try_push ConsumerCalls.on_graph ConsumerCalls.ret
             ConsumerCalls.rethrow_exception fst snd].

Lemma send_by_statements field frame c log :
  send field frame c
  = match ConsumerCalls.send field frame (c, log) with
    | (inl e, _) => inl e
    | (inr fut, (c', _)) => inr (fut, c')
    end.
Proof.
  unfold send. run_statements.
  destruct (exception_ c); [reflexivity |].
  destruct (cbq.try_push frame (frame_buffer_ c)) as [pushed q].
  destruct c; destruct pushed; reflexivity.
Qed.

(** C10.  A [send] on a consumer holding a stored exception throws that
    exception at its first statement: when it throws, the consumer is what
    it was, queue and graph included, and no call has been made on the
    queue, so no attempt to enqueue the frame precedes the throw.  This is
    so in particular right after the encode thread's handler stored the
    exception.  A [send] on a consumer holding none does not throw: it
    makes one [try_push] of the frame, returns a ready future carrying the
    running flag, and stores no exception. *)
Theorem send_rethrows_stored_exception field frame c log :
  (forall e,
      ConsumerCalls.send field frame (frame_thread_catch e c, log)
      = (inl e, (frame_thread_catch e c, log))
      /\ send field frame (frame_thread_catch e c) = inl e)
  /\ match exception_ c with
     | Some e =>
         ConsumerCalls.send field frame (c, log) = (inl e, (c, log))
         /\ send field frame c = inl e
     | None =>
         exists c',
           ConsumerCalls.send field frame (c, log)
           = (inr (make_ready_future (is_running_ c)),
              (c', log ++ [ConsumerCalls.call_try_push frame]))
           /\ send field frame c = inr (make_ready_future (is_running_ c), c')
           /\ exception_ c' = None
     end.
Proof.
  split; [split; reflexivity |].
  pose proof (send_by_statements field frame c log) as Hs.
  destruct (exception_ c) as [e |] eqn:E.
  - assert (H : ConsumerCalls.send field frame (c, log) = (inl e, (c, log)))
      by (run_statements; now rewrite E).
    split; [exact H |]. now rewrite Hs, H.
  - revert Hs. run_statements. rewrite E.
    destruct (cbq.try_push frame (frame_buffer_ c)) as [pushed q].
    destruct pushed; cbv beta iota zeta delta [negb]; intros Hs;
      eexists; (split; [reflexivity |]); (split; [exact Hs | exact E]).
Qed.

(** A realtime consumer whose thread failed while creating the pipeline:
    the frame sent next is thrown back and not queued. *)
Definition failed_start : gstreamer_consumer :=
  frame_thread_catch "no element x264enc"%string
                     (create "out.mp4" EmptyString true).

Lemma send_rethrows_stored_exception_witness :
  ConsumerCalls.send core.video_field.progressive (Some 1) (failed_start, [])
  = (inl "no element x264enc"%string, (failed_start, []))
  /\ retained failed_start = [].
Proof.
  split; [| reflexivity].
  destruct (send_rethrows_stored_exception
              core.video_field.progressive (Some 1)
              (create "out.mp4" EmptyString true) [])
    as [H _].
  apply (H "no element x264enc"%string).
Defined.

End ConsumerSpec.

(** ** The sample queues *)

Module InputSpec.

Import gst Input.

Definition full {A} (q : cbq.t A) : Prop := cbq.capacity q <= cbq.size q.

Lemma try_push_full {A} (x : A) q : full q -> cbq.try_push x q = (false, q).
Proof.
  unfold full, cbq.try_push. intros H.
  destruct (cbq.size q <? cbq.capacity q) eqn:E; [| reflexivity].
  apply Z.ltb_lt in E. lia.
Qed.

(** C9.  When the callback pulls a sample while its queue is full, it
    returns [GST_FLOW_OK], both queues and all other members are as
    before, and the only calls made are the [gst_sample_ref] taken for the
    queue followed by the [gst_sample_unref] giving it back.  This holds
    for the video and for the audio callback. *)
Theorem full_queue_drops_newest pulled self :
  is_null pulled = false ->
  (full (video_buffer_ self) ->
   new_video_sample pulled self
   = (GST_FLOW_OK,
      set_calls_ (calls_ self ++ [gst_sample_ref pulled; gst_sample_unref pulled])
                 self))
  /\ (full (audio_buffer_ self) ->
      new_audio_sample pulled self
      = (GST_FLOW_OK,
         set_calls_ (calls_ self ++ [gst_sample_ref pulled; gst_sample_unref pulled])
                    self)).
Proof.
  intros Hnn. split; intros Hfull.
  - unfold new_video_sample. rewrite Hnn.
    change (video_buffer_ (call_gst (gst_sample_ref pulled) self))
      with (video_buffer_ self).
    rewrite (try_push_full _ Hfull).
    unfold call_gst, set_calls_. cbn. now rewrite <- app_assoc.
  - unfold new_audio_sample. rewrite Hnn.
    change (audio_buffer_ (call_gst (gst_sample_ref pulled) self))
      with (audio_buffer_ self).
    rewrite (try_push_full _ Hfull).
    unfold call_gst, set_calls_. cbn. now rewrite <- app_assoc.
Qed.

(** An input whose video queue holds one sample at capacity 1 and whose
    audio queue has capacity 0. *)
Definition crowded : GstInput :=
  set_audio_buffer_ (cbq.mk [] 0)
    (set_video_buffer_ (cbq.mk [mk_sample 7 0] 1) (create None true)).

Lemma full_queue_drops_newest_witness :
  new_video_sample (mk_sample 8 40000000) crowded
  = (GST_FLOW_OK,
     set_calls_ [gst_element_set_state GST_STATE_PAUSED;
                 gst_sample_ref (mk_sample 8 40000000);
                 gst_sample_unref (mk_sample 8 40000000)] crowded)
  /\ cbq.items (video_buffer_ (snd (new_video_sample (mk_sample 8 40000000) crowded)))
     = [mk_sample 7 0].
Proof.
  destruct (@full_queue_drops_newest (mk_sample 8 40000000) crowded eq_refl)
    as [Hv _].
  split.
  - apply Hv. unfold full. cbn. lia.
  - rewrite Hv by (unfold full; cbn; lia). reflexivity.
Defined.

(** The drain loop gives back every non-null sample it pops. *)
Lemma drain_calls_unref s items :
  In s items -> is_null s = false -> In (gst_sample_unref s) (drain_calls items).
Proof.
  induction items as [| x rest IH]; intros Hin Hnn; [contradiction |].
  cbn [drain_calls]. apply in_or_app. destruct Hin as [-> | Hin].
  - left. rewrite Hnn. now left.
  - right. now apply IH.
Qed.

Lemma drain_queues_calls i :
  calls_ (drain_queues i)
  = calls_ i ++ drain_calls (cbq.items (video_buffer_ i))
             ++ drain_calls (cbq.items (audio_buffer_ i)).
Proof. unfold drain_queues. cbn. now rewrite <- app_assoc. Qed.

(** [seek] with a flush, [abort] and the destructor leave both queues
    empty and have unreffed every sample that was queued. *)
Lemma flush_releases_queued i s :
  In s (cbq.items (video_buffer_ i) ++ cbq.items (audio_buffer_ i)) ->
  is_null s = false ->
  (pipeline_ i = true -> forall position,
      In (gst_sample_unref s) (calls_ (seek position true i))
      /\ cbq.items (video_buffer_ (seek position true i)) = []
      /\ cbq.items (audio_buffer_ (seek position true i)) = [])
  /\ In (gst_sample_unref s) (calls_ (abort i))
  /\ cbq.items (video_buffer_ (abort i)) = []
  /\ cbq.items (audio_buffer_ (abort i)) = []
  /\ In (gst_sample_unref s) (calls_ (destroy i))
  /\ cbq.items (video_buffer_ (destroy i)) = []
  /\ cbq.items (audio_buffer_ (destroy i)) = [].
Proof.
  intros Hin Hnn.
  assert (Hd : forall j, video_buffer_ j = video_buffer_ i ->
                         audio_buffer_ j = audio_buffer_ i ->
                         In (gst_sample_unref s) (calls_ (drain_queues j))).
  { intros j Hv Ha. rewrite drain_queues_calls, Hv, Ha.
    apply in_or_app. right. apply in_or_app.
    apply in_app_or in Hin. destruct Hin as [H | H]; [left | right];
      now apply drain_calls_unref. }
  split.
  - intros Hp position. unfold seek. rewrite Hp. cbn -[drain_queues].
    split; [| split; reflexivity].
    apply in_or_app. left. now apply Hd.
  - unfold abort, destroy. cbn [pipeline_ set_abort_request_].
    destruct (pipeline_ i); repeat split; try reflexivity; apply Hd; reflexivity.
Qed.

End InputSpec.

(** ** The playout buffer and the field sequencer *)

Module ProducerSpec.

Import diagnostics gst Producer.

(** The field a buffered frame belongs to, by the parity test of
    line 299: even sequence numbers are field A. *)
Definition field_of (f : Frame) : core.video_field.t :=
  if Z.rem (frame_count f) 2 =? 0 then core.video_field.a else core.video_field.b.

Definition underflows (s : Impl) : nat := tag_count "underflow" (graph_ s).

Lemma signal_underflow_effect s :
  let s' := update_state (signal_underflow s) in
  buffer_ s' = buffer_ s
  /\ frame_ s' = frame_ s
  /\ frame_time_ s' = frame_time_ s
  /\ calls_ s' = calls_ s
  /\ latency_ s' = Int.wrap_int (latency_ s + 1)
  /\ underflows s' = S (underflows s).
Proof.
  cbn. repeat split. unfold underflows, tag_count. cbn.
  rewrite !filter_app, !length_app. cbn. lia.
Qed.

(** C7.  With a two-field format and a frame at the head of the buffer,
    [next_frame] for field A or B only ever delivers a frame of that
    field; when the head belongs to the other field the call returns the
    empty frame, raises the "underflow" tag once, adds one to the latency
    counter and leaves the buffer, the held frame and the samples alone. *)
Theorem interlaced_never_delivers_other_field field s head rest :
  field_count (format_desc_ s) = 2 ->
  field <> core.video_field.progressive ->
  buffer_ s = head :: rest ->
  (forall f s', next_frame field s = (delivered f, s') ->
                f = head /\ field_of f = field)
  /\ (field_of head <> field ->
      next_frame field s = (underflow, update_state (signal_underflow s))
      /\ returned (fst (next_frame field s)) = core.draw_frame_empty
      /\ buffer_ (snd (next_frame field s)) = buffer_ s
      /\ frame_ (snd (next_frame field s)) = frame_ s
      /\ calls_ (snd (next_frame field s)) = calls_ s
      /\ latency_ (snd (next_frame field s)) = Int.wrap_int (latency_ s + 1)
      /\ (Int.in_int (latency_ s + 1) ->
          latency_ (snd (next_frame field s)) = latency_ s + 1)
      /\ underflows (snd (next_frame field s)) = S (underflows s)).
Proof.
  intros Hfc Hfield Hbuf.
  assert (Hmis : field_of head <> field ->
                 next_frame field s = (underflow, update_state (signal_underflow s))).
  { intros Hne. unfold next_frame. rewrite Hbuf, Hfc.
    destruct (frame_flush_ s && (buffer_size s <? 4)) eqn:Hflush.
    - apply andb_true_iff in Hflush as [Hfl _]. rewrite Hfl.
      rewrite andb_false_r. reflexivity.
    - unfold field_of in Hne.
      destruct field; [contradiction | |];
        destruct (Z.rem (frame_count head) 2 =? 0); cbn;
        try reflexivity; exfalso; apply Hne; reflexivity. }
  split.
  - intros f s' Hnext. unfold next_frame in Hnext. rewrite Hbuf, Hfc in Hnext.
    destruct (frame_flush_ s && (buffer_size s <? 4)) eqn:Hflush.
    + destruct (buffer_eof_ s && negb (frame_flush_ s)); discriminate.
    + destruct field; [contradiction | |];
        destruct (Z.rem (frame_count head) 2 =? 0) eqn:E; cbn in Hnext;
        try discriminate; injection Hnext as <- _;
        unfold field_of; rewrite E; split; reflexivity.
  - intros Hne. rewrite (Hmis Hne). cbn [fst snd returned].
    destruct (signal_underflow_effect s) as (Hb & Hf & _ & Hc & Hl & Hu).
    repeat split; auto.
    intros Hin. rewrite Hl. now apply Facts.wrap_int_id.
Qed.

(** A two-field producer holding frame 0 at the head of its buffer with
    no flush pending. *)
Definition interlaced_sample : Impl :=
  set_frame_flush_ false
    (set_buffer_ [mk_frame (mk_sample 1 0) nullptr (make_frame (mk_sample 1 0))
                           0 0 40 0]
       (create (mk_format 50 40 2) true None None None None)).

Lemma interlaced_never_delivers_other_field_witness :
  next_frame core.video_field.b interlaced_sample
  = (underflow, update_state (signal_underflow interlaced_sample))
  /\ latency_ (snd (next_frame core.video_field.b interlaced_sample)) = 1
  /\ fst (next_frame core.video_field.a interlaced_sample)
     = delivered (mk_frame (mk_sample 1 0) nullptr (make_frame (mk_sample 1 0))
                           0 0 40 0).
Proof.
  destruct (@interlaced_never_delivers_other_field core.video_field.b
              interlaced_sample
              (mk_frame (mk_sample 1 0) nullptr (make_frame (mk_sample 1 0)) 0 0 40 0)
              [] eq_refl) as [_ Hb]; [discriminate | reflexivity |].
  destruct Hb as (H1 & _ & _ & _ & _ & _ & H2 & _); [discriminate |].
  split; [exact H1 |]. split; [| reflexivity].
  apply H2. unfold Int.in_int, Int.INT_MAX. cbn. lia.
Defined.

(** No segment of [run] writes the held frame. *)
Lemma run_step_keeps_frame_ s r : frame_ (fst (fst (run_step s r))) = frame_ s.
Proof.
  unfold run_step, run_seek, run_eof, run_pop, run_push.
  destruct (pc r); cbn;
    repeat match goal with
           | |- context [match ?c with _ => _ end] => destruct c; cbn
           end; reflexivity.
Qed.

(** C8.  [prev_frame] for field B returns a still of the held frame and
    changes nothing but the graph text, so a call for any field followed
    by a call for field B returns the same still twice.  No call removes
    a frame from the buffer, and the held frame changes only in a call
    for another field than B made with a flush pending or no frame held,
    which then holds the frame at the head of the buffer.  The scheduler
    thread never writes the held frame. *)
Theorem prev_frame_keeps_field_pair field s :
  prev_frame core.video_field.b s = (core.still (frame_ s), update_state s)
  /\ fst (prev_frame core.video_field.b (snd (prev_frame field s)))
     = fst (prev_frame field s)
  /\ buffer_ (snd (prev_frame field s)) = buffer_ s
  /\ (frame_ (snd (prev_frame field s)) <> frame_ s ->
      field <> core.video_field.b
      /\ (frame_flush_ s = true \/ core.has_image (frame_ s) = false)
      /\ exists head rest,
           buffer_ s = head :: rest
           /\ frame_ (snd (prev_frame field s)) = frame head
           /\ frame_flush_ (snd (prev_frame field s)) = false)
  /\ (forall r, frame_ (fst (fst (run_step s r))) = frame_ s).
Proof.
  split; [reflexivity |]. split; [reflexivity |].
  split; [| split; [| apply run_step_keeps_frame_]].
  - unfold prev_frame.
    destruct (negb (core.video_field.eqb field core.video_field.b));
      [| reflexivity].
    destruct (frame_flush_ s || negb (core.has_image (frame_ s)));
      [| reflexivity].
    destruct (buffer_ s) eqn:Hb; cbn; now rewrite ?Hb.
  - unfold prev_frame.
    destruct (core.video_field.eqb field core.video_field.b) eqn:Hf;
      cbn [negb].
    { intros H. exfalso. apply H. reflexivity. }
    destruct (frame_flush_ s || negb (core.has_image (frame_ s))) eqn:Hc.
    2: { intros H. exfalso. apply H. reflexivity. }
    destruct (buffer_ s) as [| head rest] eqn:Hb.
    { intros H. exfalso. apply H. reflexivity. }
    intros _. split; [intros ->; discriminate |]. split.
    + apply orb_true_iff in Hc as [Hc | Hc]; [now left | right].
      now apply negb_true_iff in Hc.
    + exists head, rest. split; [reflexivity |]. split; reflexivity.
Qed.

Lemma prev_frame_keeps_field_pair_witness :
  let s := set_frame_flush_ true interlaced_sample in
  fst (prev_frame core.video_field.b (snd (prev_frame core.video_field.a s)))
  = fst (prev_frame core.video_field.a s)
  /\ core.image (frame_ s) = None
  /\ core.image (frame_ (snd (prev_frame core.video_field.a s))) = Some 1
  /\ frame_flush_ (snd (prev_frame core.video_field.a s)) = false.
Proof.
  intros s.
  destruct (@prev_frame_keeps_field_pair core.video_field.a s)
    as (_ & Hpair & _ & Hsnap & _).
  split; [exact Hpair |]. split; [reflexivity |].
  destruct Hsnap as (_ & _ & head & rest & Hb & Hf & Hfl);
    [vm_compute; discriminate |].
  injection Hb as <- _. rewrite Hf. split; [reflexivity | exact Hfl].
Defined.

(** *** End-hold *)

(** [n] consecutive [next_frame] calls with nothing running in between. *)
Fixpoint next_frames (n : nat) (field : core.video_field.t) (s : Impl)
  : list delivery * Impl :=
  match n with
  | O => ([], s)
  | S k =>
      let (d, s1) := next_frame field s in
      let (ds, s2) := next_frames k field s1 in
      (d :: ds, s2)
  end.

(** The playout time after an end-hold call (lines 284-288). *)
Definition hold_time (s : Impl) : Z :=
  if frame_time_ s <? clip_end s
  then if frame_duration_ s =? 0
       then input_duration_ s
       else Int.wrap_int64 (frame_time_ s + frame_duration_ s)
  else frame_time_ s.

Definition holding (s : Impl) : Prop :=
  buffer_ s = [] /\ buffer_eof_ s = true /\ frame_flush_ s = false.

Lemma end_hold_step field s :
  holding s ->
  next_frame field s
  = (freeze (frame_ s), update_state (set_frame_time_ (hold_time s) s)).
Proof.
  intros (Hb & He & Hf). unfold next_frame, hold_time.
  rewrite Hb, He, Hf. cbn [andb negb].
  destruct (frame_time_ s <? clip_end s); cbn [andb];
    destruct (frame_duration_ s =? 0); cbn [negb]; try reflexivity;
    destruct s; reflexivity.
Qed.

Lemma end_hold_repeats field n : forall s,
  holding s ->
  fst (next_frames n field s) = repeat (freeze (frame_ s)) n
  /\ holding (snd (next_frames n field s))
  /\ frame_ (snd (next_frames n field s)) = frame_ s
  /\ underflows (snd (next_frames n field s)) = underflows s.
Proof.
  induction n as [| n IH]; intros s Hs.
  - cbn. repeat split; apply Hs.
  - cbn [next_frames]. rewrite (end_hold_step field Hs).
    set (s1 := update_state (set_frame_time_ (hold_time s) s)).
    assert (Hs1 : holding s1) by exact Hs.
    destruct (IH s1 Hs1) as (Hd & Hh & Hfr & Hu).
    destruct (next_frames n field s1) as [ds s2]. cbn in *.
    rewrite Hd. repeat split; try apply Hh; auto.
    rewrite Hu. unfold underflows, tag_count. cbn.
    rewrite filter_app, length_app. cbn. lia.
Qed.

(** C2 (as the code has it).  With an empty buffer, the end-of-clip flag
    set and no flush pending, [next_frame] returns a still of the held
    frame, raises no underflow and leaves the end-hold conditions in
    place, so any number of consecutive calls return the same still.  The
    playout time advances by one frame duration per call only while it is
    below the effective end and the frame duration is not zero; with a
    zero duration below the end it becomes [input_duration_]; at or past
    the effective end it stays where it is. *)
Theorem end_hold_freezes_until_end field s :
  holding s ->
  fst (next_frame field s) = freeze (frame_ s)
  /\ returned (fst (next_frame field s)) = core.still (frame_ s)
  /\ holding (snd (next_frame field s))
  /\ frame_ (snd (next_frame field s)) = frame_ s
  /\ frame_duration_ (snd (next_frame field s)) = frame_duration_ s
  /\ latency_ (snd (next_frame field s)) = latency_ s
  /\ underflows (snd (next_frame field s)) = underflows s
  /\ (forall n, fst (next_frames n field s) = repeat (freeze (frame_ s)) n)
  /\ (time s < clip_end s -> frame_duration_ s <> 0 ->
      time (snd (next_frame field s))
      = Int.wrap_int64 (time s + frame_duration_ s)
      /\ (Int.in_int64 (time s + frame_duration_ s) ->
          time (snd (next_frame field s)) = time s + frame_duration_ s))
  /\ (time s < clip_end s -> frame_duration_ s = 0 ->
      time (snd (next_frame field s)) = input_duration_ s)
  /\ (clip_end s <= time s -> time (snd (next_frame field s)) = time s).
Proof.
  intros Hs. rewrite (end_hold_step field Hs). cbn [fst snd returned].
  split; [reflexivity |]. split; [reflexivity |]. split; [exact Hs |].
  split; [reflexivity |]. split; [reflexivity |]. split; [reflexivity |].
  split.
  { unfold underflows, tag_count. cbn. rewrite filter_app, length_app. cbn. lia. }
  split; [intros n; apply (end_hold_repeats field n Hs) |].
  unfold time, hold_time. cbn.
  split; [| split].
  - intros Hlt Hd. apply Z.ltb_lt in Hlt. rewrite Hlt.
    apply Z.eqb_neq in Hd. rewrite Hd.
    split; [reflexivity |]. intros Hin. now apply Facts.wrap_int64_id.
  - intros Hlt Hd. apply Z.ltb_lt in Hlt. rewrite Hlt, Hd. reflexivity.
  - intros Hge. apply Z.ltb_ge in Hge. rewrite Hge. reflexivity.
Qed.

(** A producer in end-hold 40 ms before the end of a 200 ms clip. *)
Definition holding_sample : Impl :=
  set_frame_flush_ false
    (set_buffer_eof_ true
       (set_frame_duration_ 40
          (set_frame_time_ 160
             (create (mk_format 25 40 1) true None None (Some 200) None)))).

Lemma end_hold_freezes_until_end_witness :
  fst (next_frame core.video_field.progressive holding_sample)
  = freeze (frame_ holding_sample)
  /\ time (snd (next_frame core.video_field.progressive holding_sample)) = 200
  /\ time (snd (next_frames 3 core.video_field.progressive holding_sample)) = 200.
Proof.
  assert (Hs : holding holding_sample) by (repeat split).
  destruct (@end_hold_freezes_until_end core.video_field.progressive
              holding_sample Hs)
    as (H1 & _ & _ & _ & _ & _ & _ & _ & H2 & _ & _).
  split; [exact H1 |]. split; [| reflexivity].
  destruct H2 as [_ H2]; [cbn; lia | discriminate |].
  apply H2. unfold Int.in_int64, Int.INT64_MIN, Int.INT64_MAX. cbn. lia.
Defined.

(** A 25 fps progressive producer trimmed to 100 ms receives one sample
    stamped 120 ms; the scheduler buffers it, the input reports
    end-of-stream, the clock shows the frame and takes it. *)
Definition trimmed_run : list System.event :=
  [System.ev_new_video_sample (mk_sample 1 120000000);
   System.ev_run; System.ev_run; System.ev_run; System.ev_run;
   System.ev_eos; System.ev_run; System.ev_run;
   System.ev_prev_frame core.video_field.progressive;
   System.ev_next_frame core.video_field.progressive].

Definition trimmed_end : Impl :=
  System.impl
    (fst (System.run_events
            (System.initial (mk_format 25 40 1) true None None (Some 100) None)
            trimmed_run)).

(** C2 (as the spec words it) fails: in this end-hold the next call
    returns the still, but the playout time stays at 120 instead of
    moving to 160. *)
Lemma end_hold_time_stalls_past_end :
  holding trimmed_end
  /\ loop_ trimmed_end = false
  /\ frame_duration_ trimmed_end = 40
  /\ time trimmed_end = 120
  /\ fst (next_frame core.video_field.progressive trimmed_end)
     = freeze (frame_ trimmed_end)
  /\ time (snd (next_frame core.video_field.progressive trimmed_end)) = 120
  /\ time (snd (next_frame core.video_field.progressive trimmed_end))
     <> time trimmed_end + frame_duration_ trimmed_end.
Proof.
  unfold holding. vm_compute.
  repeat split; try reflexivity; discriminate.
Qed.

(** *** End of clip in the scheduler *)

(** The condition of line 178. *)
Definition at_clip_end (s : Impl) (r : locals) : Prop :=
  Input.eof (input_ s) = true
  \/ clip_end s <= Int.wrap_int64 (pts (lframe r) + fduration (lframe r)).

Lemma at_clip_end_flag s r :
  at_clip_end s r ->
  Input.eof (input_ s)
  || (clip_end s <=? Int.wrap_int64 (pts (lframe r) + fduration (lframe r)))
  = true.
Proof.
  intros [H | H]; [rewrite H; reflexivity |].
  apply Z.leb_le in H. rewrite H. apply orb_true_r.
Qed.

(** C6 (as the code has it).  When the input is at end-of-stream or the
    scheduler's frame time has reached the effective end, the segment
    sets the end-of-clip flag and then: with looping enabled and a frame
    counter above 2, it seeks the input to [start_], marks a flush and
    restarts with an empty frame; otherwise it sleeps 10 ms and restarts.
    In both cases the frame counter, the held frame and the buffer are
    left as they were; the counter is not reset at a loop point.  The
    effective end is [start_ + duration_], or [INT64_MAX] when
    [duration_] is [INT64_MAX]. *)
Theorem end_of_clip_loops_or_idles s r :
  at_clip_end s r ->
  (loop_ s = true /\ 2 < frame_count_ s ->
   run_eof s r
   = (set_frame_flush_ true
        (set_input_ (Input.seek (start_ s) true (input_ s))
           (set_buffer_eof_ true s)),
      mk_locals Frame_default (warning_debounce r) at_seek, act_none))
  /\ (loop_ s = false \/ frame_count_ s <= 2 ->
      run_eof s r
      = (set_buffer_eof_ true s,
         mk_locals (lframe r) (warning_debounce r) at_seek, act_sleep 10))
  /\ frame_count_ (fst (fst (run_eof s r))) = frame_count_ s
  /\ frame_ (fst (fst (run_eof s r))) = frame_ s
  /\ buffer_ (fst (fst (run_eof s r))) = buffer_ s
  /\ clip_end s = (if duration_ s =? Int.INT64_MAX then Int.INT64_MAX
                   else Int.wrap_int64 (start_ s + duration_ s)).
Proof.
  intros Hend. apply at_clip_end_flag in Hend.
  unfold run_eof. rewrite Hend. cbn [buffer_eof_ set_buffer_eof_ loop_ frame_count_].
  split; [| split].
  - intros [Hl Hc]. apply Z.ltb_lt in Hc. rewrite Hl, Hc. reflexivity.
  - intros [Hl | Hc].
    + rewrite Hl. reflexivity.
    + apply Z.ltb_ge in Hc. rewrite Hc, andb_false_r. reflexivity.
  - destruct (loop_ s && (2 <? frame_count_ s)); cbn.
    + repeat split. unfold clip_end. now destruct (duration_ s =? Int.INT64_MAX).
    + repeat split. unfold clip_end. now destruct (duration_ s =? Int.INT64_MAX).
Qed.

(** A looping producer: two samples arrive, the scheduler turns both into
    frames, the input reports end-of-stream and the scheduler reaches the
    end-of-clip test. *)
Definition looping_run : list System.event :=
  [System.ev_new_video_sample (mk_sample 1 0);
   System.ev_new_video_sample (mk_sample 2 40000000);
   System.ev_run; System.ev_run; System.ev_run; System.ev_run;
   System.ev_run; System.ev_run; System.ev_run; System.ev_run;
   System.ev_eos; System.ev_run].

Definition looping_end : System.world :=
  fst (System.run_events
         (System.initial (mk_format 25 40 1) true None None None (Some true))
         looping_run).

Lemma end_of_clip_loops_or_idles_witness :
  snd (run_eof (System.impl looping_end) (System.sched looping_end)) = act_sleep 10
  /\ frame_count_ (fst (fst (run_eof (System.impl looping_end)
                                     (System.sched looping_end)))) = 2.
Proof.
  assert (Hend : at_clip_end (System.impl looping_end) (System.sched looping_end))
    by (left; reflexivity).
  destruct (@end_of_clip_loops_or_idles (System.impl looping_end)
              (System.sched looping_end) Hend) as (_ & Hidle & Hcount & _).
  split.
  - rewrite Hidle; [reflexivity | right; vm_compute; discriminate].
  - rewrite Hcount. reflexivity.
Defined.

(** C6 (as the spec words it) fails: here looping is enabled, two frames
    have been produced and the input is at end-of-stream, yet the
    scheduler sleeps and asks the input for no seek. *)
Lemma two_frames_do_not_loop :
  pc (System.sched looping_end) = at_eof
  /\ loop_ (System.impl looping_end) = true
  /\ frame_count_ (System.impl looping_end) = 2
  /\ length (buffer_ (System.impl looping_end)) = 2%nat
  /\ Input.eof (input_ (System.impl looping_end)) = true
  /\ snd (run_step (System.impl looping_end) (System.sched looping_end))
     = act_sleep 10
  /\ Input.calls_ (input_ (fst (fst (run_step (System.impl looping_end)
                                              (System.sched looping_end)))))
     = Input.calls_ (input_ (System.impl looping_end))
  /\ forall pos,
       ~ In (gst_element_seek_simple pos)
            (Input.calls_ (input_ (fst (fst (run_step (System.impl looping_end)
                                                      (System.sched looping_end)))))).
Proof.
  vm_compute. repeat split; try reflexivity.
  intros pos [H | [H | [H | [H | []]]]]; discriminate.
Qed.

(** *** Samples held by buffered frames *)

(** C5, at the producer's [seek].  The call empties the playout buffer
    and makes no GStreamer call at all: the loop meant to unref the
    samples of the buffered frames runs over the buffer after
    [buffer_.clear()], so the number of [gst_sample_unref] calls on the
    sample of any frame that was buffered is what it was before. *)
Theorem producer_seek_unrefs_nothing time_ s :
  buffer_ (seek time_ s) = []
  /\ calls_ (seek time_ s) = calls_ s
  /\ Input.calls_ (input_ (seek time_ s)) = Input.calls_ (input_ s)
  /\ forall a, unrefs a (calls_ (seek time_ s)) = unrefs a (calls_ s).
Proof.
  unfold seek, seek_flush, seek_store. cbn.
  rewrite app_nil_r. repeat split.
Qed.

(** Taking a frame with [next_frame] does unref its samples. *)
Lemma next_frame_unrefs_delivered field s f s' :
  next_frame field s = (delivered f, s') ->
  calls_ s' = calls_ s ++ release_calls f.
Proof.
  unfold next_frame. destruct (buffer_ s) as [| head rest].
  - destruct (buffer_eof_ s && negb (frame_flush_ s)); discriminate.
  - destruct (frame_flush_ s && (buffer_size s <? 4)).
    + destruct (buffer_eof_ s && negb (frame_flush_ s)); discriminate.
    + match goal with |- context [if ?c then _ else _] => destruct c end;
        [discriminate |].
      intros H. injection H as <- <-.
      destruct (negb (latency_ s =? -1)); reflexivity.
  Qed.

(** A producer whose buffer holds one frame made from the sample at
    address 1. *)
Definition buffered_sample : Impl :=
  set_frame_flush_ false
    (set_buffer_ [mk_frame (mk_sample 1 0) nullptr (make_frame (mk_sample 1 0))
                           0 0 40 0]
       (create (mk_format 25 40 1) true None None None None)).

Lemma producer_seek_leaks_buffered_sample :
  buffer_ (seek 0 buffered_sample) = []
  /\ unrefs 1 (calls_ (seek 0 buffered_sample)) = 0
  /\ unrefs 1 (calls_ (snd (next_frame core.video_field.progressive
                                        buffered_sample))) = 1.
Proof. vm_compute. repeat split. Qed.

End ProducerSpec.

(** ** The threads together *)

Module SystemSpec.

Import gst Producer System.

(** What one event does to the members the buffer discipline depends on:
    the scheduler's position and frame, the frame counter, the pending
    seek and the buffer. *)
Definition untouched (w w' : world) : Prop :=
  sched w' = sched w
  /\ frame_count_ (impl w') = frame_count_ (impl w)
  /\ seek_ (impl w') = seek_ (impl w)
  /\ buffer_ (impl w') = buffer_ (impl w).

Definition run_effect (w w' : world) (o : observation) : Prop :=
  match pc (sched w) with
  | at_seek =>
      frame_count_ (impl w') = frame_count_ (impl w)
      /\ buffer_ (impl w') = buffer_ (impl w)
      /\ seek_ (impl w') = -1
      /\ pc (sched w') <> at_push
  | at_eof =>
      frame_count_ (impl w') = frame_count_ (impl w)
      /\ buffer_ (impl w') = buffer_ (impl w)
      /\ seek_ (impl w') = seek_ (impl w)
      /\ pc (sched w') <> at_push
  | at_pop =>
      buffer_ (impl w') = buffer_ (impl w)
      /\ seek_ (impl w') = seek_ (impl w)
      /\ ((pc (sched w') <> at_push
           /\ frame_count_ (impl w') = frame_count_ (impl w))
          \/ (pc (sched w') = at_push
              /\ frame_count (lframe (sched w')) = frame_count_ (impl w)
              /\ frame_count_ (impl w')
                 = Int.wrap_int64 (frame_count_ (impl w) + 1)))
  | at_push =>
      frame_count_ (impl w') = frame_count_ (impl w)
      /\ seek_ (impl w') = seek_ (impl w)
      /\ ((w' = w /\ o = obs_action act_blocked
           /\ to_size_t (buffer_capacity_ (impl w)) <= buffer_size (impl w))
          \/ (buffer_size (impl w) < to_size_t (buffer_capacity_ (impl w))
              /\ pc (sched w') = at_seek
              /\ ((seek_ (impl w) = -1
                   /\ buffer_ (impl w') = buffer_ (impl w) ++ [lframe (sched w)])
                  \/ (seek_ (impl w) <> -1
                      /\ buffer_ (impl w') = buffer_ (impl w)))))
  end.

Definition effect (w : world) (e : event) (w' : world) (o : observation) : Prop :=
  match e with
  | ev_run => run_effect w w' o
  | ev_next_frame _ =>
      sched w' = sched w
      /\ frame_count_ (impl w') = frame_count_ (impl w)
      /\ seek_ (impl w') = seek_ (impl w)
      /\ ((exists head rest,
              buffer_ (impl w) = head :: rest
              /\ buffer_ (impl w') = rest
              /\ o = obs_next (delivered head))
          \/ (buffer_ (impl w') = buffer_ (impl w)
              /\ forall f, o <> obs_next (delivered f)))
  | ev_seek_store t =>
      sched w' = sched w
      /\ frame_count_ (impl w') = frame_count_ (impl w)
      /\ buffer_ (impl w') = buffer_ (impl w)
      /\ seek_ (impl w') = t
  | ev_seek_flush =>
      sched w' = sched w
      /\ frame_count_ (impl w') = frame_count_ (impl w)
      /\ seek_ (impl w') = seek_ (impl w)
      /\ buffer_ (impl w') = []
  | _ => untouched w w'
  end.

Lemma run_effect_holds w :
  run_effect w (fst (step w ev_run)) (snd (step w ev_run))
  /\ buffer_capacity_ (impl (fst (step w ev_run))) = buffer_capacity_ (impl w).
Proof.
  destruct w as [s r]. unfold run_effect, step, run_step. cbn [impl sched].
  destruct (pc r) eqn:Hpc.
  - unfold run_seek.
    destruct (0 <=? seek_ s); cbn; repeat split; discriminate.
  - unfold run_eof. cbn [buffer_eof_ set_buffer_eof_ loop_ frame_count_].
    destruct (Input.eof (input_ s) || _); cbn;
      [destruct (loop_ s && (2 <? frame_count_ s)); cbn |];
      repeat split; discriminate.
  - unfold run_pop.
    destruct (Input.try_pop_video nullptr (input_ s)) as [[popped sample] input].
    destruct popped; [destruct (is_null sample) |]; cbn.
    + repeat split. left. split; [discriminate | reflexivity].
    + repeat split. right. repeat split.
    + repeat split. left. split; [discriminate | reflexivity].
  - unfold run_push.
    destruct (buffer_size s <? to_size_t (buffer_capacity_ s)) eqn:Hroom.
    + apply Z.ltb_lt in Hroom.
      destruct (seek_ s =? -1) eqn:Hseek; cbn;
        [apply Z.eqb_eq in Hseek | apply Z.eqb_neq in Hseek];
        repeat split; right; repeat split; auto.
    + apply Z.ltb_ge in Hroom. cbn. repeat split. left. repeat split; auto.
Qed.

Lemma effect_holds w e :
  effect w e (fst (step w e)) (snd (step w e))
  /\ buffer_capacity_ (impl (fst (step w e))) = buffer_capacity_ (impl w).
Proof.
  destruct e; try apply run_effect_holds;
    try (destruct w as [s r]; cbn; repeat split; fail).
  - (* prev_frame *)
    destruct w as [s r]. unfold effect, untouched, step, prev_frame. cbn.
    destruct (negb (core.video_field.eqb field core.video_field.b));
      [destruct (frame_flush_ s || negb (core.has_image (frame_ s)));
       [destruct (buffer_ s) eqn:Hb |] |];
      cbn; rewrite ?Hb; repeat split.
  - (* next_frame *)
    destruct w as [s r]. unfold effect, step, next_frame. cbn [impl sched].
    destruct (buffer_ s) as [| head rest] eqn:Hb.
    + destruct (buffer_eof_ s && negb (frame_flush_ s)); cbn;
        [destruct ((frame_time_ s <? clip_end s) && negb (frame_duration_ s =? 0));
         [| destruct (frame_time_ s <? clip_end s)] |];
        cbn; rewrite ?Hb; repeat split; right; split; auto; discriminate.
    + destruct (frame_flush_ s && (buffer_size s <? 4)).
      * destruct (buffer_eof_ s && negb (frame_flush_ s)); cbn;
          [destruct ((frame_time_ s <? clip_end s) && negb (frame_duration_ s =? 0));
           [| destruct (frame_time_ s <? clip_end s)] |];
          cbn; rewrite ?Hb; repeat split; right; split; auto; discriminate.
      * match goal with |- context [if ?c then _ else _] => destruct c end.
        -- cbn. rewrite ?Hb. repeat split. right. split; auto. discriminate.
        -- destruct (negb (latency_ s =? -1)); cbn; repeat split;
             left; exists head, rest; repeat split.
  - (* new_video_sample *)
    destruct w as [s r]. unfold effect, untouched, step. cbn [impl sched].
    destruct (Input.new_video_sample pulled (input_ s)). cbn. repeat split.
  - (* new_audio_sample *)
    destruct w as [s r]. unfold effect, untouched, step. cbn [impl sched].
    destruct (Input.new_audio_sample pulled (input_ s)). cbn. repeat split.
Qed.

Lemma run_events_cons w e es :
  run_events w (e :: es)
  = (fst (run_events (fst (step w e)) es),
     snd (step w e) :: snd (run_events (fst (step w e)) es)).
Proof.
  cbn [run_events]. destruct (step w e) as [w1 o]. cbn [fst snd].
  now destruct (run_events w1 es).
Qed.

(** *** Bounded buffering *)

Definition bounded (w : world) : Prop :=
  0 <= buffer_capacity_ (impl w) <= Int.INT_MAX
  /\ buffer_size (impl w) <= buffer_capacity_ (impl w).

(** The scheduler sits in the wait of line 211 and its predicate is
    false. *)
Definition blocked (w : world) : Prop :=
  pc (sched w) = at_push
  /\ buffer_capacity_ (impl w) <= buffer_size (impl w).

Lemma to_size_t_small c : 0 <= c <= Int.INT_MAX -> to_size_t c = c.
Proof.
  unfold to_size_t, Int.INT_MAX. intros H. apply Z.mod_small.
  change (2 ^ 64) with 18446744073709551616. lia.
Qed.

Lemma bounded_step w e : bounded w -> bounded (fst (step w e)).
Proof.
  intros [Hcap Hsize]. destruct (effect_holds w e) as [He Hc].
  unfold bounded. rewrite Hc. split; [exact Hcap |].
  unfold buffer_size in *.
  destruct e; cbn [effect] in He;
    try (destruct He as (_ & _ & _ & ->); exact Hsize).
  - unfold run_effect in He. rewrite (to_size_t_small Hcap) in He.
    destruct (pc (sched w)).
    + destruct He as (_ & -> & _). exact Hsize.
    + destruct He as (_ & -> & _). exact Hsize.
    + destruct He as (-> & _). exact Hsize.
    + destruct He as (_ & _ & [(-> & _) | (Hroom & _ & [(_ & ->) | (_ & ->)])]);
        try exact Hsize.
      unfold buffer_size in Hroom. rewrite length_app. cbn [length]. lia.
  - destruct He as (_ & _ & _ & [(head & rest & Hb & -> & _) | (-> & _)]);
      [| exact Hsize].
    rewrite Hb in Hsize. cbn [length] in Hsize. lia.
  - destruct He as (_ & _ & -> & _). exact Hsize.
  - destruct He as (_ & _ & _ & ->). cbn. lia.
Qed.

Lemma bounded_run es : forall w, bounded w -> bounded (fst (run_events w es)).
Proof.
  induction es as [| e es IH]; intros w Hw; [exact Hw |].
  rewrite run_events_cons. cbn [fst]. apply IH. now apply bounded_step.
Qed.

Lemma initial_bounded format_desc pipeline start seek duration loop :
  0 <= fps format_desc <= Int.INT_MAX ->
  bounded (initial format_desc pipeline start seek duration loop).
Proof.
  unfold bounded, initial, buffer_size, Int.INT_MAX. cbn. intros H.
  rewrite Z.quot_div_nonneg by lia.
  assert (0 <= fps format_desc / 4 <= fps format_desc).
  { split; [apply Z.div_pos; lia |].
    apply Z.div_le_upper_bound; lia. }
  lia.
Qed.

(** C3.  After any sequence of events on a freshly constructed producer,
    the playout buffer holds at most [buffer_capacity_] frames.  While the
    buffer is full the scheduler's push does not take place: its step
    leaves the whole state as it is.  A scheduler step never removes a
    frame, it only ever appends to the buffer.  A blocked scheduler is
    released only by an event that shrinks the buffer: a [next_frame] call
    that takes the head, or a flush. *)
Theorem playout_buffer_never_exceeds_capacity
        format_desc pipeline start seek duration loop es :
  0 <= fps format_desc <= Int.INT_MAX ->
  let w := fst (run_events (initial format_desc pipeline start seek duration loop) es) in
  buffer_size (impl w) <= buffer_capacity_ (impl w)
  /\ (blocked w -> step w ev_run = (w, obs_action act_blocked))
  /\ (exists added,
         buffer_ (impl (fst (step w ev_run))) = buffer_ (impl w) ++ added)
  /\ (forall e,
         blocked w -> ~ blocked (fst (step w e)) ->
         e = ev_seek_flush
         \/ exists field head,
              e = ev_next_frame field
              /\ snd (step w e) = obs_next (delivered head)
              /\ hd_error (buffer_ (impl w)) = Some head).
Proof.
  intros Hfps w.
  assert (Hb : bounded w)
    by (apply bounded_run, initial_bounded; exact Hfps).
  destruct Hb as [Hcap Hsize].
  split; [exact Hsize |]. split; [| split].
  - intros [Hpc Hfull].
    destruct (run_effect_holds w) as [He _]. unfold run_effect in He.
    rewrite Hpc, (to_size_t_small Hcap) in He.
    destruct He as (_ & _ & [(Hw & Ho & _) | (Hroom & _)]); [| lia].
    rewrite (surjective_pairing (step w ev_run)). now rewrite Hw, Ho.
  - destruct (run_effect_holds w) as [He _]. unfold run_effect in He.
    destruct (pc (sched w)).
    + exists []. rewrite app_nil_r. apply He.
    + exists []. rewrite app_nil_r. apply He.
    + exists []. rewrite app_nil_r. apply He.
    + destruct He as (_ & _ & [(-> & _) | (_ & _ & [(_ & ->) | (_ & ->)])]).
      * exists []. now rewrite app_nil_r.
      * now exists [lframe (sched w)].
      * exists []. now rewrite app_nil_r.
  - intros e [Hpc Hfull] Hfree.
    destruct (effect_holds w e) as [He Hc].
    assert (Hsame : sched (fst (step w e)) = sched w ->
                    buffer_ (impl (fst (step w e))) = buffer_ (impl w) -> False).
    { intros Hs Hbuf. apply Hfree. unfold blocked, buffer_size.
      rewrite Hs, Hc, Hbuf. now split. }
    destruct e; cbn [effect] in He;
      try (exfalso; destruct He as (Hs & _ & _ & Hbuf); now apply Hsame).
    + exfalso. unfold run_effect in He.
      rewrite Hpc, (to_size_t_small Hcap) in He.
      destruct He as (_ & _ & [(Hw & _) | (Hroom & _)]); [| lia].
      apply Hsame; now rewrite Hw.
    + destruct He as (Hs & _ & _ & [(head & rest & Hb & _ & Ho) | (Hbuf & _)]).
      * right. exists field, head. rewrite Hb. now repeat split.
      * exfalso. now apply Hsame.
    + now left.
Qed.

(** A 25 fps producer (capacity 6) fed eight samples, with the scheduler
    running until it has to wait. *)
Definition eight_samples : list event :=
  map (fun n => ev_new_video_sample (mk_sample n (n * 40000000)))
      [1; 2; 3; 4; 5; 6; 7; 8]
  ++ repeat ev_run 40.

Lemma playout_buffer_never_exceeds_capacity_witness :
  let w := fst (run_events (initial (mk_format 25 40 1) true None None None None)
                           eight_samples) in
  buffer_size (impl w) = 6
  /\ buffer_size (impl w) <= buffer_capacity_ (impl w)
  /\ step w ev_run = (w, obs_action act_blocked).
Proof.
  intros w.
  assert (Hfps : 0 <= fps (mk_format 25 40 1) <= Int.INT_MAX)
    by (unfold Int.INT_MAX; cbn; lia).
  destruct (@playout_buffer_never_exceeds_capacity
              (mk_format 25 40 1) true None None None None eight_samples Hfps)
    as (Hle & Hblocked & _).
  split; [reflexivity |]. split; [exact Hle |].
  apply Hblocked. split; [reflexivity | vm_compute; discriminate].
Defined.

(** *** No stale frame after a seek *)

(** The frame counter can still be incremented [k] times. *)
Definition room (k : nat) (w : world) : Prop :=
  0 <= frame_count_ (impl w)
  /\ frame_count_ (impl w) + Z.of_nat k <= Int.INT64_MAX.

(** Every pending frame was numbered before the current counter value. *)
Definition numbered (w : world) : Prop :=
  forall f, In f (pending w) -> frame_count f < frame_count_ (impl w).

(** Since the counter stood at [n], nothing older than [n] can reach the
    buffer: the frame in the scheduler's hands is newer, or a seek is
    pending and the push will be skipped. *)
Definition fresh (n : Z) (w : world) : Prop :=
  n <= frame_count_ (impl w)
  /\ (pc (sched w) = at_push ->
      n <= frame_count (lframe (sched w)) \/ seek_ (impl w) <> -1).

Definition clean (n : Z) (w : world) : Prop :=
  fresh n w /\ forall f, In f (buffer_ (impl w)) -> n <= frame_count f.

(** Any event but the store of [-1], the value [run] reads as "no seek
    requested", into [seek_]. *)
Definition allowed (e : event) : Prop := e <> ev_seek_store (-1).

Lemma count_step w e k :
  room (S k) w ->
  room k (fst (step w e))
  /\ frame_count_ (impl w) <= frame_count_ (impl (fst (step w e)))
  /\ (frame_count_ (impl (fst (step w e))) = frame_count_ (impl w)
      \/ frame_count_ (impl (fst (step w e))) = frame_count_ (impl w) + 1).
Proof.
  intros [H0 Hk]. destruct (effect_holds w e) as [He _].
  assert (Hsame : frame_count_ (impl (fst (step w e))) = frame_count_ (impl w) ->
                  room k (fst (step w e))
                  /\ frame_count_ (impl w) <= frame_count_ (impl (fst (step w e)))
                  /\ (frame_count_ (impl (fst (step w e))) = frame_count_ (impl w)
                      \/ frame_count_ (impl (fst (step w e)))
                         = frame_count_ (impl w) + 1)).
  { intros H. unfold room. rewrite H. lia. }
  destruct e; cbn [effect] in He;
    try (apply Hsame; apply He).
  unfold run_effect in He. destruct (pc (sched w));
    try (apply Hsame; apply He).
  destruct He as (_ & _ & [(_ & Hc) | (_ & _ & Hc)]); [now apply Hsame |].
  rewrite Facts.wrap_int64_id in Hc
    by (unfold Int.in_int64, Int.INT64_MIN, Int.INT64_MAX in *; lia).
  rewrite Hc. unfold room. lia.
Qed.

Lemma pending_at_push w :
  pc (sched w) = at_push -> pending w = buffer_ (impl w) ++ [lframe (sched w)].
Proof. unfold pending. now intros ->. Qed.

Lemma pending_elsewhere w :
  pc (sched w) <> at_push -> pending w = buffer_ (impl w).
Proof.
  unfold pending. destruct (pc (sched w)); try (now rewrite app_nil_r).
  intros H. now contradiction H.
Qed.

Lemma in_buffer_pending w f : In f (buffer_ (impl w)) -> In f (pending w).
Proof. intros H. unfold pending. apply in_or_app. now left. Qed.

Lemma numbered_step w e k :
  room (S k) w -> numbered w -> numbered (fst (step w e)).
Proof.
  intros Hroom Hn f Hin.
  destruct (count_step e Hroom) as (_ & Hle & _).
  destruct (effect_holds w e) as [He _].
  assert (Hold : In f (pending w) -> frame_count f < frame_count_ (impl (fst (step w e))))
    by (intros H; specialize (Hn f H); lia).
  assert (Hkeep : sched (fst (step w e)) = sched w ->
                  incl (buffer_ (impl (fst (step w e)))) (buffer_ (impl w)) ->
                  frame_count f < frame_count_ (impl (fst (step w e)))).
  { intros Hs Hb. apply Hold. unfold pending in *. rewrite Hs in Hin.
    apply in_app_or in Hin. apply in_or_app.
    destruct Hin as [H | H]; [left; now apply Hb | now right]. }
  destruct e; cbn [effect] in He;
    try (destruct He as (Hs & _ & _ & Hb); apply Hkeep;
         [exact Hs | rewrite Hb; apply incl_refl]).
  - unfold run_effect in He. destruct (pc (sched w)) eqn:Hpc.
    + destruct He as (_ & Hb & _ & Hpc').
      rewrite (pending_elsewhere _ Hpc'), Hb in Hin.
      apply Hold. now apply in_buffer_pending.
    + destruct He as (_ & Hb & _ & Hpc').
      rewrite (pending_elsewhere _ Hpc'), Hb in Hin.
      apply Hold. now apply in_buffer_pending.
    + destruct He as (Hb & _ & [(Hpc' & _) | (Hpc' & Hf & Hc)]).
      * rewrite (pending_elsewhere _ Hpc'), Hb in Hin.
        apply Hold. now apply in_buffer_pending.
      * rewrite (pending_at_push _ Hpc'), Hb in Hin.
        apply in_app_or in Hin. destruct Hin as [H | [<- | []]].
        -- apply Hold. now apply in_buffer_pending.
        -- destruct Hroom as [H0 Hk].
           rewrite Facts.wrap_int64_id in Hc
             by (unfold Int.in_int64, Int.INT64_MIN, Int.INT64_MAX in *; lia).
           lia.
    + destruct He as (_ & _ & [(Hw & _) | (_ & Hpc' & Hb)]).
      * rewrite Hw in Hin. rewrite Hw. now apply Hn.
      * assert (Hat : pc (sched (fst (step w ev_run))) <> at_push)
          by (rewrite Hpc'; discriminate).
        rewrite (pending_elsewhere _ Hat) in Hin. apply Hold.
        rewrite (pending_at_push _ Hpc).
        destruct Hb as [(_ & Hb) | (_ & Hb)]; rewrite Hb in Hin;
          [exact Hin | apply in_or_app; now left].
  - destruct He as (Hs & _ & _ & [(head & rest & Hb & Hb' & _) | (Hb & _)]);
      apply Hkeep; try exact Hs.
    + rewrite Hb, Hb'. apply incl_tl, incl_refl.
    + rewrite Hb. apply incl_refl.
  - destruct He as (Hs & _ & Hb & _). apply Hkeep;
      [exact Hs | rewrite Hb; apply incl_refl].
  - destruct He as (Hs & _ & _ & Hb). apply Hkeep;
      [exact Hs | rewrite Hb; apply incl_nil_l].
Qed.

Lemma numbered_run es : forall w k,
  room (length es + k) w -> numbered w ->
  numbered (fst (run_events w es))
  /\ room k (fst (run_events w es)).
Proof.
  induction es as [| e es IH]; intros w k Hroom Hn; [now split |].
  rewrite run_events_cons. cbn [fst]. cbn [length plus] in Hroom.
  apply IH.
  - now apply count_step.
  - eapply numbered_step; eassumption.
Qed.

Lemma fresh_step n w e k :
  allowed e -> room (S k) w -> fresh n w -> fresh n (fst (step w e)).
Proof.
  intros Hal Hroom [Hn Hpush].
  destruct (count_step e Hroom) as (_ & Hle & _).
  destruct (effect_holds w e) as [He _].
  split; [lia |].
  assert (Hkeep : sched (fst (step w e)) = sched w ->
                  seek_ (impl (fst (step w e))) = seek_ (impl w) ->
                  pc (sched (fst (step w e))) = at_push ->
                  n <= frame_count (lframe (sched (fst (step w e))))
                  \/ seek_ (impl (fst (step w e))) <> -1).
  { intros Hs Hk. rewrite Hs, Hk. exact Hpush. }
  destruct e; cbn [effect] in He;
    try (destruct He as (Hs & _ & Hk & _); now apply Hkeep).
  - unfold run_effect in He. destruct (pc (sched w)) eqn:Hpc.
    + destruct He as (_ & _ & _ & Hpc'). intros H. now contradiction Hpc'.
    + destruct He as (_ & _ & _ & Hpc'). intros H. now contradiction Hpc'.
    + destruct He as (_ & _ & [(Hpc' & _) | (_ & Hf & _)]).
      * intros H. now contradiction Hpc'.
      * intros _. left. lia.
    + destruct He as (_ & _ & [(Hw & _) | (_ & Hpc' & _)]).
      * rewrite Hw. intros _. now apply Hpush.
      * rewrite Hpc'. discriminate.
  - destruct He as (Hs & _ & _ & Hk). intros _. right. rewrite Hk.
    intros ->. now apply Hal.
Qed.

Lemma fresh_run n es : forall w k,
  Forall allowed es -> room (length es + k) w -> fresh n w ->
  fresh n (fst (run_events w es)) /\ room k (fst (run_events w es)).
Proof.
  induction es as [| e es IH]; intros w k Hal Hroom Hf; [now split |].
  rewrite run_events_cons. cbn [fst]. cbn [length plus] in Hroom.
  inversion Hal as [| ? ? He Hes]; subst.
  apply IH; [exact Hes | now apply count_step |].
  eapply fresh_step; eassumption.
Qed.

Lemma clean_step n w e k :
  allowed e -> room (S k) w -> clean n w ->
  clean n (fst (step w e))
  /\ forall f, snd (step w e) = obs_next (delivered f) -> n <= frame_count f.
Proof.
  intros Hal Hroom [Hf Hbuf].
  pose proof (fresh_step Hal Hroom Hf) as Hf'.
  destruct (effect_holds w e) as [He _].
  assert (Hsub : incl (buffer_ (impl (fst (step w e)))) (buffer_ (impl w)) ->
                 clean n (fst (step w e))).
  { intros Hi. split; [exact Hf' |]. intros f H. now apply Hbuf, Hi. }
  destruct e; cbn [effect] in He;
    try (split;
         [apply Hsub; destruct He as (_ & _ & _ & ->); apply incl_refl
         | cbn; try destruct (Input.new_video_sample _ _);
           try destruct (Input.new_audio_sample _ _); discriminate]).
  - split.
    2: { cbn. destruct (run_step (impl w) (sched w)) as [[? ?] ?]. discriminate. }
    unfold run_effect in He. destruct (pc (sched w)) eqn:Hpc.
    + apply Hsub. destruct He as (_ & -> & _). apply incl_refl.
    + apply Hsub. destruct He as (_ & -> & _). apply incl_refl.
    + apply Hsub. destruct He as (-> & _). apply incl_refl.
    + destruct He as (_ & _ & [(-> & _) | (_ & _ & [(Hk & Hb) | (_ & Hb)])]).
      * now split.
      * split; [exact Hf' |]. rewrite Hb. intros f H.
        apply in_app_or in H. destruct H as [H | [<- | []]]; [now apply Hbuf |].
        destruct Hf as [_ Hpush]. destruct (Hpush Hpc) as [H | H];
          [exact H | now contradiction H].
      * apply Hsub. rewrite Hb. apply incl_refl.
  - destruct He as (_ & _ & _ & [(head & rest & Hb & Hb' & Ho) | (Hb & Ho)]).
    + split.
      * apply Hsub. rewrite Hb, Hb'. apply incl_tl, incl_refl.
      * intros f H. rewrite Ho in H. injection H as <-.
        apply Hbuf. rewrite Hb. now left.
    + split.
      * apply Hsub. rewrite Hb. apply incl_refl.
      * intros f H. now contradiction (Ho f).
  - split; [| discriminate].
    apply Hsub. destruct He as (_ & _ & -> & _). apply incl_refl.
  - split; [| discriminate].
    apply Hsub. destruct He as (_ & _ & _ & ->). apply incl_nil_l.
Qed.

Lemma clean_run n es : forall w k,
  Forall allowed es -> room (length es + k) w -> clean n w ->
  forall f, In (obs_next (delivered f)) (snd (run_events w es)) ->
            n <= frame_count f.
Proof.
  induction es as [| e es IH]; intros w k Hal Hroom Hc f Hin; [contradiction |].
  rewrite run_events_cons in Hin. cbn [snd] in Hin. cbn [length plus] in Hroom.
  inversion Hal as [| ? ? He Hes]; subst.
  destruct (clean_step He Hroom Hc) as [Hc' Hobs].
  destruct Hin as [Hin | Hin]; [now apply Hobs |].
  apply (IH (fst (step w e)) k Hes); [| exact Hc' | exact Hin].
  apply count_step. exact Hroom.
Qed.

Lemma initial_numbered format_desc pipeline start seek duration loop k :
  Z.of_nat k <= Int.INT64_MAX ->
  numbered (initial format_desc pipeline start seek duration loop)
  /\ room k (initial format_desc pipeline start seek duration loop).
Proof.
  intros Hk. split.
  - intros f H. contradiction.
  - unfold room. cbn. lia.
Qed.

(** C4 (as the code has it).  Take any run of a freshly constructed
    producer, then a seek to a time other than [-1]: the store to [seek_],
    any events, the flush under the lock.  In whatever follows, as long as
    no seek to [-1] is issued in between or afterwards, [next_frame] never
    takes from the buffer a frame that was pending when the seek was
    issued: every pending frame carries a sequence number below the
    counter value at the seek, every frame taken afterwards one at or
    above it.  The flush leaves the buffer empty. *)
Theorem no_stale_frame_after_seek
        format_desc pipeline start seek duration loop es0 time es1 es2 :
  time <> -1 ->
  Forall allowed es1 ->
  Forall allowed es2 ->
  Z.of_nat (length es0 + length es1 + length es2 + 2) <= Int.INT64_MAX ->
  let w0 := fst (run_events (initial format_desc pipeline start seek duration loop)
                            es0) in
  let w1 := fst (run_events w0 (ev_seek_store time :: es1)) in
  let w2 := fst (step w1 ev_seek_flush) in
  buffer_ (impl w2) = []
  /\ (forall f, In f (pending w0) -> frame_count f < frame_count_ (impl w0))
  /\ (forall f, In (obs_next (delivered f)) (snd (run_events w2 es2)) ->
                frame_count_ (impl w0) <= frame_count f)
  /\ (forall f, In f (pending w0) ->
                ~ In (obs_next (delivered f)) (snd (run_events w2 es2))).
Proof.
  intros Htime Hal1 Hal2 Hlen w0 w1 w2.
  set (k := (S (length es1 + S (length es2)))%nat).
  destruct (@initial_numbered format_desc pipeline start seek duration loop
              (length es0 + k)) as [Hn0 Hr0]; [unfold k; lia |].
  destruct (numbered_run es0 k Hr0 Hn0) as [Hn Hr]. fold w0 in Hn, Hr.
  set (n := frame_count_ (impl w0)).
  (* the store *)
  assert (Hfresh0 : fresh n (fst (step w0 (ev_seek_store time)))).
  { split; [apply Z.le_refl |]. intros _. right. exact Htime. }
  assert (Hroom0 : room (length es1 + S (length es2))
                        (fst (step w0 (ev_seek_store time)))).
  { apply count_step. exact Hr. }
  (* up to the flush *)
  destruct (@fresh_run n es1 (fst (step w0 (ev_seek_store time)))
                       (S (length es2)) Hal1 Hroom0 Hfresh0)
    as [Hfresh1 Hroom1].
  assert (Hw1 : fst (run_events (fst (step w0 (ev_seek_store time))) es1) = w1).
  { unfold w1. now rewrite run_events_cons. }
  rewrite Hw1 in Hfresh1, Hroom1.
  (* the flush *)
  assert (Hflush : allowed ev_seek_flush) by discriminate.
  assert (Hclean : clean n w2).
  { split; [exact (@fresh_step n w1 ev_seek_flush _ Hflush Hroom1 Hfresh1) |].
    intros f []. }
  assert (Hroom2 : room (length es2 + 0) w2).
  { rewrite Nat.add_0_r. apply count_step. exact Hroom1. }
  assert (Hnew : forall f, In (obs_next (delivered f)) (snd (run_events w2 es2)) ->
                           n <= frame_count f)
    by (apply (@clean_run n es2 w2 0%nat Hal2 Hroom2 Hclean)).
  split; [reflexivity |]. split; [exact Hn |]. split; [exact Hnew |].
  intros f Hold Hin. specialize (Hn f Hold). specialize (Hnew f Hin). lia.
Qed.

(** Two samples arrive at a 25 fps producer; the scheduler buffers the
    first frame and stands ready to push the second. *)
Definition second_in_flight : list event :=
  [ev_new_video_sample (mk_sample 1 0);
   ev_new_video_sample (mk_sample 2 40000000);
   ev_run; ev_run; ev_run; ev_run;
   ev_run; ev_run; ev_run].

Definition frame_of (sample : GstSample) (number : Z) : Frame :=
  mk_frame sample nullptr (make_frame sample) 0
           (Z.quot (buffer_pts sample) 1000000) 40 number.

(** After the seek: the scheduler finishes its pass and serves the seek,
    a new sample arrives and is buffered, the clock shows and takes it. *)
Definition after_seek : list event :=
  [ev_run; ev_run;
   ev_new_video_sample (mk_sample 3 0);
   ev_run; ev_run; ev_run; ev_run;
   ev_prev_frame core.video_field.progressive;
   ev_next_frame core.video_field.progressive].

Lemma no_stale_frame_after_seek_witness :
  let w0 := fst (run_events (initial (mk_format 25 40 1) true None None None None)
                            second_in_flight) in
  let w2 := fst (run_events w0 [ev_seek_store 0; ev_seek_flush]) in
  pending w0 = [frame_of (mk_sample 1 0) 0; frame_of (mk_sample 2 40000000) 1]
  /\ In (obs_next (delivered (frame_of (mk_sample 3 0) 2)))
        (snd (run_events w2 after_seek))
  /\ forall f, In f (pending w0) ->
               ~ In (obs_next (delivered f)) (snd (run_events w2 after_seek)).
Proof.
  intros w0 w2.
  split; [reflexivity |].
  split; [vm_compute; tauto |].
  apply (@no_stale_frame_after_seek (mk_format 25 40 1) true None None None None
           second_in_flight 0 [] after_seek).
  - discriminate.
  - constructor.
  - unfold after_seek. repeat constructor; discriminate.
  - vm_compute. discriminate.
Defined.

(** C4 (as the spec words it) fails for a seek to [-1].  The buffer holds
    one frame and the scheduler holds frame 1 when the seek is issued;
    the flush empties the buffer, the scheduler then pushes frame 1, and
    the clock is handed that frame. *)
Lemma seek_minus_one_delivers_stale_frame :
  let w0 := fst (run_events (initial (mk_format 25 40 1) true None None None None)
                            second_in_flight) in
  let w2 := fst (run_events w0 [ev_seek_store (-1); ev_seek_flush]) in
  let stale := frame_of (mk_sample 2 40000000) 1 in
  length (buffer_ (impl w0)) = 1%nat
  /\ In stale (pending w0)
  /\ frame_count stale < frame_count_ (impl w0)
  /\ buffer_ (impl w2) = []
  /\ In (obs_next (delivered stale))
        (snd (run_events w2 [ev_run;
                             ev_prev_frame core.video_field.progressive;
                             ev_next_frame core.video_field.progressive])).
Proof.
  vm_compute. intuition reflexivity.
Qed.

End SystemSpec.

(** * Further properties of the producer *)

(** ** What the clock is shown and handed *)

Module ClockCalls.

Import diagnostics gst Producer.

(** The held frame, its time and its duration are those of [f], no flush is
    pending. *)
Definition holds (f : Frame) (s : Impl) : Prop :=
  frame_ s = frame f
  /\ frame_time_ s = pts f
  /\ frame_duration_ s = fduration f
  /\ frame_flush_ s = false.

(** The request of [next_frame] for [field] is compatible with the head
    [f] of the buffer (lines 297-305). *)
Definition field_accepts (s : Impl) (field : core.video_field.t) (f : Frame) : Prop :=
  field_count (format_desc_ s) <> 2
  \/ field = core.video_field.progressive
  \/ ProducerSpec.field_of f = field.

Lemma parity_test_passes s field f :
  field_accepts s field f ->
  (field_count (format_desc_ s) =? 2)
  && ((core.video_field.eqb field core.video_field.a
       && negb (Z.rem (frame_count f) 2 =? 0))
      || (core.video_field.eqb field core.video_field.b
          && (Z.rem (frame_count f) 2 =? 0)))
  = false.
Proof.
  unfold field_accepts, ProducerSpec.field_of.
  intros [H | [-> | H]].
  - apply Z.eqb_neq in H. now rewrite H.
  - cbn. apply andb_false_r.
  - destruct (Z.rem (frame_count f) 2 =? 0); subst field; cbn;
      apply andb_false_r.
Qed.

(** With no flush pending, a call for a compatible field takes the head. *)
Lemma next_frame_takes_head field s head rest :
  buffer_ s = head :: rest ->
  frame_flush_ s = false ->
  field_accepts s field head ->
  fst (next_frame field s) = delivered head
  /\ buffer_ (snd (next_frame field s)) = rest
  /\ holds head (snd (next_frame field s))
  /\ latency_ (snd (next_frame field s)) = -1
  /\ calls_ (snd (next_frame field s)) = calls_ s ++ release_calls head.
Proof.
  intros Hb Hfl Hacc. unfold next_frame. rewrite Hb, Hfl.
  cbn [andb]. rewrite (parity_test_passes Hacc).
  destruct (latency_ s =? -1) eqn:Hl; cbn; repeat split.
  now apply Z.eqb_eq in Hl.
Qed.

(** When [last_frame] (that is [prev_frame]) picks up the head of the
    buffer, it shows a still of exactly the frame that the following
    [next_frame] hands out.  The [prev_frame] call is for a field other
    than B, made with a flush pending or no frame held, on a non-empty
    buffer; the [next_frame] call is for a compatible field.  Then
    [next_frame] returns the head's frame, removes the head from the
    buffer, unrefs its samples, holds it as the current frame and resets
    the latency counter to -1. *)
Theorem shown_frame_is_delivered_next field field' s head rest :
  field <> core.video_field.b ->
  frame_flush_ s = true \/ core.has_image (frame_ s) = false ->
  buffer_ s = head :: rest ->
  field_accepts s field' head ->
  let shown := fst (prev_frame field s) in
  let s1 := snd (prev_frame field s) in
  let handed := fst (next_frame field' s1) in
  let s2 := snd (next_frame field' s1) in
  shown = core.still (frame head)
  /\ buffer_ s1 = head :: rest
  /\ handed = delivered head
  /\ core.still (returned handed) = shown
  /\ buffer_ s2 = rest
  /\ holds head s2
  /\ latency_ s2 = -1
  /\ calls_ s2 = calls_ s ++ release_calls head.
Proof.
  intros Hf Hpick Hb Hacc shown s1 handed s2.
  assert (Hs1 : s1 = update_state
                       (set_frame_flush_ false
                          (set_frame_duration_ (fduration head)
                             (set_frame_time_ (pts head)
                                (set_frame_ (frame head) s))))
                /\ shown = core.still (frame head)).
  { unfold s1, shown, prev_frame.
    assert (Hnb : core.video_field.eqb field core.video_field.b = false)
      by (destruct field; [reflexivity | reflexivity | now contradiction Hf]).
    rewrite Hnb. cbn [negb].
    assert (Hc : frame_flush_ s || negb (core.has_image (frame_ s)) = true).
    { destruct Hpick as [-> | ->]; [reflexivity | apply orb_true_r]. }
    rewrite Hc, Hb. split; reflexivity. }
  destruct Hs1 as [Hs1 Hshown].
  assert (Hb1 : buffer_ s1 = head :: rest) by (rewrite Hs1; exact Hb).
  assert (Hfl1 : frame_flush_ s1 = false) by (rewrite Hs1; reflexivity).
  assert (Hacc1 : field_accepts s1 field' head) by (rewrite Hs1; exact Hacc).
  destruct (@next_frame_takes_head field' s1 head rest Hb1 Hfl1 Hacc1)
    as (Hd & Hrest & Hholds & Hlat & Hcalls).
  fold handed in Hd. fold s2 in Hrest, Hholds, Hlat, Hcalls.
  split; [exact Hshown |]. split; [exact Hb1 |]. split; [exact Hd |].
  split; [rewrite Hd, Hshown; reflexivity |].
  split; [exact Hrest |]. split; [exact Hholds |]. split; [exact Hlat |].
  rewrite Hcalls, Hs1. reflexivity.
Qed.

Lemma shown_frame_is_delivered_next_witness :
  let s := set_frame_flush_ true ProducerSpec.interlaced_sample in
  fst (prev_frame core.video_field.a s)
  = core.still (make_frame (mk_sample 1 0))
  /\ returned (fst (next_frame core.video_field.a
                               (snd (prev_frame core.video_field.a s))))
     = make_frame (mk_sample 1 0)
  /\ buffer_ (snd (next_frame core.video_field.a
                               (snd (prev_frame core.video_field.a s)))) = [].
Proof.
  intros s.
  destruct (@shown_frame_is_delivered_next
              core.video_field.a core.video_field.a s
              (mk_frame (mk_sample 1 0) nullptr (make_frame (mk_sample 1 0)) 0 0 40 0)
              [])
    as (Hshown & _ & Hd & _ & Hrest & _).
  - discriminate.
  - left. reflexivity.
  - reflexivity.
  - right. right. reflexivity.
  - split; [exact Hshown |]. split; [| exact Hrest].
    rewrite Hd. reflexivity.
Defined.

Lemma flush_gate field s :
  frame_flush_ s = true ->
  buffer_size s < 4 ->
  next_frame field s = (underflow, update_state (signal_underflow s)).
Proof.
  intros Hfl Hsize. unfold next_frame. rewrite Hfl.
  apply Z.ltb_lt in Hsize. rewrite Hsize. cbn [andb negb].
  destruct (buffer_ s); rewrite Hfl, andb_false_r; reflexivity.
Qed.

(** While a flush is pending and fewer than four frames are buffered,
    [next_frame] hands out nothing, whatever the field: it returns the
    empty frame and counts an underflow, and the buffer, the held frame and
    the pending flush stay as they are. *)
Theorem pending_flush_needs_four_frames field s :
  frame_flush_ s = true ->
  buffer_size s < 4 ->
  fst (next_frame field s) = underflow
  /\ returned (fst (next_frame field s)) = core.draw_frame_empty
  /\ buffer_ (snd (next_frame field s)) = buffer_ s
  /\ frame_ (snd (next_frame field s)) = frame_ s
  /\ frame_flush_ (snd (next_frame field s)) = true
  /\ latency_ (snd (next_frame field s)) = Int.wrap_int (latency_ s + 1)
  /\ ProducerSpec.underflows (snd (next_frame field s))
     = S (ProducerSpec.underflows s).
Proof.
  intros Hfl Hsize. rewrite (@flush_gate field s Hfl Hsize).
  cbn [fst snd returned].
  destruct (ProducerSpec.signal_underflow_effect s) as (Hb & Hf & _ & _ & Hl & Hu).
  repeat split; auto.
Qed.

Lemma pending_flush_needs_four_frames_witness :
  let s := set_frame_flush_ true ProducerSpec.buffered_sample in
  buffer_size s = 1
  /\ fst (next_frame core.video_field.progressive s) = underflow
  /\ buffer_ (snd (next_frame core.video_field.progressive s)) = buffer_ s.
Proof.
  intros s.
  destruct (@pending_flush_needs_four_frames core.video_field.progressive s)
    as (Hu & _ & Hb & _); [reflexivity | cbn; lia |].
  split; [reflexivity |]. split; [exact Hu | exact Hb].
Defined.

End ClockCalls.

(** ** What the scheduler does with seeks, trims and end-of-stream *)

Module Schedule.

Import diagnostics gst Producer System.

Ltac split_cases :=
  repeat match goal with
         | |- context [match ?c with _ => _ end] => destruct c
         end.

(** *** Seek requests *)

(** Two seeks issued before the scheduler reaches the top of its loop are
    served as one: with a non-negative second time the scheduler forwards
    that time alone to the input, marks a flush, clears the request and
    restarts with an empty frame, and its next pass finds no request and
    touches the input no more.  With a negative second time nothing is
    forwarded at all, not even the first request: the scheduler clears the
    request and moves on to the end-of-clip test.  In both cases the two
    seeks have emptied the playout buffer. *)
Theorem seeks_coalesce_and_are_served_once t1 t2 s r :
  let s2 := seek t2 (seek t1 s) in
  let s3 := fst (fst (run_seek s2 r)) in
  let r3 := snd (fst (run_seek s2 r)) in
  buffer_ s2 = []
  /\ seek_ s3 = -1
  /\ buffer_ s3 = []
  /\ (0 <= t2 ->
      input_ s3 = Input.seek t2 true (input_ s)
      /\ frame_flush_ s3 = true
      /\ r3 = mk_locals Frame_default (warning_debounce r) at_seek
      /\ input_ (fst (fst (run_seek s3 r3))) = input_ s3
      /\ pc (snd (fst (run_seek s3 r3))) = at_eof)
  /\ (t2 < 0 ->
      input_ s3 = input_ s
      /\ frame_flush_ s3 = frame_flush_ s
      /\ r3 = mk_locals (lframe r) (warning_debounce r) at_eof).
Proof.
  intros s2 s3 r3. unfold s3, r3, s2, run_seek, seek, seek_flush, seek_store.
  cbn. destruct (0 <=? t2) eqn:Ht; cbn.
  - apply Z.leb_le in Ht. repeat split; lia.
  - apply Z.leb_gt in Ht. repeat split; lia.
Qed.

Lemma seeks_coalesce_and_are_served_once_witness :
  let s := ProducerSpec.buffered_sample in
  let s3 := fst (fst (run_seek (seek 2000 (seek 500 s)) run_start)) in
  Input.calls_ (input_ s3)
  = [gst_element_set_state GST_STATE_PAUSED;
     gst_element_set_state GST_STATE_PLAYING;
     gst_element_seek_simple 2000000000]
  /\ frame_flush_ s3 = true
  /\ seek_ s3 = -1.
Proof.
  intros s s3.
  destruct (@seeks_coalesce_and_are_served_once 500 2000 s run_start)
    as (_ & Hseek & _ & Hserved & _).
  destruct Hserved as (Hin & Hfl & _); [lia |].
  split; [| split; [exact Hfl | exact Hseek]].
  unfold s3. rewrite Hin. reflexivity.
Defined.

(** *** The scheduler's frame between passes *)

(** Outside the wait for buffer space the scheduler's local frame is
    [Frame{}]. *)
Definition idle (w : world) : Prop :=
  pc (sched w) <> at_push -> lframe (sched w) = Frame_default.

(** Only the scheduler's own segments change its locals. *)
Lemma sched_kept w e : e <> ev_run -> sched (fst (step w e)) = sched w.
Proof.
  intros He. destruct e; try (now contradiction He); unfold step;
    try reflexivity.
  - now destruct (next_frame field (impl w)).
  - now destruct (Input.new_video_sample pulled (input_ (impl w))).
  - now destruct (Input.new_audio_sample pulled (input_ (impl w))).
Qed.

Lemma idle_step w e : idle w -> idle (fst (step w e)).
Proof.
  intros Hw.
  destruct e;
    try (unfold idle; rewrite sched_kept by discriminate; exact Hw).
  destruct w as [s r]. unfold idle, step, run_step in *. cbn [impl sched] in *.
  destruct (pc r) eqn:Hpc.
  - unfold run_seek. destruct (0 <=? seek_ s); cbn; intros _;
      [reflexivity | apply Hw; discriminate].
  - unfold run_eof. cbn [buffer_eof_ set_buffer_eof_ loop_ frame_count_].
    destruct (Input.eof (input_ s) || _);
      [destruct (loop_ s && (2 <? frame_count_ s)) |];
      cbn; intros _; try reflexivity; apply Hw; discriminate.
  - unfold run_pop.
    destruct (Input.try_pop_video nullptr (input_ s)) as [[popped sample] input].
    destruct popped; [destruct (is_null sample) |]; cbn.
    + intros _. apply Hw. discriminate.
    + intros H. now contradiction H.
    + intros _. apply Hw. discriminate.
  - unfold run_push. destruct (buffer_size s <? to_size_t (buffer_capacity_ s)); cbn.
    + reflexivity.
    + rewrite Hpc. intros H. now contradiction H.
Qed.

Lemma idle_run es : forall w, idle w -> idle (fst (run_events w es)).
Proof.
  induction es as [| e es IH]; intros w Hw; [exact Hw |].
  rewrite SystemSpec.run_events_cons. cbn [fst]. apply IH. now apply idle_step.
Qed.

(** After any run of a freshly constructed producer, the scheduler's
    end-of-clip test sees a frame time of 0: the flag it stores is the
    input's end-of-stream flag, or true when the effective end
    [start_ + duration_] is not positive.  So with a positive effective end
    and no end-of-stream, the scheduler goes on to pop the next sample
    whatever the timestamps of the frames it has produced. *)
Theorem trim_never_stops_the_scheduler
        format_desc pipeline start seek duration loop es :
  let w := fst (run_events (initial format_desc pipeline start seek duration loop) es) in
  pc (sched w) = at_eof ->
  buffer_eof_ (impl (fst (step w ev_run)))
  = Input.eof (input_ (impl w)) || (clip_end (impl w) <=? 0)
  /\ (Input.eof (input_ (impl w)) = false ->
      0 < clip_end (impl w) ->
      pc (sched (fst (step w ev_run))) = at_pop
      /\ input_ (impl (fst (step w ev_run))) = input_ (impl w)
      /\ snd (step w ev_run) = obs_action act_none).
Proof.
  intros w Hpc.
  assert (Hidle : idle w) by (apply idle_run; intros _; reflexivity).
  assert (Hf : lframe (sched w) = Frame_default)
    by (apply Hidle; rewrite Hpc; discriminate).
  destruct w as [s r]. cbn [impl sched] in *.
  unfold step, run_step. cbn [impl sched]. rewrite Hpc.
  unfold run_eof. rewrite Hf.
  change (Int.wrap_int64 (pts Frame_default + fduration Frame_default)) with 0.
  cbn [buffer_eof_ set_buffer_eof_ loop_ frame_count_].
  split.
  - destruct (Input.eof (input_ s) || (clip_end s <=? 0));
      [destruct (loop_ s && (2 <? frame_count_ s)) |]; reflexivity.
  - intros He Hend. rewrite He.
    apply Z.leb_gt in Hend. rewrite Hend. cbn. repeat split.
Qed.

(** A producer trimmed to 100 ms is fed two samples stamped 0 and 120 ms;
    the scheduler has buffered both and stands at the end-of-clip test. *)
Definition past_the_trim : list event :=
  [ev_new_video_sample (mk_sample 1 0);
   ev_new_video_sample (mk_sample 2 120000000);
   ev_run; ev_run; ev_run; ev_run;
   ev_run; ev_run; ev_run; ev_run;
   ev_run].

Lemma trim_never_stops_the_scheduler_witness :
  let w := fst (run_events
                  (initial (mk_format 25 40 1) true None None (Some 100) None)
                  past_the_trim) in
  map pts (buffer_ (impl w)) = [0; 120]
  /\ clip_end (impl w) = 100
  /\ buffer_eof_ (impl (fst (step w ev_run))) = false
  /\ pc (sched (fst (step w ev_run))) = at_pop.
Proof.
  intros w.
  destruct (@trim_never_stops_the_scheduler
              (mk_format 25 40 1) true None None (Some 100) None past_the_trim)
    as [Hflag Hnext]; [reflexivity |].
  fold w in Hflag, Hnext.
  split; [reflexivity |]. split; [reflexivity |].
  split; [rewrite Hflag; reflexivity |].
  apply Hnext; [reflexivity | reflexivity].
Defined.

End Schedule.

(** ** What reaches the clock over a whole run *)

Module Delivery.

Import diagnostics gst Producer System.

(** *** End-of-stream in a producer *)

Lemma input_seek_keeps_loop position flush i :
  Input.loop_ (Input.seek position flush i) = Input.loop_ i.
Proof.
  unfold Input.seek. destruct (negb (Input.pipeline_ i)); [reflexivity |].
  destruct flush; reflexivity.
Qed.

Lemma next_frame_keeps_input field s :
  input_ (snd (next_frame field s)) = input_ s.
Proof.
  unfold next_frame. destruct (buffer_ s) as [| head rest].
  - destruct (buffer_eof_ s && negb (frame_flush_ s)); [| reflexivity].
    destruct ((frame_time_ s <? clip_end s) && negb (frame_duration_ s =? 0));
      [reflexivity |].
    destruct (frame_time_ s <? clip_end s); reflexivity.
  - destruct (frame_flush_ s && (buffer_size s <? 4)).
    + destruct (buffer_eof_ s && negb (frame_flush_ s)); [| reflexivity].
      destruct ((frame_time_ s <? clip_end s) && negb (frame_duration_ s =? 0));
        [reflexivity |].
      destruct (frame_time_ s <? clip_end s); reflexivity.
    + match goal with |- context [if ?c then _ else _] => destruct c end;
        [reflexivity |].
      destruct (negb (latency_ s =? -1)); reflexivity.
Qed.

Lemma prev_frame_keeps_input field s :
  input_ (snd (prev_frame field s)) = input_ s.
Proof.
  unfold prev_frame.
  destruct (negb (core.video_field.eqb field core.video_field.b));
    [| reflexivity].
  destruct (frame_flush_ s || negb (core.has_image (frame_ s)));
    [| reflexivity].
  destruct (buffer_ s); reflexivity.
Qed.

Lemma input_loop_kept w e :
  Input.loop_ (input_ (impl (fst (step w e)))) = Input.loop_ (input_ (impl w)).
Proof.
  destruct w as [s r]. destruct e; unfold step; cbn [impl sched].
  - unfold run_step, run_seek, run_eof, run_pop, run_push, Input.try_pop_video.
    destruct (pc r); cbn [buffer_eof_ set_buffer_eof_ loop_ frame_count_].
    + destruct (0 <=? seek_ s); cbn; [apply input_seek_keeps_loop | reflexivity].
    + destruct (Input.eof (input_ s) || _);
        [destruct (loop_ s && (2 <? frame_count_ s)) |]; cbn;
        try reflexivity. apply input_seek_keeps_loop.
    + unfold cbq.try_pop.
      destruct (cbq.items (Input.video_buffer_ (input_ s))) as [| x rest];
        cbn; [reflexivity |]. destruct (is_null x); reflexivity.
    + destruct (buffer_size s <? to_size_t (buffer_capacity_ s));
        [destruct (seek_ s =? -1) |]; reflexivity.
  - pose proof (prev_frame_keeps_input field s) as H.
    destruct (prev_frame field s). cbn in *. now rewrite H.
  - pose proof (next_frame_keeps_input field s) as H.
    destruct (next_frame field s). cbn in *. now rewrite H.
  - reflexivity.
  - reflexivity.
  - reflexivity.
  - reflexivity.
  - reflexivity.
  - unfold Input.new_video_sample. destruct (is_null pulled); [reflexivity |].
    destruct (cbq.try_push pulled _) as [[] q]; reflexivity.
  - unfold Input.new_audio_sample. destruct (is_null pulled); [reflexivity |].
    destruct (cbq.try_push pulled _) as [[] q]; reflexivity.
  - unfold on_input, Input.on_eos. cbn.
    destruct (Input.loop_ (input_ s)) as [[] |] eqn:Hl;
      [now rewrite input_seek_keeps_loop | exact Hl | exact Hl].
Qed.

Lemma input_never_loops format_desc pipeline start seek duration loop es :
  Input.loop_
    (input_ (impl (fst (run_events
                          (initial format_desc pipeline start seek duration loop)
                          es))))
  = None.
Proof.
  assert (H : forall w, Input.loop_ (input_ (impl w)) = None ->
                        Input.loop_ (input_ (impl (fst (run_events w es)))) = None).
  { induction es as [| e es IH]; intros w Hw; [exact Hw |].
    rewrite SystemSpec.run_events_cons. cbn [fst]. apply IH.
    now rewrite input_loop_kept. }
  apply H. unfold initial, create. cbn. now destruct pipeline.
Qed.

(** In a producer the input is built without its own loop option.  So after
    any run, whether or not the producer loops, an end-of-stream message
    from the pipeline only raises the input's end-of-stream flag: the input
    issues no seek, keeps its queues, and the rewind is left to the
    scheduler. *)
Theorem end_of_stream_only_raises_the_flag
        format_desc pipeline start seek duration loop es :
  let w := fst (run_events (initial format_desc pipeline start seek duration loop) es) in
  input_ (impl (fst (step w ev_eos))) = Input.set_eof_ true (input_ (impl w))
  /\ Input.eof (input_ (impl (fst (step w ev_eos)))) = true
  /\ Input.calls_ (input_ (impl (fst (step w ev_eos))))
     = Input.calls_ (input_ (impl w))
  /\ Input.video_buffer_ (input_ (impl (fst (step w ev_eos))))
     = Input.video_buffer_ (input_ (impl w)).
Proof.
  intros w.
  pose proof (input_never_loops format_desc pipeline start seek duration loop es)
    as Hloop.
  fold w in Hloop.
  assert (H : input_ (impl (fst (step w ev_eos)))
              = Input.set_eof_ true (input_ (impl w))).
  { cbn. unfold Input.on_eos. now rewrite Hloop. }
  rewrite H. repeat split.
Qed.

(** *** Starvation behind a pending flush *)

(** A flush is pending and the buffer can never hold four frames. *)
Definition starved (w : world) : Prop :=
  frame_flush_ (impl w) = true
  /\ SystemSpec.bounded w
  /\ buffer_capacity_ (impl w) < 4.

(** Any event but a [prev_frame] call for a field other than B. *)
Definition blind (e : event) : Prop :=
  match e with
  | ev_prev_frame field => field = core.video_field.b
  | _ => True
  end.

Lemma run_step_keeps_flush s r :
  frame_flush_ s = true -> frame_flush_ (fst (fst (run_step s r))) = true.
Proof.
  intros Hfl.
  unfold run_step, run_seek, run_eof, run_pop, run_push, Input.try_pop_video.
  destruct (pc r); cbn [buffer_eof_ set_buffer_eof_ loop_ frame_count_].
  - destruct (0 <=? seek_ s); cbn; [reflexivity | exact Hfl].
  - destruct (Input.eof (input_ s) || _);
      [destruct (loop_ s && (2 <? frame_count_ s)) |]; cbn;
      try reflexivity; exact Hfl.
  - unfold cbq.try_pop.
    destruct (cbq.items (Input.video_buffer_ (input_ s))) as [| x rest];
      cbn; [exact Hfl |]. destruct (is_null x); exact Hfl.
  - destruct (buffer_size s <? to_size_t (buffer_capacity_ s));
      [destruct (seek_ s =? -1) |]; exact Hfl.
Qed.

Lemma starved_step w e :
  blind e -> starved w ->
  starved (fst (step w e))
  /\ forall d, snd (step w e) = obs_next d -> d = underflow.
Proof.
  intros Hblind (Hfl & Hb & Hcap).
  assert (Hsize : buffer_size (impl w) < 4) by (destruct Hb as [_ Hb]; lia).
  destruct (SystemSpec.effect_holds w e) as [_ Hc].
  assert (Hrest : frame_flush_ (impl (fst (step w e))) = true ->
                  starved (fst (step w e))).
  { intros H. split; [exact H |]. split; [now apply SystemSpec.bounded_step |].
    now rewrite Hc. }
  destruct w as [s r]. cbn [impl sched] in *.
  destruct e; unfold step in *; cbn [impl sched] in *.
  - destruct (run_step s r) as [[s' r'] a] eqn:Hrun.
    split; [| discriminate]. apply Hrest. cbn.
    pose proof (run_step_keeps_flush s r Hfl) as H. now rewrite Hrun in H.
  - cbn in Hblind. subst field. split; [| discriminate].
    apply Hrest. exact Hfl.
  - rewrite (@ClockCalls.flush_gate field s Hfl Hsize) in *.
    split; [apply Hrest; exact Hfl |]. intros d H. now injection H as <-.
  - split; [apply Hrest; exact Hfl | discriminate].
  - split; [apply Hrest; exact Hfl | discriminate].
  - split; [apply Hrest; exact Hfl | discriminate].
  - split; [apply Hrest; exact Hfl | discriminate].
  - split; [apply Hrest; exact Hfl | discriminate].
  - destruct (Input.new_video_sample pulled (input_ s)).
    split; [apply Hrest; exact Hfl | discriminate].
  - destruct (Input.new_audio_sample pulled (input_ s)).
    split; [apply Hrest; exact Hfl | discriminate].
  - split; [apply Hrest; exact Hfl | discriminate].
Qed.

Lemma starved_run es : forall w,
  Forall blind es -> starved w ->
  forall d, In (obs_next d) (snd (run_events w es)) -> d = underflow.
Proof.
  induction es as [| e es IH]; intros w Hal Hw d Hin; [contradiction |].
  rewrite SystemSpec.run_events_cons in Hin. cbn [snd] in Hin.
  inversion Hal as [| ? ? He Hes]; subst.
  destruct (@starved_step w e He Hw) as [Hw' Hobs].
  destruct Hin as [Hin | Hin]; [now apply Hobs |].
  now apply (IH (fst (step w e)) Hes Hw').
Qed.

(** A producer whose format has fewer than 16 frames per second has a
    playout buffer of fewer than four frames.  From its construction on,
    as long as [prev_frame] is not called for a field other than B, every
    [next_frame] call returns the empty frame: the flush pending since
    construction is never cleared, because the look-ahead of four buffered
    frames cannot be met. *)
Theorem small_buffer_starves_without_prev_frame
        format_desc pipeline start seek duration loop es :
  0 <= fps format_desc < 16 ->
  Forall blind es ->
  forall d,
    In (obs_next d)
       (snd (run_events (initial format_desc pipeline start seek duration loop) es)) ->
    d = underflow.
Proof.
  intros Hfps Hal. apply starved_run; [exact Hal |].
  split; [reflexivity |]. split.
  - apply SystemSpec.initial_bounded. unfold Int.INT_MAX. lia.
  - cbn. rewrite Z.quot_div_nonneg by lia.
    apply Z.div_lt_upper_bound; lia.
Qed.

(** A 12 fps producer: three samples are buffered (the buffer is then
    full), and the clock asks three times. *)
Definition slow_format_run : list event :=
  map (fun n => ev_new_video_sample (mk_sample n (n * 83000000))) [1; 2; 3; 4]
  ++ repeat ev_run 16
  ++ [ev_next_frame core.video_field.progressive;
      ev_prev_frame core.video_field.b;
      ev_next_frame core.video_field.progressive;
      ev_next_frame core.video_field.progressive].

Lemma small_buffer_starves_without_prev_frame_witness :
  let run := run_events (initial (mk_format 12 83 1) true None None None None)
                        slow_format_run in
  buffer_size (impl (fst run)) = 3
  /\ forall d, In (obs_next d) (snd run) -> d = underflow.
Proof.
  intros run. split; [reflexivity |].
  apply (@small_buffer_starves_without_prev_frame
           (mk_format 12 83 1) true None None None None slow_format_run).
  - cbn. lia.
  - unfold slow_format_run. repeat constructor.
Defined.

End Delivery.

(** ** Order of delivery *)

Module Ordering.

Import gst Producer System.

(** The sequence numbers of [l] rise strictly, all above [lo]. *)
Fixpoint increasing (lo : Z) (l : list Frame) : Prop :=
  match l with
  | [] => True
  | f :: rest => lo < frame_count f /\ increasing (frame_count f) rest
  end.

(** The frames [next_frame] took from the buffer, in call order. *)
Fixpoint delivered_frames (obs : list observation) : list Frame :=
  match obs with
  | [] => []
  | obs_next (delivered f) :: rest => f :: delivered_frames rest
  | _ :: rest => delivered_frames rest
  end.

Lemma increasing_weaken l : forall lo lo',
  lo' <= lo -> increasing lo l -> increasing lo' l.
Proof.
  destruct l as [| f rest]; intros lo lo' Hle H; [exact I |].
  cbn in *. destruct H as [H1 H2]. split; [lia | exact H2].
Qed.

Lemma increasing_prefix a b : forall lo,
  increasing lo (a ++ b) -> increasing lo a.
Proof.
  induction a as [| f a IH]; intros lo H; [exact I |].
  cbn in *. destruct H as [H1 H2]. split; [exact H1 | now apply IH].
Qed.

Lemma increasing_suffix a b : forall lo,
  increasing lo (a ++ b) -> increasing lo b.
Proof.
  induction a as [| f a IH]; intros lo H; [exact H |].
  cbn in H. destruct H as [H1 H2].
  apply increasing_weaken with (lo := frame_count f); [lia |]. now apply IH.
Qed.

Lemma increasing_snoc l g : forall lo,
  increasing lo l ->
  (forall f, In f l -> frame_count f < frame_count g) ->
  lo < frame_count g ->
  increasing lo (l ++ [g]).
Proof.
  induction l as [| f l IH]; intros lo H Hall Hlo.
  - cbn. split; [exact Hlo | exact I].
  - cbn in *. destruct H as [H1 H2]. split; [exact H1 |].
    apply IH; [exact H2 | intros x Hx; apply Hall; now right |].
    apply Hall. now left.
Qed.

(** An event either hands the first pending frame to the clock, or hands
    out nothing and keeps the pending frames in rising order. *)
Lemma pending_change w e k :
  SystemSpec.room (S k) w -> SystemSpec.numbered w ->
  (exists head, snd (step w e) = obs_next (delivered head)
                /\ pending w = head :: pending (fst (step w e)))
  \/ ((forall f, snd (step w e) <> obs_next (delivered f))
      /\ forall lo, lo < frame_count_ (impl w) ->
                    increasing lo (pending w) ->
                    increasing lo (pending (fst (step w e)))).
Proof.
  intros Hroom Hn.
  destruct (SystemSpec.effect_holds w e) as [He _].
  assert (Hkeep : (forall f, snd (step w e) <> obs_next (delivered f)) ->
                  pending (fst (step w e)) = pending w ->
                  (exists head, snd (step w e) = obs_next (delivered head)
                                /\ pending w = head :: pending (fst (step w e)))
                  \/ ((forall f, snd (step w e) <> obs_next (delivered f))
                      /\ forall lo, lo < frame_count_ (impl w) ->
                                    increasing lo (pending w) ->
                                    increasing lo (pending (fst (step w e))))).
  { intros Ho Hp. right. split; [exact Ho |]. intros lo _ H. now rewrite Hp. }
  assert (Hsame : sched (fst (step w e)) = sched w ->
                  buffer_ (impl (fst (step w e))) = buffer_ (impl w) ->
                  pending (fst (step w e)) = pending w).
  { intros Hs Hb. unfold pending. now rewrite Hs, Hb. }
  destruct e; cbn [SystemSpec.effect] in He.
  - (* a scheduler segment *)
    assert (Ho : forall f, snd (step w ev_run) <> obs_next (delivered f)).
    { intros f. cbn. destruct (run_step (impl w) (sched w)) as [[? ?] ?].
      discriminate. }
    unfold SystemSpec.run_effect in He. destruct (pc (sched w)) eqn:Hpc.
    + destruct He as (_ & Hb & _ & Hpc'). apply Hkeep; [exact Ho |].
      rewrite (SystemSpec.pending_elsewhere _ Hpc'), Hb.
      symmetry. apply SystemSpec.pending_elsewhere. rewrite Hpc. discriminate.
    + destruct He as (_ & Hb & _ & Hpc'). apply Hkeep; [exact Ho |].
      rewrite (SystemSpec.pending_elsewhere _ Hpc'), Hb.
      symmetry. apply SystemSpec.pending_elsewhere. rewrite Hpc. discriminate.
    + assert (Hp : pending w = buffer_ (impl w))
        by (apply SystemSpec.pending_elsewhere; rewrite Hpc; discriminate).
      destruct He as (Hb & _ & [(Hpc' & _) | (Hpc' & Hf & _)]).
      * apply Hkeep; [exact Ho |].
        now rewrite (SystemSpec.pending_elsewhere _ Hpc'), Hb.
      * right. split; [exact Ho |]. intros lo Hlo Hinc.
        rewrite (SystemSpec.pending_at_push _ Hpc'), Hb, <- Hp.
        apply increasing_snoc; [exact Hinc | | lia].
        intros f Hin. rewrite Hf. now apply Hn.
    + assert (Hp : pending w = buffer_ (impl w) ++ [lframe (sched w)])
        by (now apply SystemSpec.pending_at_push).
      destruct He as (_ & _ & [(Hw & _) | (_ & Hpc' & Hb)]).
      * apply Hkeep; [exact Ho | now rewrite Hw].
      * assert (Hat : pc (sched (fst (step w ev_run))) <> at_push)
          by (rewrite Hpc'; discriminate).
        destruct Hb as [(_ & Hb) | (_ & Hb)].
        -- apply Hkeep; [exact Ho |].
           now rewrite (SystemSpec.pending_elsewhere _ Hat), Hb, Hp.
        -- right. split; [exact Ho |]. intros lo _ Hinc.
           rewrite (SystemSpec.pending_elsewhere _ Hat), Hb.
           rewrite Hp in Hinc. now apply increasing_prefix in Hinc.
  - apply Hkeep; [discriminate |].
    destruct He as (Hs & _ & _ & Hb). now apply Hsame.
  - destruct He as (Hs & _ & _ & [(head & rest & Hb & Hb' & Ho) | (Hb & Ho)]).
    + left. exists head. split; [exact Ho |].
      unfold pending. now rewrite Hs, Hb, Hb'.
    + apply Hkeep; [exact Ho | now apply Hsame].
  - apply Hkeep; [discriminate |].
    destruct He as (Hs & _ & Hb & _). now apply Hsame.
  - right. split; [discriminate |]. intros lo _ Hinc.
    destruct He as (Hs & _ & _ & Hb).
    unfold pending in *. rewrite Hs, Hb. cbn [app].
    now apply increasing_suffix in Hinc.
  - apply Hkeep; [discriminate |].
    destruct He as (Hs & _ & _ & Hb). now apply Hsame.
  - apply Hkeep; [discriminate |].
    destruct He as (Hs & _ & _ & Hb). now apply Hsame.
  - apply Hkeep; [discriminate |].
    destruct He as (Hs & _ & _ & Hb). now apply Hsame.
  - apply Hkeep;
      [cbn; destruct (Input.new_video_sample _ _); discriminate |].
    destruct He as (Hs & _ & _ & Hb). now apply Hsame.
  - apply Hkeep;
      [cbn; destruct (Input.new_audio_sample _ _); discriminate |].
    destruct He as (Hs & _ & _ & Hb). now apply Hsame.
  - apply Hkeep; [discriminate |].
    destruct He as (Hs & _ & _ & Hb). now apply Hsame.
Qed.

Lemma delivered_cons w e es :
  delivered_frames (snd (run_events w (e :: es)))
  = match snd (step w e) with
    | obs_next (delivered f) => [f]
    | _ => []
    end ++ delivered_frames (snd (run_events (fst (step w e)) es)).
Proof.
  rewrite SystemSpec.run_events_cons. cbn [snd delivered_frames].
  destruct (snd (step w e)) as [| | | [] |]; reflexivity.
Qed.

Lemma deliveries_rise es : forall w lo,
  SystemSpec.room (length es) w ->
  SystemSpec.numbered w ->
  lo < frame_count_ (impl w) ->
  increasing lo (pending w) ->
  increasing lo (delivered_frames (snd (run_events w es))).
Proof.
  induction es as [| e es IH]; intros w lo Hroom Hn Hlo Hinc; [exact I |].
  cbn [length] in Hroom.
  destruct (SystemSpec.count_step e Hroom) as (Hroom' & Hle & _).
  pose proof (SystemSpec.numbered_step e Hroom Hn) as Hn'.
  rewrite delivered_cons.
  destruct (pending_change e Hroom Hn) as [(head & Ho & Hp) | (Ho & Hkeep)].
  - rewrite Ho. cbn [app]. rewrite Hp in Hinc. destruct Hinc as [H1 H2].
    split; [exact H1 |].
    apply IH; [exact Hroom' | exact Hn' | | exact H2].
    assert (frame_count head < frame_count_ (impl w))
      by (apply Hn; rewrite Hp; now left).
    lia.
  - assert (Hnone : match snd (step w e) with
                    | obs_next (delivered f) => [f]
                    | _ => []
                    end = []).
    { destruct (snd (step w e)) as [| | | [f | |] |]; try reflexivity.
      now contradiction (Ho f). }
    rewrite Hnone. cbn [app].
    apply IH; [exact Hroom' | exact Hn' | lia | now apply Hkeep].
Qed.

(** Over any run of a freshly constructed producer, the frames that
    [next_frame] takes from the buffer carry strictly rising sequence
    numbers: no frame is handed out twice and none is handed out after a
    frame the scheduler produced later, whatever seeks, flushes and loops
    happen in between. *)
Theorem deliveries_are_in_production_order
        format_desc pipeline start seek duration loop es :
  Z.of_nat (length es) <= Int.INT64_MAX ->
  increasing (-1)
    (delivered_frames
       (snd (run_events (initial format_desc pipeline start seek duration loop) es))).
Proof.
  intros Hlen.
  destruct (@SystemSpec.initial_numbered format_desc pipeline start seek duration
              loop (length es) Hlen) as [Hn Hroom].
  apply deliveries_rise; [exact Hroom | exact Hn | cbn; lia | exact I].
Qed.

(** Three samples arrive, a seek to 0 cuts in after the second frame was
    buffered, two more samples arrive; the clock takes what it can get. *)
Definition seek_in_the_middle : list event :=
  [ev_new_video_sample (mk_sample 1 0);
   ev_new_video_sample (mk_sample 2 40000000);
   ev_new_video_sample (mk_sample 3 80000000)]
  ++ repeat ev_run 8
  ++ [ev_prev_frame core.video_field.progressive;
      ev_next_frame core.video_field.progressive;
      ev_seek_store 0; ev_seek_flush;
      ev_run; ev_run; ev_run; ev_run;
      ev_new_video_sample (mk_sample 4 0);
      ev_new_video_sample (mk_sample 5 40000000)]
  ++ repeat ev_run 8
  ++ [ev_prev_frame core.video_field.progressive;
      ev_next_frame core.video_field.progressive;
      ev_next_frame core.video_field.progressive].

Lemma deliveries_are_in_production_order_witness :
  let obs := snd (run_events (initial (mk_format 25 40 1) true None None None None)
                             seek_in_the_middle) in
  map frame_count (delivered_frames obs) = [0; 2; 3]
  /\ increasing (-1) (delivered_frames obs).
Proof.
  intros obs. split; [reflexivity |].
  apply (@deliveries_are_in_production_order
           (mk_format 25 40 1) true None None None None seek_in_the_middle).
  vm_compute. discriminate.
Defined.

End Ordering.

(** * Further properties of the consumer *)

Unset Implicit Arguments.

Module EncoderSpec.

Import diagnostics Encoder.

(** *** The capture queue at any capacity *)

(** Room left in the capture queue. *)
Definition room (c : Consumer.gstreamer_consumer) : nat :=
  Z.to_nat (cbq.capacity (Consumer.frame_buffer_ c)
            - cbq.size (Consumer.frame_buffer_ c)).

Lemma send_effect field frame c :
  Consumer.exception_ c = None ->
  exists c',
    Consumer.send field frame c
    = inr (Consumer.make_ready_future (Consumer.is_running_ c), c')
    /\ Consumer.exception_ c' = None
    /\ Consumer.is_running_ c' = Consumer.is_running_ c
    /\ Consumer.aborting_ c' = Consumer.aborting_ c
    /\ cbq.capacity (Consumer.frame_buffer_ c')
       = cbq.capacity (Consumer.frame_buffer_ c)
    /\ Consumer.retained c' = Consumer.retained c ++ firstn (room c) [frame]
    /\ Consumer.dropped_frames c'
       = (Consumer.dropped_frames c + (1 - room c))%nat.
Proof.
  intros Hexc. unfold Consumer.send, cbq.try_push, room. rewrite Hexc.
  unfold cbq.size.
  destruct (Z.of_nat (length (cbq.items (Consumer.frame_buffer_ c)))
            <? cbq.capacity (Consumer.frame_buffer_ c)) eqn:E.
  - apply Z.ltb_lt in E. eexists. split; [reflexivity |].
    cbn. repeat split; auto.
    + destruct (Z.to_nat _) eqn:Hr; [lia |].
      cbn. now rewrite firstn_nil.
    + unfold Consumer.dropped_frames, tag_count. cbn.
      rewrite filter_app, length_app. cbn.
      destruct (Z.to_nat _) eqn:Hr; lia.
  - apply Z.ltb_ge in E. eexists. split; [reflexivity |].
    cbn. repeat split; auto.
    + replace (Z.to_nat _) with 0%nat by lia. cbn. now rewrite app_nil_r.
    + unfold Consumer.dropped_frames, tag_count. cbn.
      rewrite !filter_app, !length_app. cbn.
      replace (Z.to_nat _) with 0%nat by lia. lia.
Qed.

Lemma room_after_send field frame c c' fut :
  Consumer.exception_ c = None ->
  Consumer.send field frame c = inr (fut, c') ->
  room c' = (room c - 1)%nat.
Proof.
  intros Hexc Hs. unfold Consumer.send, cbq.try_push in Hs. rewrite Hexc in Hs.
  unfold room, cbq.size in *.
  destruct (Z.of_nat (length (cbq.items (Consumer.frame_buffer_ c)))
            <? cbq.capacity (Consumer.frame_buffer_ c)) eqn:E;
    injection Hs as _ <-; cbn.
  - apply Z.ltb_lt in E. rewrite length_app. cbn. lia.
  - apply Z.ltb_ge in E. lia.
Qed.

(** Consecutive [send] calls with no pop in between, on a consumer holding
    no exception and whatever its capacity: no call throws, the queue keeps
    what it held and takes the first frames sent, in order, up to its
    capacity, and every further frame is dropped with one "dropped-frame"
    tag. *)
Theorem sends_fill_the_queue_in_order field frames : forall c,
  Consumer.exception_ c = None ->
  exists c',
    Consumer.send_all field frames c = inr c'
    /\ Consumer.retained c' = Consumer.retained c ++ firstn (room c) frames
    /\ Consumer.dropped_frames c'
       = (Consumer.dropped_frames c + (length frames - room c))%nat
    /\ Consumer.exception_ c' = None.
Proof.
  induction frames as [| f rest IH]; intros c Hexc.
  - exists c. cbn. rewrite firstn_nil, app_nil_r. repeat split; auto.
  - destruct (send_effect field f c Hexc)
      as (c1 & Hs & He & _ & _ & _ & Hr & Hd).
    pose proof (room_after_send field f c c1 _ Hexc Hs) as Hroom.
    destruct (IH c1 He) as (c2 & Hs2 & Hr2 & Hd2 & He2).
    exists c2. cbn [Consumer.send_all]. rewrite Hs.
    split; [exact Hs2 |]. split; [| split; [| exact He2]].
    + rewrite Hr2, Hr, Hroom, <- app_assoc. f_equal.
      destruct (room c) as [| n]; cbn; [reflexivity |].
      now rewrite firstn_nil, Nat.sub_0_r.
    + rewrite Hd2, Hd, Hroom. cbn [length]. lia.
Qed.

Lemma sends_fill_the_queue_in_order_witness :
  exists c',
    Consumer.send_all core.video_field.progressive
                      (map Some [1; 2; 3]) (Consumer.create "out.mp4" "" false)
    = inr c'
    /\ Consumer.retained c' = map Some [1; 2; 3]
    /\ Consumer.dropped_frames c' = 0%nat.
Proof.
  destruct (sends_fill_the_queue_in_order core.video_field.progressive
              (map Some [1; 2; 3]) (Consumer.create "out.mp4" "" false) eq_refl)
    as (c' & Hs & Hr & Hd & _).
  exists c'. split; [exact Hs |]. split; [exact Hr | exact Hd].
Defined.

(** *** The encode thread *)

(** The calls the pump makes for [samples], the first one numbered [n]. *)
Fixpoint encoded (n : Z) (samples : list gst.GstSample) : list app_src_call :=
  match samples with
  | [] => []
  | s :: rest =>
      gst_app_src_push_sample s n :: gst_sample_unref s :: encoded (n + 1) rest
  end.

Lemma encoded_snoc samples s : forall n,
  encoded n (samples ++ [s])
  = encoded n samples
    ++ [gst_app_src_push_sample s (n + Z.of_nat (length samples));
        gst_sample_unref s].
Proof.
  induction samples as [| x rest IH]; intros n; cbn [app encoded length].
  - now rewrite Z.add_0_r.
  - rewrite IH. cbn [app].
    replace (n + 1 + Z.of_nat (length rest))
      with (n + Z.of_nat (S (length rest))) by lia.
    reflexivity.
Qed.

(** A frame other than the empty frame. *)
Definition present (frame : core.const_frame) : bool :=
  match frame with Some _ => true | None => false end.

(** The samples the loop obtains for [frames]: one for each frame that is
    not the empty frame and for which [make_gst_sample] returns a
    sample. *)
Definition converted (make : core.const_frame -> gst.GstSample)
           (frames : list core.const_frame) : list gst.GstSample :=
  filter (fun s => negb (gst.is_null s)) (map make (filter present frames)).

(** The frame an event puts into the queue: the frame of a [send] after
    which the queue is one longer. *)
Definition enqueued_by (e : encoder) (ev : event) : list core.const_frame :=
  match ev with
  | ev_send field frame =>
      if (length (Consumer.retained (consumer (send field frame e)))
          =? S (length (Consumer.retained (consumer e))))%nat
      then [frame]
      else []
  | ev_pump => []
  end.

(** The frames put into the queue while [evs] run from [e], in order. *)
Fixpoint enqueued (make : core.const_frame -> gst.GstSample) (e : encoder)
         (evs : list event) : list core.const_frame :=
  match evs with
  | [] => []
  | ev :: rest => enqueued_by e ev ++ enqueued make (step make e ev) rest
  end.

(** A pass of the loop that finds the thread in the loop, no abort
    requested and a frame in the queue. *)
Definition takes (e : encoder) (ev : event) : nat :=
  match ev with
  | ev_pump =>
      match thread e with
      | pumping =>
          if Consumer.aborting_ (consumer e) then 0%nat
          else match Consumer.retained (consumer e) with
               | [] => 0%nat
               | _ :: _ => 1%nat
               end
      | _ => 0%nat
      end
  | ev_send _ _ => 0%nat
  end.

(** The number of such passes while [evs] run from [e]. *)
Fixpoint passes (make : core.const_frame -> gst.GstSample) (e : encoder)
         (evs : list event) : nat :=
  match evs with
  | [] => 0%nat
  | ev :: rest => (takes e ev + passes make (step make e ev) rest)%nat
  end.

Lemma converted_snoc make frames frame :
  converted make (frames ++ [frame])
  = converted make frames
    ++ match frame with
       | Some _ => if gst.is_null (make frame) then [] else [make frame]
       | None => []
       end.
Proof.
  unfold converted. rewrite filter_app, map_app, filter_app.
  destruct frame as [img |]; cbn; [| reflexivity].
  now destruct (gst.is_null (make (Some img))).
Qed.

(** The thread pumps, or has left the loop after a successful start:
    [hist] is every frame that entered the queue, [p] the number of
    frames the loop has taken. *)
Definition on_track (make : core.const_frame -> gst.GstSample) (k : nat)
           (e : encoder) (hist : list core.const_frame) (p : nat) : Prop :=
  pipeline_ e = true
  /\ exists taken,
       hist = taken ++ Consumer.retained (consumer e)
       /\ length taken = p
       /\ Z.of_nat (length (converted make taken)) + Z.of_nat k
          <= Int.INT64_MAX
       /\ match thread e with
          | pumping =>
              src_calls e = encoded 0 (converted make taken)
              /\ frame_count e = Z.of_nat (length (converted make taken))
          | finished =>
              src_calls e
              = encoded 0 (converted make taken)
                ++ (if appsrc_ e then [gst_app_src_end_of_stream] else [])
          | not_started => False
          end.

Lemma send_keeps_thread field frame e :
  pipeline_ (send field frame e) = pipeline_ e
  /\ appsrc_ (send field frame e) = appsrc_ e
  /\ thread (send field frame e) = thread e
  /\ frame_count (send field frame e) = frame_count e
  /\ src_calls (send field frame e) = src_calls e.
Proof.
  unfold send. destruct (Consumer.send field frame (consumer e)) as [? | [? ?]];
    repeat split.
Qed.

(** What a [send] does to the queue, seen from the queue alone. *)
Lemma send_enqueues field frame e :
  Consumer.retained (consumer (send field frame e))
  = Consumer.retained (consumer e) ++ enqueued_by e (ev_send field frame).
Proof.
  unfold enqueued_by.
  unfold send at 1 2.
  destruct (Consumer.exception_ (consumer e)) as [ex |] eqn:Hexc.
  - unfold Consumer.send. rewrite Hexc.
    replace (length (Consumer.retained (consumer e))
             =? S (length (Consumer.retained (consumer e))))%nat
      with false by (symmetry; apply Nat.eqb_neq; lia).
    now rewrite app_nil_r.
  - destruct (send_effect field frame (consumer e) Hexc)
      as (c' & Hs & _ & _ & _ & _ & Hr & _).
    rewrite Hs. cbn [consumer with_consumer]. rewrite Hr.
    destruct (room (consumer e)) as [| n]; cbn [firstn].
    + rewrite app_nil_r.
      replace (length (Consumer.retained (consumer e))
               =? S (length (Consumer.retained (consumer e))))%nat
        with false by (symmetry; apply Nat.eqb_neq; lia).
      now rewrite app_nil_r.
    + rewrite firstn_nil, length_app. cbn [length].
      replace (length (Consumer.retained (consumer e)) + 1
               =? S (length (Consumer.retained (consumer e))))%nat
        with true by (symmetry; apply Nat.eqb_eq; lia).
      reflexivity.
Qed.

Lemma on_track_step make k e ev hist p :
  on_track make (S k) e hist p ->
  on_track make k (step make e ev) (hist ++ enqueued_by e ev)
           (p + takes e ev).
Proof.
  intros (Hp & taken & Hhist & Hlen & Hbound & Hcalls).
  destruct ev as [field frame |]; cbn [step].
  - destruct (send_keeps_thread field frame e) as (H1 & H2 & H3 & H4 & H5).
    split; [now rewrite H1 |]. exists taken.
    rewrite (send_enqueues field frame e), app_assoc, <- Hhist.
    split; [reflexivity |]. split; [cbn [takes]; lia |]. split; [lia |].
    now rewrite H2, H3, H4, H5.
  - cbn [enqueued_by takes]. rewrite app_nil_r.
    unfold pump, leave, Consumer.retained in *.
    destruct (thread e) eqn:Ht; [contradiction | |].
    + destruct Hcalls as [Hc Hn].
      destruct (Consumer.aborting_ (consumer e)).
      { cbn. split; [exact Hp |]. exists taken.
        split; [exact Hhist |]. split; [lia |]. split; [lia |].
        now rewrite Hc, Hp. }
      destruct (cbq.items (Consumer.frame_buffer_ (consumer e)))
        as [| [img |] rest] eqn:Hq.
      * unfold on_track, Consumer.retained. rewrite Ht, Hq.
        split; [exact Hp |]. exists taken. repeat split; auto; lia.
      * assert (Hh : hist = (taken ++ [Some img]) ++ rest)
          by (now rewrite <- app_assoc).
        pose proof (converted_snoc make taken (Some img)) as Hsnoc.
        destruct (gst.is_null (make (Some img))) eqn:Hnull;
          unfold on_track;
          cbn [thread src_calls frame_count appsrc_ pipeline_ with_consumer
               consumer Consumer.frame_buffer_ Consumer.with_buffer cbq.items].
        -- rewrite app_nil_r in Hsnoc.
           split; [exact Hp |]. exists (taken ++ [Some img]).
           unfold core.const_frame in *.
           rewrite Hsnoc, length_app. cbn [length].
           split; [exact Hh |]. split; [lia |]. split; [lia |].
           rewrite Ht. now split.
        -- split; [exact Hp |]. exists (taken ++ [Some img]).
           unfold core.const_frame in *.
           rewrite Hsnoc, !length_app. cbn [length].
           split; [exact Hh |]. split; [lia |]. split; [lia |].
           rewrite encoded_snoc, Hc, Hn. split; [reflexivity |].
           rewrite Facts.wrap_int64_id
             by (unfold Int.in_int64, Int.INT64_MIN, Int.INT64_MAX in *; lia).
           lia.
      * assert (Hh : hist = (taken ++ [None]) ++ rest)
          by (now rewrite <- app_assoc).
        pose proof (converted_snoc make taken None) as Hsnoc.
        rewrite app_nil_r in Hsnoc.
        cbn. split; [exact Hp |]. exists (taken ++ [None]).
        unfold core.const_frame in *.
        rewrite Hsnoc, length_app. cbn [length].
        split; [exact Hh |]. split; [lia |]. split; [lia |].
        now rewrite Hc, Hp.
    + split; [exact Hp |]. exists taken. rewrite Ht.
      repeat split; auto; lia.
Qed.

Lemma on_track_run make evs : forall k e hist p,
  on_track make (length evs + k) e hist p ->
  on_track make k (run make e evs) (hist ++ enqueued make e evs)
           (p + passes make e evs).
Proof.
  induction evs as [| ev evs IH]; intros k e hist p H.
  - cbn [enqueued passes run fold_left]. now rewrite app_nil_r, Nat.add_0_r.
  - change (run make e (ev :: evs)) with (run make (step make e ev) evs).
    cbn [enqueued passes]. rewrite app_assoc, Nat.add_assoc.
    apply IH. now apply on_track_step.
Qed.

Lemma run_keeps_appsrc make evs : forall e,
  appsrc_ (run make e evs) = appsrc_ e.
Proof.
  induction evs as [| ev evs IH]; intros e; [reflexivity |].
  change (appsrc_ (run make (step make e ev) evs) = appsrc_ e).
  rewrite (IH (step make e ev)).
  destruct ev as [field frame |]; cbn [step].
  - apply send_keeps_thread.
  - unfold pump, leave. destruct (thread e); try reflexivity.
    destruct (Consumer.aborting_ (consumer e)); [reflexivity |].
    destruct (cbq.items _) as [| [img |] rest]; try reflexivity.
    destruct (gst.is_null (make (Some img))); reflexivity.
Qed.

Lemma firstn_length_app {A : Type} (a b : list A) :
  firstn (length a) (a ++ b) = a.
Proof.
  rewrite firstn_app, firstn_all, Nat.sub_diag. cbn. apply app_nil_r.
Qed.

(** After a successful start and any interleaving of [send] calls and
    passes of the loop, let [entered] be the frames that were in the queue
    at the start followed by the frames the [send] calls have put into it,
    and [taken] its first frames, as many as there were passes that found
    the thread in the loop, no abort requested and a frame in the queue.
    Then the queue holds exactly the rest of [entered]: the loop takes the
    frames in the order they entered, one per such pass.  The calls made
    on the encode pipeline are exactly, for the frames taken, in that
    order and leaving out the empty frame and the frames for which
    [make_gst_sample] gave no sample: a push of the frame's sample
    numbered 0, 1, 2, ... without a gap, each followed at once by the
    unref of that sample; then, once the thread has left its loop and if
    there is an [appsrc_], one end-of-stream.  While the thread is in the
    loop its frame counter is the number of pushes made. *)
Theorem pushes_are_numbered_and_released make channel_index appsrc c e0 evs :
  initialize channel_index (playing appsrc) (fresh c) = inr e0 ->
  Z.of_nat (length evs) <= Int.INT64_MAX ->
  let entered := Consumer.retained c ++ enqueued make e0 evs in
  let taken := firstn (passes make e0 evs) entered in
  entered = taken ++ Consumer.retained (consumer (run make e0 evs))
  /\ src_calls (run make e0 evs)
     = encoded 0 (converted make taken)
       ++ match thread (run make e0 evs) with
          | finished => if appsrc then [gst_app_src_end_of_stream] else []
          | _ => []
          end
  /\ (thread (run make e0 evs) = pumping ->
      frame_count (run make e0 evs)
      = Z.of_nat (length (converted make taken))).
Proof.
  intros Hinit Hlen. cbn in Hinit. injection Hinit as <-. cbv zeta.
  match goal with |- context [run make ?e evs] => set (e0 := e) end.
  assert (H0 : on_track make (length evs + 0) e0 (Consumer.retained c) 0).
  { split; [reflexivity |]. exists []. cbn. repeat split; auto; lia. }
  assert (Happ : appsrc_ (run make e0 evs) = appsrc)
    by (now rewrite run_keeps_appsrc).
  destruct (on_track_run make evs 0 e0 _ _ H0)
    as (_ & taken & Hhist & Hp & _ & Hc).
  cbn [Nat.add] in Hp. rewrite <- Hp, Hhist, firstn_length_app.
  split; [reflexivity |].
  destruct (thread (run make e0 evs)).
  - contradiction.
  - destruct Hc as [Hc Hn]. rewrite Hc, app_nil_r. split; [reflexivity |].
    intros _. exact Hn.
  - rewrite Hc, Happ. split; [reflexivity | discriminate].
Qed.

(** A sample named after the image of the frame; frame 2 cannot be
    converted. *)
Definition sample_of (frame : core.const_frame) : gst.GstSample :=
  match frame with
  | Some 2 => gst.nullptr
  | Some n => gst.mk_sample n 0
  | None => gst.nullptr
  end.

Definition three_frames : list event :=
  [ev_send core.video_field.progressive (Some 1); ev_pump;
   ev_send core.video_field.progressive (Some 2); ev_pump;
   ev_send core.video_field.progressive (Some 3); ev_pump].

Definition started : encoder :=
  mk (set_is_running_ true
        (Consumer.with_buffer
           (cbq.mk [] 1)
           (Consumer.graph_ (Consumer.create "out.mp4" "" true) ++ [set_text])
           (set_channel_index_ 1 (Consumer.create "out.mp4" "" true))))
     true true pumping 0 [].

(** Four frames are sent to a realtime consumer and the loop passes
    after the first, the second and the fourth: frame 3 finds the queue
    full and never enters it, frame 2 gives no sample. *)
Definition four_frames : list event :=
  [ev_send core.video_field.progressive (Some 1); ev_pump;
   ev_send core.video_field.progressive (Some 2);
   ev_send core.video_field.progressive (Some 3); ev_pump;
   ev_send core.video_field.progressive (Some 4); ev_pump].

Lemma pushes_are_numbered_and_released_witness :
  enqueued sample_of started four_frames = [Some 1; Some 2; Some 4]
  /\ passes sample_of started four_frames = 3%nat
  /\ Consumer.retained (consumer (run sample_of started four_frames)) = []
  /\ src_calls (run sample_of started four_frames)
     = [gst_app_src_push_sample (gst.mk_sample 1 0) 0;
        gst_sample_unref (gst.mk_sample 1 0);
        gst_app_src_push_sample (gst.mk_sample 4 0) 1;
        gst_sample_unref (gst.mk_sample 4 0)].
Proof.
  destruct (pushes_are_numbered_and_released
              sample_of 1 true (Consumer.create "out.mp4" "" true)
              started four_frames eq_refl)
    as (_ & Hc & _); [vm_compute; discriminate |].
  split; [reflexivity |]. split; [reflexivity |]. split; [reflexivity |].
  rewrite Hc. reflexivity.
Defined.

(** *** Leaving the loop *)

Definition queue_full (e : encoder) : Prop :=
  cbq.capacity (Consumer.frame_buffer_ (consumer e))
  <= cbq.size (Consumer.frame_buffer_ (consumer e)).

(** Once the thread has left its loop, a pass of the pump is no pass. *)
Lemma finished_step make e ev :
  thread e = finished ->
  thread (step make e ev) = finished
  /\ src_calls (step make e ev) = src_calls e
  /\ (queue_full e -> queue_full (step make e ev)).
Proof.
  intros Ht. destruct ev as [field frame |]; cbn [step].
  - destruct (send_keeps_thread field frame e) as (_ & _ & H3 & _ & H5).
    split; [now rewrite H3 |]. split; [exact H5 |].
    unfold queue_full, send, Consumer.send, cbq.try_push. intros Hfull.
    destruct (Consumer.exception_ (consumer e)); [exact Hfull |].
    destruct (cbq.size (Consumer.frame_buffer_ (consumer e))
              <? cbq.capacity (Consumer.frame_buffer_ (consumer e))) eqn:E;
      [apply Z.ltb_lt in E; lia | exact Hfull].
  - unfold pump. rewrite Ht. now repeat split.
Qed.

Lemma finished_run make evs : forall e,
  thread e = finished ->
  thread (run make e evs) = finished
  /\ src_calls (run make e evs) = src_calls e
  /\ (queue_full e -> queue_full (run make e evs)).
Proof.
  induction evs as [| ev evs IH]; intros e Ht; [now repeat split |].
  destruct (finished_step make e ev Ht) as (H1 & H2 & H3).
  destruct (IH (step make e ev) H1) as (G1 & G2 & G3).
  change (run make e (ev :: evs)) with (run make (step make e ev) evs).
  split; [exact G1 |]. split; [now rewrite G2 |]. intros H. now apply G3, H3.
Qed.

(** [send] passes an empty frame on like any other, and the pump takes an
    empty frame as its signal to stop.  So when the production clock sends
    an empty frame to a pumping consumer with an empty queue, the next pass
    of the pump ends the encode thread: it signals end-of-stream if there
    are a pipeline and an [appsrc_], and clears the running flag.  From then
    on nothing is encoded, whatever is sent. *)
Theorem empty_frame_stops_the_encoder make field e :
  thread e = pumping ->
  Consumer.aborting_ (consumer e) = false ->
  Consumer.exception_ (consumer e) = None ->
  Consumer.retained (consumer e) = [] ->
  1 <= cbq.capacity (Consumer.frame_buffer_ (consumer e)) ->
  let e1 := pump make (send field None e) in
  thread e1 = finished
  /\ Consumer.is_running_ (consumer e1) = false
  /\ Consumer.retained (consumer e1) = []
  /\ src_calls e1
     = src_calls e
       ++ (if pipeline_ e && appsrc_ e then [gst_app_src_end_of_stream] else [])
  /\ forall evs,
       src_calls (run make e1 evs) = src_calls e1
       /\ thread (run make e1 evs) = finished.
Proof.
  intros Ht Hab Hexc Hempty Hcap e1.
  assert (He1 : e1 = leave (with_consumer
                              (Consumer.with_buffer
                                 (cbq.mk [] (cbq.capacity
                                               (Consumer.frame_buffer_ (consumer e))))
                                 (Consumer.graph_ (consumer e) ++ [set_value "input"])
                                 (consumer e)) e)).
  { unfold e1, send, Consumer.send, cbq.try_push, cbq.size.
    unfold Consumer.retained in Hempty. rewrite Hexc, Hempty. cbn [length].
    assert (Hlt : (Z.of_nat 0 <? cbq.capacity (Consumer.frame_buffer_ (consumer e)))
                  = true) by (apply Z.ltb_lt; cbn; lia).
    rewrite Hlt. unfold pump. cbn. rewrite Ht, Hab. reflexivity. }
  assert (Hfin : thread e1 = finished) by (rewrite He1; reflexivity).
  split; [exact Hfin |]. rewrite He1 at 1 2 3.
  split; [reflexivity |]. split; [reflexivity |]. split; [reflexivity |].
  intros evs. destruct (finished_run make evs e1 Hfin) as (H1 & H2 & _).
  now split.
Qed.

Lemma empty_frame_stops_the_encoder_witness :
  let e1 := pump sample_of (send core.video_field.progressive None started) in
  thread e1 = finished
  /\ src_calls e1 = [gst_app_src_end_of_stream]
  /\ src_calls (run sample_of e1 three_frames) = [gst_app_src_end_of_stream].
Proof.
  intros e1. subst e1.
  destruct (empty_frame_stops_the_encoder
              sample_of core.video_field.progressive started)
    as (Hfin & _ & _ & Hcalls & Hafter);
    [reflexivity | reflexivity | reflexivity | reflexivity | cbn; lia |].
  split; [exact Hfin |]. split; [exact Hcalls |].
  destruct (Hafter three_frames) as [H _]. rewrite H. exact Hcalls.
Defined.

(** When the destructor has stored [aborting_], the next pass of the pump
    leaves the loop without popping: the frames still queued are not
    encoded and stay in the queue.  If the queue is full at that moment, it
    stays full for ever after, so the destructor's own blocking push of the
    empty frame can never take place. *)
Theorem destruction_abandons_queued_frames make e :
  thread e = pumping ->
  let e1 := pump make (destroy_begin e) in
  thread e1 = finished
  /\ Consumer.retained (consumer e1) = Consumer.retained (consumer e)
  /\ src_calls e1
     = src_calls e
       ++ (if pipeline_ e && appsrc_ e then [gst_app_src_end_of_stream] else [])
  /\ (queue_full e ->
      forall evs, destroy_push (run make e1 evs) = None).
Proof.
  intros Ht e1.
  assert (He1 : e1 = leave (destroy_begin e)).
  { unfold e1, pump, destroy_begin. cbn. now rewrite Ht. }
  assert (Hfin : thread e1 = finished) by (rewrite He1; reflexivity).
  split; [exact Hfin |]. rewrite He1 at 1 2.
  split; [reflexivity |]. split; [reflexivity |].
  intros Hfull evs.
  destruct (finished_run make evs e1 Hfin) as (H1 & _ & H3).
  assert (Hfull1 : queue_full e1) by (rewrite He1; exact Hfull).
  specialize (H3 Hfull1). unfold destroy_push. rewrite H1.
  unfold queue_full in H3.
  destruct (cbq.size _ <? cbq.capacity _) eqn:E; [| reflexivity].
  apply Z.ltb_lt in E. lia.
Qed.

(** A realtime consumer that holds one frame when it is destroyed. *)
Definition loaded : encoder :=
  send core.video_field.progressive (Some 1) started.

Lemma destruction_abandons_queued_frames_witness :
  let e1 := pump sample_of (destroy_begin loaded) in
  Consumer.retained (consumer e1) = [Some 1]
  /\ src_calls e1 = [gst_app_src_end_of_stream]
  /\ destroy_push (run sample_of e1 [ev_pump; ev_pump]) = None.
Proof.
  intros e1. subst e1.
  destruct (destruction_abandons_queued_frames sample_of loaded eq_refl)
    as (_ & Hq & Hcalls & Hblocked).
  split; [exact Hq |]. split; [exact Hcalls |].
  apply Hblocked. unfold queue_full. cbn. lia.
Defined.

(** *** The factory *)

Definition gs_command (params : list string) : bool :=
  text.iequals (ConsumerFactory.param 0 params) "GSADD"
  || text.iequals (ConsumerFactory.param 0 params) "GSFILE".

(** A consumer that [create_consumer] builds starts with an empty queue and
    no stored exception, and is realtime, with a queue of capacity 1,
    exactly when its mode word is STREAM in any letter case (the first
    parameter, or the second one after GSADD or GSFILE); otherwise its
    queue has capacity 64. *)
Theorem created_consumer_is_realtime_for_stream params c :
  ConsumerFactory.create_consumer params = Some c ->
  Consumer.retained c = []
  /\ Consumer.exception_ c = None
  /\ cbq.capacity (Consumer.frame_buffer_ c)
     = (if Consumer.realtime_ c then 1 else 64)
  /\ (Consumer.realtime_ c = true <->
      (gs_command params = false
       /\ text.iequals (ConsumerFactory.param 0 params) "STREAM" = true)
      \/ (gs_command params = true
          /\ text.iequals (ConsumerFactory.param 1 params) "STREAM" = true)).
Proof.
  unfold ConsumerFactory.create_consumer.
  destruct params as [| p0 rest0]; [discriminate |].
  fold (gs_command (p0 :: rest0)).
  destruct (gs_command (p0 :: rest0)) eqn:Hgs.
  - destruct (length (p0 :: rest0) <? 3)%nat; [discriminate |].
    destruct (text.iequals (ConsumerFactory.param 1 (p0 :: rest0)) "STREAM")
      eqn:Hs.
    + cbn [negb andb]. intros H. injection H as <-. cbn.
      repeat split; auto.
    + destruct (text.iequals (ConsumerFactory.param 1 (p0 :: rest0)) "FILE");
        [| discriminate].
      cbn [negb andb]. intros H. injection H as <-. cbn.
      repeat split; try discriminate.
      intros [[H _] | [_ H]]; discriminate.
  - destruct ((2 <=? length (p0 :: rest0))%nat
              && (text.iequals (ConsumerFactory.param 0 (p0 :: rest0)) "STREAM"
                  || text.iequals (ConsumerFactory.param 0 (p0 :: rest0)) "FILE"));
      [| discriminate].
    intros H. injection H as <-. cbn [Consumer.create Consumer.retained
      Consumer.exception_ Consumer.frame_buffer_ Consumer.realtime_
      cbq.items cbq.capacity cbq.set_capacity cbq.empty].
    split; [reflexivity |]. split; [reflexivity |]. split; [reflexivity |].
    split.
    + intros H. left. now split.
    + intros [[_ H] | [H _]]; [exact H | discriminate].
Qed.

Lemma created_consumer_is_realtime_for_stream_witness :
  exists c,
    ConsumerFactory.create_consumer
      ["GSADD"; "stream"; "rtmp://host/live"; "-codec:v"; "x264"]%string
    = Some c
    /\ Consumer.args_ c = "-codec:v x264"%string
    /\ cbq.capacity (Consumer.frame_buffer_ c) = 1.
Proof.
  eexists. split; [reflexivity |]. split; [reflexivity |].
  match goal with |- cbq.capacity (Consumer.frame_buffer_ ?c) = 1 =>
    destruct (created_consumer_is_realtime_for_stream
                ["GSADD"; "stream"; "rtmp://host/live"; "-codec:v"; "x264"]%string
                c eq_refl) as (_ & _ & Hcap & _)
  end.
  exact Hcap.
Defined.

End EncoderSpec.

(** * Properties of the producer's control calls *)

Module WrapperSpec.

Import Producer Wrapper.

Section Casts.

Variable lexical_cast_int64 : string -> option Z.
Variable lexical_cast_bool : string -> option bool.

Lemma iequals_meet x : forall a b,
  text.iequals x a = true -> text.iequals x b = true -> text.iequals a b = true.
Proof.
  induction x as [| c x IH]; intros [| ca a] [| cb b]; cbn; try discriminate;
    try reflexivity.
  intros Ha Hb. apply andb_true_iff in Ha as [Ha1 Ha2].
  apply andb_true_iff in Hb as [Hb1 Hb2].
  apply Ascii.eqb_eq in Ha1, Hb1. rewrite <- Ha1, <- Hb1, Ascii.eqb_refl.
  now apply IH.
Qed.

Lemma iequals_apart x a b :
  text.iequals a b = false -> text.iequals x a = true -> text.iequals x b = false.
Proof.
  intros Hab Ha. destruct (text.iequals x b) eqn:Hb; [| reflexivity].
  now rewrite (iequals_meet x a b Ha Hb) in Hab.
Qed.

(** The command words [call] knows. *)
Definition known (cmd : string) : bool :=
  text.iequals cmd "loop" || text.iequals cmd "in" || text.iequals cmd "start"
  || text.iequals cmd "out" || text.iequals cmd "length"
  || text.iequals cmd "seek".

(** [call] with no parameter at all throws [out_of_range]; with a command
    word it does not know, whatever follows, it throws [invalid_argument];
    and so does SEEK without a value or with an empty one, whereas the
    other commands without a value are queries that return the current
    setting and change nothing. *)
Theorem call_without_value cmd s :
  call lexical_cast_int64 lexical_cast_bool [] s = inl out_of_range
  /\ (known cmd = false ->
      forall rest,
        call lexical_cast_int64 lexical_cast_bool (cmd :: rest) s
        = inl invalid_argument)
  /\ (text.iequals cmd "seek" = true ->
      call lexical_cast_int64 lexical_cast_bool [cmd] s = inl invalid_argument
      /\ call lexical_cast_int64 lexical_cast_bool [cmd; EmptyString] s
         = inl invalid_argument)
  /\ (text.iequals cmd "loop" = true ->
      call lexical_cast_int64 lexical_cast_bool [cmd] s
      = inr (Z.b2z (loop_ s), s))
  /\ (text.iequals cmd "in" = true \/ text.iequals cmd "start" = true ->
      call lexical_cast_int64 lexical_cast_bool [cmd] s = inr (start_ s, s))
  /\ (text.iequals cmd "length" = true ->
      call lexical_cast_int64 lexical_cast_bool [cmd] s
      = inr (get_duration s, s))
  /\ (text.iequals cmd "out" = true ->
      call lexical_cast_int64 lexical_cast_bool [cmd] s
      = inr (Int.wrap_int64 (start_ s + get_duration s), s)).
Proof.
  split; [reflexivity |].
  split.
  { unfold known. intros Hk rest.
    repeat (apply orb_false_iff in Hk; destruct Hk as [Hk ?]).
    unfold call. rewrite Hk. cbn [orb].
    repeat match goal with H : text.iequals cmd _ = false |- _ =>
             rewrite H; clear H end.
    reflexivity. }
  split.
  { intros Hseek.
    assert (H1 : text.iequals cmd "loop" = false)
      by (now apply (iequals_apart cmd "seek" "loop")).
    assert (H2 : text.iequals cmd "in" = false)
      by (now apply (iequals_apart cmd "seek" "in")).
    assert (H3 : text.iequals cmd "start" = false)
      by (now apply (iequals_apart cmd "seek" "start")).
    assert (H4 : text.iequals cmd "out" = false)
      by (now apply (iequals_apart cmd "seek" "out")).
    assert (H5 : text.iequals cmd "length" = false)
      by (now apply (iequals_apart cmd "seek" "length")).
    unfold call. rewrite H1, H2, H3, H4, H5, Hseek. split; reflexivity. }
  split.
  { intros H. unfold call. rewrite H. reflexivity. }
  split.
  { intros H.
    assert (H1 : text.iequals cmd "loop" = false).
    { destruct H as [H | H];
        [now apply (iequals_apart cmd "in" "loop")
        | now apply (iequals_apart cmd "start" "loop")]. }
    unfold call. rewrite H1.
    destruct H as [H | H]; rewrite H; [| rewrite orb_true_r]; reflexivity. }
  split.
  { intros H.
    assert (H1 : text.iequals cmd "loop" = false)
      by (now apply (iequals_apart cmd "length" "loop")).
    assert (H2 : text.iequals cmd "in" = false)
      by (now apply (iequals_apart cmd "length" "in")).
    assert (H3 : text.iequals cmd "start" = false)
      by (now apply (iequals_apart cmd "length" "start")).
    assert (H4 : text.iequals cmd "out" = false)
      by (now apply (iequals_apart cmd "length" "out")).
    unfold call. rewrite H1, H2, H3, H4, H. reflexivity. }
  intros H.
  assert (H1 : text.iequals cmd "loop" = false)
    by (now apply (iequals_apart cmd "out" "loop")).
  assert (H2 : text.iequals cmd "in" = false)
    by (now apply (iequals_apart cmd "out" "in")).
  assert (H3 : text.iequals cmd "start" = false)
    by (now apply (iequals_apart cmd "out" "start")).
  unfold call. rewrite H1, H2, H3, H. reflexivity.
Qed.

Ltac eval_words :=
  repeat match goal with
         | |- context [text.iequals ?a ?b] =>
             let v := eval vm_compute in (text.iequals a b) in
             change (text.iequals a b) with v
         end.

Lemma seek_word_is_no_other cmd :
  text.iequals cmd "seek" = true ->
  text.iequals cmd "loop" = false
  /\ text.iequals cmd "in" || text.iequals cmd "start" = false
  /\ text.iequals cmd "out" = false
  /\ text.iequals cmd "length" = false.
Proof.
  intros H.
  rewrite (iequals_apart cmd "seek" "loop"), (iequals_apart cmd "seek" "in"),
    (iequals_apart cmd "seek" "start"), (iequals_apart cmd "seek" "out"),
    (iequals_apart cmd "seek" "length"); auto.
Qed.

(** A SEEK command that returns has stored the number it returns as the
    seek request and emptied the playout buffer. *)
Lemma call_seek_stores cmd rest s t s' :
  text.iequals cmd "seek" = true ->
  call lexical_cast_int64 lexical_cast_bool (cmd :: rest) s = inr (t, s') ->
  s' = seek t s.
Proof.
  intros Hseek.
  destruct (seek_word_is_no_other cmd Hseek) as (H1 & H2 & H3 & H4).
  unfold call. rewrite H1, H2, H3, H4, Hseek. cbn [andb].
  destruct (negb (text.empty (nth 1 (cmd :: rest) EmptyString)));
    [| discriminate].
  destruct (seek_target lexical_cast_int64 _ s) as [target |]; [| discriminate].
  destruct (2 <? length (cmd :: rest))%nat.
  - destruct (lexical_cast_int64 _) as [offset |]; [| discriminate].
    intros H. injection H as <- <-. reflexivity.
  - intros H. injection H as <- <-. reflexivity.
Qed.

(** A SEEK command reaches the input exactly when the time it computes is
    not negative.  In both cases the command empties the playout buffer and
    stores the time as the request.  When the scheduler next passes the top
    of its loop, a non-negative time is forwarded to the input with a
    flush and a flush of the playout is marked; a negative time, such as
    the one SEEK REL with a negative offset computes near the beginning, is
    discarded: the input stays where it is and no flush is marked. *)
Theorem seek_command_reaches_input_unless_negative cmd rest s t s' r :
  text.iequals cmd "seek" = true ->
  call lexical_cast_int64 lexical_cast_bool (cmd :: rest) s = inr (t, s') ->
  buffer_ s' = []
  /\ seek_ s' = t
  /\ seek_ (fst (fst (run_seek s' r))) = -1
  /\ (0 <= t ->
      input_ (fst (fst (run_seek s' r))) = Input.seek t true (input_ s)
      /\ frame_flush_ (fst (fst (run_seek s' r))) = true
      /\ pc (snd (fst (run_seek s' r))) = at_seek)
  /\ (t < 0 ->
      input_ (fst (fst (run_seek s' r))) = input_ s
      /\ frame_flush_ (fst (fst (run_seek s' r))) = frame_flush_ s
      /\ pc (snd (fst (run_seek s' r))) = at_eof).
Proof.
  intros Hseek Hcall.
  rewrite (call_seek_stores cmd rest s t s' Hseek Hcall).
  unfold run_seek, seek, seek_flush, seek_store. cbn.
  destruct (0 <=? t) eqn:Ht; cbn;
    [apply Z.leb_le in Ht | apply Z.leb_gt in Ht]; repeat split; lia.
Qed.

(** The OUT point is kept as a length from the IN point in force when it
    is set.  Setting OUT to [b] returns [b] and stores [b - start_]; a later
    change of IN to [c] moves the OUT point along: it then reads
    [c + (b - start_)], with [start_] the IN point at the time OUT was
    set. *)
Theorem out_point_moves_with_in_point out_text in_text b c s :
  text.empty out_text = false ->
  text.empty in_text = false ->
  lexical_cast_int64 out_text = Some b ->
  lexical_cast_int64 in_text = Some c ->
  Int.in_int64 b ->
  Int.in_int64 (b - start_ s) ->
  b - start_ s <> Int.INT64_MAX ->
  Int.in_int64 (c + (b - start_ s)) ->
  exists s1 s2,
    call lexical_cast_int64 lexical_cast_bool ["out"; out_text]%string s
    = inr (b, s1)
    /\ duration_ s1 = b - start_ s
    /\ call lexical_cast_int64 lexical_cast_bool ["in"; in_text]%string s1
       = inr (c, s2)
    /\ call lexical_cast_int64 lexical_cast_bool ["out"]%string s2
       = inr (c + (b - start_ s), s2).
Proof.
  intros Ho Hi Hb Hc Hrb Hrd Hne Hrs.
  assert (Hneq : (b - start_ s =? Int.INT64_MAX) = false)
    by (now apply Z.eqb_neq).
  exists (set_duration (b - start_ s) s),
         (start c (set_duration (b - start_ s) s)).
  split; [| split; [reflexivity | split]].
  - unfold call. cbn [nth]. eval_words. cbn [orb andb].
    rewrite Ho, Hb. cbn [negb].
    unfold get_start, get_duration.
    rewrite (Facts.wrap_int64_id Hrd).
    cbn [start_ duration_ set_duration set_duration_ update_state graph_call
         set_graph_].
    rewrite Hneq. cbn [negb].
    rewrite Facts.wrap_int64_id
      by (replace (start_ s + (b - start_ s)) with b by lia; exact Hrb).
    f_equal. f_equal. lia.
  - unfold call. cbn [nth]. eval_words. cbn [orb andb].
    rewrite Hi, Hc. reflexivity.
  - unfold call. cbn [nth]. eval_words. cbn [orb andb text.empty negb].
    unfold get_start, get_duration.
    cbn [start_ duration_ set_duration set_duration_ update_state graph_call
         set_graph_ start set_start_].
    rewrite Hneq. cbn [negb].
    now rewrite (Facts.wrap_int64_id Hrs).
Qed.

End Casts.

(** Plain decimal text read as [boost::lexical_cast<int64_t>] reads it,
    and the two texts [boost::lexical_cast<bool>] accepts; the examples
    below use them as the casts. *)
Definition digit (c : ascii) : option Z :=
  let n := Z.of_nat (nat_of_ascii c) in
  if (48 <=? n) && (n <=? 57) then Some (n - 48) else None.

Fixpoint digits (acc : Z) (x : string) : option Z :=
  match x with
  | EmptyString => Some acc
  | String c rest =>
      match digit c with
      | Some d => digits (10 * acc + d) rest
      | None => None
      end
  end.

Definition decimal_int64 (x : string) : option Z :=
  let checked v :=
    if (Int.INT64_MIN <=? v) && (v <=? Int.INT64_MAX) then Some v else None in
  match x with
  | EmptyString => None
  | String "-" EmptyString => None
  | String "-" rest =>
      match digits 0 rest with Some v => checked (- v) | None => None end
  | _ => match digits 0 x with Some v => checked v | None => None end
  end.

Definition zero_or_one (x : string) : option bool :=
  if String.eqb x "1" then Some true
  else if String.eqb x "0" then Some false
  else None.

(** A producer playing from 50 with no trim at the end. *)
Definition from_fifty : Impl :=
  create (mk_format 25 40 1) true (Some 50) None None None.

Lemma call_without_value_witness :
  call decimal_int64 zero_or_one ["SEEK"]%string from_fifty
  = inl invalid_argument
  /\ call decimal_int64 zero_or_one ["Seek"; ""]%string from_fifty
     = inl invalid_argument
  /\ call decimal_int64 zero_or_one ["PLAY"; "1"]%string from_fifty
     = inl invalid_argument
  /\ call decimal_int64 zero_or_one ["IN"]%string from_fifty
     = inr (50, from_fifty).
Proof.
  split; [| split; [| split]].
  - destruct (call_without_value decimal_int64 zero_or_one "SEEK" from_fifty)
      as (_ & _ & H & _).
    apply H. reflexivity.
  - destruct (call_without_value decimal_int64 zero_or_one "Seek" from_fifty)
      as (_ & _ & H & _).
    apply H. reflexivity.
  - destruct (call_without_value decimal_int64 zero_or_one "PLAY" from_fifty)
      as (_ & H & _).
    apply H. reflexivity.
  - destruct (call_without_value decimal_int64 zero_or_one "IN" from_fifty)
      as (_ & _ & _ & _ & H & _).
    apply H. left. reflexivity.
Defined.

(** SEEK REL -500 on a producer that has shown nothing yet computes the
    time -500: the scheduler drops it. *)
Lemma seek_command_reaches_input_unless_negative_witness :
  let s' := seek (-500) from_fifty in
  call decimal_int64 zero_or_one ["seek"; "rel"; "-500"]%string from_fifty
  = inr (-500, s')
  /\ input_ (fst (fst (run_seek s' run_start))) = input_ from_fifty
  /\ pc (snd (fst (run_seek s' run_start))) = at_eof.
Proof.
  intros s'.
  assert (Hcall : call decimal_int64 zero_or_one
                       ["seek"; "rel"; "-500"]%string from_fifty
                  = inr (-500, s')) by reflexivity.
  destruct (seek_command_reaches_input_unless_negative
              decimal_int64 zero_or_one "seek" ["rel"; "-500"]%string
              from_fifty (-500) s' run_start eq_refl Hcall)
    as (_ & _ & _ & _ & Hneg).
  destruct Hneg as (Hi & _ & Hpc); [lia |].
  split; [exact Hcall |]. split; assumption.
Defined.

(** OUT 250 on a producer playing from 50 stores the length 200; after
    IN 100 the OUT point reads 300. *)
Lemma out_point_moves_with_in_point_witness :
  exists s1 s2,
    call decimal_int64 zero_or_one ["out"; "250"]%string from_fifty
    = inr (250, s1)
    /\ duration_ s1 = 200
    /\ call decimal_int64 zero_or_one ["in"; "100"]%string s1 = inr (100, s2)
    /\ call decimal_int64 zero_or_one ["out"]%string s2 = inr (300, s2).
Proof.
  apply (out_point_moves_with_in_point
           decimal_int64 zero_or_one "250" "100" 250 100 from_fifty);
    try reflexivity; unfold Int.in_int64, Int.INT64_MIN, Int.INT64_MAX;
    cbn; lia.
Defined.

(** ** The trim parameters of [create_producer] *)

Definition in_uint32 (p : option Z) : Prop :=
  match p with Some v => 0 <= v <= UINT32_MAX | None => True end.

(** The IN point in force: the IN parameter, else the SEEK parameter,
    else 0. *)
Definition in_point (seek_p in_p : option Z) : Z :=
  match in_p with
  | Some v => v
  | None => match seek_p with Some v => v | None => 0 end
  end.

Lemma in_point_range seek_p in_p :
  in_uint32 seek_p -> in_uint32 in_p ->
  0 <= in_point seek_p in_p <= UINT32_MAX.
Proof.
  unfold in_uint32, in_point, UINT32_MAX.
  destruct in_p, seek_p; intros; lia.
Qed.

Lemma clip_window_start seek_p in_p length_p out_p :
  match fst (fst (clip_window seek_p in_p length_p out_p)) with
  | Some v => v
  | None => 0
  end = in_point seek_p in_p.
Proof.
  unfold clip_window, in_point. cbn [fst].
  destruct in_p as [i |], seek_p as [k |]; cbn [negb];
    try (destruct (i =? 0) eqn:E); try (destruct (k =? 0) eqn:E);
    cbn [negb]; try reflexivity; apply Z.eqb_eq in E; lia.
Qed.

Lemma created_start format_desc pipeline seek_p in_p length_p out_p loop :
  start_ (created format_desc pipeline seek_p in_p length_p out_p loop)
  = in_point seek_p in_p.
Proof.
  unfold created.
  pose proof (clip_window_start seek_p in_p length_p out_p) as H.
  destruct (clip_window seek_p in_p length_p out_p) as [[st sk] du].
  exact H.
Qed.

Lemma created_duration format_desc pipeline seek_p in_p length_p out_p loop :
  duration_ (created format_desc pipeline seek_p in_p length_p out_p loop)
  = match snd (clip_window seek_p in_p length_p out_p) with
    | Some v => v
    | None => Int.INT64_MAX
    end.
Proof.
  unfold created.
  destruct (clip_window seek_p in_p length_p out_p) as [[st sk] du].
  reflexivity.
Qed.

(** With an OUT parameter the LENGTH parameter is ignored and the clip
    starts at the IN point.  An OUT point at or after the IN point is the
    end of the clip.  An OUT point before the IN point is not refused: the
    unsigned subtraction wraps and the clip ends 2^32 after the OUT
    point. *)
Theorem out_parameter_is_the_clip_end
        format_desc pipeline seek_p in_p length_p o loop :
  in_uint32 seek_p -> in_uint32 in_p -> 0 <= o < UINT32_MAX ->
  start_ (created format_desc pipeline seek_p in_p length_p (Some o) loop)
  = in_point seek_p in_p
  /\ (in_point seek_p in_p <= o ->
      clip_end (created format_desc pipeline seek_p in_p length_p (Some o) loop)
      = o)
  /\ (o < in_point seek_p in_p ->
      clip_end (created format_desc pipeline seek_p in_p length_p (Some o) loop)
      = o + 2 ^ 32).
Proof.
  intros Hs Hi Ho.
  pose proof (in_point_range seek_p in_p Hs Hi) as Hr.
  split; [apply created_start |].
  assert (Hd : duration_ (created format_desc pipeline seek_p in_p length_p
                                  (Some o) loop)
               = (o - in_point seek_p in_p) mod 2 ^ 32).
  { rewrite created_duration. unfold clip_window, in_point. cbn [snd].
    replace (o =? UINT32_MAX) with false
      by (symmetry; apply Z.eqb_neq; lia).
    cbn [negb]. unfold Int.wrap_uint32.
    destruct in_p, seek_p; reflexivity. }
  unfold clip_end. rewrite Hd, created_start.
  unfold UINT32_MAX in *.
  pose proof (Z.mod_pos_bound (o - in_point seek_p in_p) (2 ^ 32) ltac:(lia))
    as Hm.
  replace ((o - in_point seek_p in_p) mod 2 ^ 32 =? Int.INT64_MAX) with false
    by (symmetry; apply Z.eqb_neq; unfold Int.INT64_MAX; lia).
  cbn [negb].
  split; intros Hcmp.
  - rewrite Z.mod_small by lia.
    rewrite Facts.wrap_int64_id
      by (unfold Int.in_int64, Int.INT64_MIN, Int.INT64_MAX; lia).
    lia.
  - replace ((o - in_point seek_p in_p) mod 2 ^ 32)
      with (o - in_point seek_p in_p + 2 ^ 32)
      by (apply Z.mod_unique with (q := -1); lia).
    rewrite Facts.wrap_int64_id
      by (unfold Int.in_int64, Int.INT64_MIN, Int.INT64_MAX; lia).
    lia.
Qed.

Lemma out_parameter_is_the_clip_end_witness :
  clip_end (created (mk_format 25 40 1) true None (Some 100) (Some 7) (Some 400)
                    false) = 400
  /\ clip_end (created (mk_format 25 40 1) true None (Some 100) None (Some 40)
                       false) = 4294967336.
Proof.
  split.
  - apply (out_parameter_is_the_clip_end (mk_format 25 40 1) true None
             (Some 100) (Some 7) 400 false);
      unfold in_uint32, UINT32_MAX; cbn; try exact I; lia.
  - apply (out_parameter_is_the_clip_end (mk_format 25 40 1) true None
             (Some 100) None 40 false);
      unfold in_uint32, UINT32_MAX; cbn; try exact I; lia.
Defined.

Lemma length_window seek_p in_p l :
  in_uint32 seek_p -> in_uint32 in_p -> 0 <= l <= UINT32_MAX ->
  snd (clip_window seek_p in_p (Some l) None)
  = if in_point seek_p in_p + l <? UINT32_MAX then Some l else None.
Proof.
  intros Hs Hi Hl.
  pose proof (in_point_range seek_p in_p Hs Hi) as Hr.
  unfold clip_window. cbn [snd].
  change (match in_p with
          | Some v => v
          | None => match seek_p with Some v => v | None => 0 end
          end) with (in_point seek_p in_p).
  set (i := in_point seek_p in_p) in *.
  unfold Int.wrap_uint32, UINT32_MAX in *.
  rewrite (Z.mod_small (4294967295 - i)) by lia.
  destruct (i + l <? 4294967295) eqn:E.
  - apply Z.ltb_lt in E.
    replace (l <? 4294967295 - i) with true by (symmetry; apply Z.ltb_lt; lia).
    rewrite (Z.mod_small (l + i)) by lia.
    replace (l + i =? 4294967295) with false by (symmetry; apply Z.eqb_neq; lia).
    cbn [negb]. replace (l + i - i) with l by lia.
    now rewrite Z.mod_small by lia.
  - apply Z.ltb_ge in E.
    replace (l <? 4294967295 - i) with false by (symmetry; apply Z.ltb_ge; lia).
    reflexivity.
Qed.

(** Without an OUT parameter, a LENGTH that ends below 2^32 - 1 counted
    from the IN point is the duration of the clip, which then ends at
    IN + LENGTH.  A LENGTH that reaches 2^32 - 1 or beyond is dropped
    without notice: the producer is the one built with no LENGTH at all,
    whose clip has no end. *)
Theorem length_parameter_is_kept_or_dropped
        format_desc pipeline seek_p in_p l loop :
  in_uint32 seek_p -> in_uint32 in_p -> 0 <= l <= UINT32_MAX ->
  (in_point seek_p in_p + l < UINT32_MAX ->
   duration_ (created format_desc pipeline seek_p in_p (Some l) None loop) = l
   /\ clip_end (created format_desc pipeline seek_p in_p (Some l) None loop)
      = in_point seek_p in_p + l)
  /\ (UINT32_MAX <= in_point seek_p in_p + l ->
      created format_desc pipeline seek_p in_p (Some l) None loop
      = created format_desc pipeline seek_p in_p None None loop
      /\ clip_end (created format_desc pipeline seek_p in_p (Some l) None loop)
         = Int.INT64_MAX).
Proof.
  intros Hs Hi Hl.
  pose proof (in_point_range seek_p in_p Hs Hi) as Hr.
  pose proof (length_window seek_p in_p l Hs Hi Hl) as Hw.
  split; intros Hcmp.
  - assert (Hd : duration_ (created format_desc pipeline seek_p in_p (Some l)
                                    None loop) = l).
    { rewrite created_duration, Hw.
      now replace (in_point seek_p in_p + l <? UINT32_MAX) with true
        by (symmetry; apply Z.ltb_lt; lia). }
    split; [exact Hd |].
    unfold clip_end. rewrite Hd, created_start.
    unfold UINT32_MAX in *.
    replace (l =? Int.INT64_MAX) with false
      by (symmetry; apply Z.eqb_neq; unfold Int.INT64_MAX; lia).
    cbn [negb].
    apply Facts.wrap_int64_id.
    unfold Int.in_int64, Int.INT64_MIN, Int.INT64_MAX; lia.
  - assert (Hd : duration_ (created format_desc pipeline seek_p in_p (Some l)
                                    None loop) = Int.INT64_MAX).
    { rewrite created_duration, Hw.
      now replace (in_point seek_p in_p + l <? UINT32_MAX) with false
        by (symmetry; apply Z.ltb_ge; lia). }
    split.
    + assert (Hn : snd (clip_window seek_p in_p None None) = None).
      { rewrite <- (Z.add_0_r UINT32_MAX) in Hcmp.
        unfold clip_window. cbn [snd].
        unfold Int.wrap_uint32, UINT32_MAX in *.
        change (match in_p with
                | Some v => v
                | None => match seek_p with Some v => v | None => 0 end
                end) with (in_point seek_p in_p).
        rewrite (Z.mod_small (4294967295 - in_point seek_p in_p)) by lia.
        replace (4294967295 <? 4294967295 - in_point seek_p in_p) with false
          by (symmetry; apply Z.ltb_ge; lia).
        reflexivity. }
      assert (Hl' : snd (clip_window seek_p in_p (Some l) None) = None).
      { rewrite Hw.
        now replace (in_point seek_p in_p + l <? UINT32_MAX) with false
          by (symmetry; apply Z.ltb_ge; lia). }
      assert (Hf : fst (clip_window seek_p in_p (Some l) None)
                   = fst (clip_window seek_p in_p None None)) by reflexivity.
      unfold created.
      destruct (clip_window seek_p in_p (Some l) None) as [[st sk] du].
      destruct (clip_window seek_p in_p None None) as [[st' sk'] du'].
      cbn [fst snd] in *. injection Hf as -> ->. now rewrite Hn, Hl'.
    + unfold clip_end. rewrite Hd. reflexivity.
Qed.

Lemma length_parameter_is_kept_or_dropped_witness :
  clip_end (created (mk_format 25 40 1) true None (Some 100) (Some 250) None
                    false) = 350
  /\ clip_end (created (mk_format 25 40 1) true None (Some 100)
                       (Some 4294967200) None false) = Int.INT64_MAX.
Proof.
  split.
  - apply (length_parameter_is_kept_or_dropped (mk_format 25 40 1) true None
             (Some 100) 250 false);
      unfold in_uint32, UINT32_MAX; cbn; try exact I; lia.
  - apply (length_parameter_is_kept_or_dropped (mk_format 25 40 1) true None
             (Some 100) 4294967200 false);
      unfold in_uint32, UINT32_MAX; cbn; try exact I; lia.
Defined.

(** When only one of SEEK and IN is given, with a value above 0, it is
    both the IN point and the first seek: the scheduler's first segment
    sends the input there with a flush.  With neither, the clip starts at
    0 and the scheduler seeks nowhere. *)
Theorem seek_and_in_default_to_each_other
        format_desc pipeline v length_p out_p loop :
  0 < v <= UINT32_MAX ->
  (forall s,
      s = created format_desc pipeline (Some v) None length_p out_p loop
      \/ s = created format_desc pipeline None (Some v) length_p out_p loop ->
      start_ s = v /\ seek_ s = v
      /\ input_ (fst (fst (run_seek s run_start)))
         = Input.seek v true (input_ s))
  /\ start_ (created format_desc pipeline None None length_p out_p loop) = 0
  /\ seek_ (created format_desc pipeline None None length_p out_p loop) = -1.
Proof.
  intros Hv.
  assert (Hz : (v =? 0) = false) by (apply Z.eqb_neq; lia).
  assert (Hp : (0 <? v) = true) by (apply Z.ltb_lt; lia).
  assert (Hq : (0 <=? v) = true) by (apply Z.leb_le; lia).
  split; [| split; reflexivity].
  intros s [-> | ->];
    unfold created, clip_window, run_seek; cbn [negb];
    rewrite Hz; cbn [negb create start_ seek_ input_ set_seek_
                       set_frame_flush_ set_input_ fst snd];
    rewrite Hp, Hq; cbn [fst snd input_ set_frame_flush_ set_input_];
    repeat split; reflexivity.
Qed.

Lemma seek_and_in_default_to_each_other_witness :
  let s := created (mk_format 25 40 1) true None (Some 100) None None false in
  start_ s = 100 /\ seek_ s = 100
  /\ input_ (fst (fst (run_seek s run_start)))
     = Input.seek 100 true (input_ s).
Proof.
  intros s.
  destruct (seek_and_in_default_to_each_other (mk_format 25 40 1) true 100
              None None false) as [H _]; [unfold UINT32_MAX; lia |].
  apply H. right. reflexivity.
Defined.

(** [frame_number] is the shown time minus the IN point, converted to an
    unsigned 32-bit number: from the IN point on, and less than 2^32 past
    it, it is the distance from the IN point; before the IN point it is
    not 0 but wraps to 2^32 minus the distance.  A producer created with
    an IN point above 0 and asked before it has shown a frame is in the
    second case. *)
Theorem frame_number_wraps_before_in_point s :
  Int.in_int64 (time s - start_ s) ->
  (0 <= time s - start_ s < 2 ^ 32 -> frame_number s = time s - start_ s)
  /\ (- 2 ^ 32 <= time s - start_ s < 0 ->
      frame_number s = 2 ^ 32 - (start_ s - time s)).
Proof.
  intros Hr. unfold frame_number, get_start, Int.wrap_uint32.
  rewrite (Facts.wrap_int64_id Hr).
  split; intros H.
  - now apply Z.mod_small.
  - symmetry. apply Z.mod_unique with (q := -1); lia.
Qed.

Lemma frame_number_wraps_before_in_point_witness :
  frame_number (created (mk_format 25 40 1) true None (Some 100) None None
                        false) = 4294967196.
Proof.
  apply (frame_number_wraps_before_in_point
           (created (mk_format 25 40 1) true None (Some 100) None None false));
    unfold Int.in_int64, Int.INT64_MIN, Int.INT64_MAX; cbn; lia.
Defined.

End WrapperSpec.

(** * References to samples

    The calls the input and the producer make on the reference count of
    a sample, over any interleaving of the threads. *)

Module References.

Import gst Producer System.

Definition is_ref (a : Z) (c : call) : bool :=
  match c with gst_sample_ref s => addr s =? a | _ => false end.

(** Number of [gst_sample_ref] calls made on the sample at address [a]. *)
Definition refs (a : Z) (log : list call) : Z := counts (is_ref a) log.

(** Number of entries of [l] that are the sample at address [a]. *)
Definition occ (a : Z) (l : list GstSample) : Z :=
  Z.of_nat (length (filter (fun s => addr s =? a) l)).

Definition samples (f : Frame) : list GstSample := [video f; audio f].

(** Every call made so far, by the input and by the producer. *)
Definition log (w : world) : list call :=
  Input.calls_ (input_ (impl w)) ++ calls_ (impl w).

(** The places where the producer keeps a sample: the two queues of the
    input and the pending frames. *)
Definition held (a : Z) (w : world) : Z :=
  occ a (cbq.items (Input.video_buffer_ (input_ (impl w))))
  + occ a (cbq.items (Input.audio_buffer_ (input_ (impl w))))
  + occ a (flat_map samples (pending w)).

Lemma counts_app p l1 l2 : counts p (l1 ++ l2) = counts p l1 + counts p l2.
Proof. unfold counts. rewrite filter_app, length_app. lia. Qed.

Lemma counts_nonneg p l : 0 <= counts p l.
Proof. unfold counts. lia. Qed.

Lemma occ_app a l1 l2 : occ a (l1 ++ l2) = occ a l1 + occ a l2.
Proof. unfold occ. rewrite filter_app, length_app. lia. Qed.

Lemma occ_nonneg a l : 0 <= occ a l.
Proof. unfold occ. lia. Qed.

Lemma occ_cons a x l : occ a (x :: l) = occ a [x] + occ a l.
Proof. apply (occ_app a [x] l). Qed.

Lemma occ_null a x : a <> 0 -> is_null x = true -> occ a [x] = 0.
Proof.
  unfold is_null, occ. intros Ha Hx. apply Z.eqb_eq in Hx. cbn.
  replace (addr x =? a) with false by (symmetry; apply Z.eqb_neq; lia).
  reflexivity.
Qed.

Lemma unrefs_unref a x : unrefs a [gst_sample_unref x] = occ a [x].
Proof. unfold unrefs, counts, occ. cbn. now destruct (addr x =? a). Qed.

Lemma refs_ref a x : refs a [gst_sample_ref x] = occ a [x].
Proof. unfold refs, counts, occ. cbn. now destruct (addr x =? a). Qed.

(** The drain loop of the input gives back one reference per queued
    sample and takes none. *)
Lemma drain_calls_counts a items :
  a <> 0 ->
  unrefs a (Input.drain_calls items) = occ a items
  /\ refs a (Input.drain_calls items) = 0.
Proof.
  intros Ha. induction items as [| x rest [IHu IHr]]; [split; reflexivity |].
  cbn [Input.drain_calls]. unfold unrefs, refs in *.
  rewrite !counts_app, IHu, IHr, (occ_cons a x rest).
  destruct (is_null x) eqn:Hx.
  - rewrite (occ_null a x Ha Hx). split; reflexivity.
  - fold (unrefs a [gst_sample_unref x]). rewrite unrefs_unref.
    split; [lia | reflexivity].
Qed.

(** What the input still owes for the references it took: the
    references it has not given back and does not hold in a queue. *)
Definition slack (a : Z) (i : Input.GstInput) : Z :=
  refs a (Input.calls_ i)
  - unrefs a (Input.calls_ i)
  - occ a (cbq.items (Input.video_buffer_ i))
  - occ a (cbq.items (Input.audio_buffer_ i)).

Lemma drain_queues_slack a i :
  a <> 0 -> slack a (Input.drain_queues i) = slack a i.
Proof.
  intros Ha. unfold slack, Input.drain_queues. cbn.
  unfold refs, unrefs in *. rewrite !counts_app.
  destruct (drain_calls_counts a (cbq.items (Input.video_buffer_ i)) Ha)
    as [Hu1 Hr1].
  destruct (drain_calls_counts a (cbq.items (Input.audio_buffer_ i)) Ha)
    as [Hu2 Hr2].
  unfold refs, unrefs in *. rewrite Hu1, Hr1, Hu2, Hr2.
  unfold occ. cbn. lia.
Qed.

Lemma seek_slack a position flush i :
  a <> 0 -> slack a (Input.seek position flush i) = slack a i.
Proof.
  intros Ha. unfold Input.seek.
  destruct (negb (Input.pipeline_ i)); [reflexivity |].
  set (i1 := if flush then Input.drain_queues i else i).
  assert (H1 : slack a i1 = slack a i)
    by (destruct flush; [apply (drain_queues_slack a i Ha) | reflexivity]).
  clearbody i1. rewrite <- H1.
  unfold slack. cbn. unfold refs, unrefs. rewrite !counts_app.
  unfold counts. cbn. lia.
Qed.

Lemma on_eos_slack a i : a <> 0 -> slack a (Input.on_eos i) = slack a i.
Proof.
  intros Ha. unfold Input.on_eos.
  destruct (Input.loop_ i) as [[|] |]; [apply (seek_slack a 0 true i Ha) | |];
    reflexivity.
Qed.

Lemma new_video_sample_slack a pulled i :
  slack a (snd (Input.new_video_sample pulled i)) = slack a i.
Proof.
  unfold Input.new_video_sample.
  destruct (is_null pulled); [reflexivity |].
  unfold cbq.try_push. cbn [Input.video_buffer_ Input.call_gst Input.set_calls_].
  destruct (cbq.size (Input.video_buffer_ i) <? cbq.capacity (Input.video_buffer_ i));
    unfold slack; cbn; unfold refs, unrefs; rewrite ?counts_app, ?occ_app;
    fold (refs a [gst_sample_ref pulled]);
    fold (unrefs a [gst_sample_unref pulled]);
    rewrite ?refs_ref, ?unrefs_unref; unfold counts, occ; cbn; lia.
Qed.

Lemma new_audio_sample_slack a pulled i :
  slack a (snd (Input.new_audio_sample pulled i)) = slack a i.
Proof.
  unfold Input.new_audio_sample.
  destruct (is_null pulled); [reflexivity |].
  unfold cbq.try_push. cbn [Input.audio_buffer_ Input.call_gst Input.set_calls_].
  destruct (cbq.size (Input.audio_buffer_ i) <? cbq.capacity (Input.audio_buffer_ i));
    unfold slack; cbn; unfold refs, unrefs; rewrite ?counts_app, ?occ_app;
    fold (refs a [gst_sample_ref pulled]);
    fold (unrefs a [gst_sample_unref pulled]);
    rewrite ?refs_ref, ?unrefs_unref; unfold counts, occ; cbn; lia.
Qed.

(** A sample popped from the video queue leaves the input with its
    reference. *)
Lemma try_pop_video_slack a i :
  slack a (snd (Input.try_pop_video nullptr i))
  = slack a i
    + if fst (fst (Input.try_pop_video nullptr i))
      then occ a [snd (fst (Input.try_pop_video nullptr i))]
      else 0.
Proof.
  unfold Input.try_pop_video, cbq.try_pop.
  destruct (cbq.items (Input.video_buffer_ i)) as [| x rest] eqn:Hq.
  - unfold slack. cbn. rewrite Hq. lia.
  - unfold slack. cbn. rewrite Hq, (occ_cons a x rest). lia.
Qed.

(** No frame carries an audio sample. *)
Definition silent (w : world) : Prop :=
  audio (lframe (sched w)) = nullptr
  /\ forall f, In f (buffer_ (impl w)) -> audio f = nullptr.

(** What the producer has done with the samples it took from the input:
    given back, or kept in a pending frame. *)
Definition owed (a : Z) (w : world) : Z :=
  unrefs a (calls_ (impl w)) + occ a (flat_map samples (pending w)).

Definition balanced (a : Z) (w : world) : Prop :=
  owed a w <= slack a (input_ (impl w)).

Lemma occ_frames_app a l1 l2 :
  occ a (flat_map samples (l1 ++ l2))
  = occ a (flat_map samples l1) + occ a (flat_map samples l2).
Proof. now rewrite flat_map_app, occ_app. Qed.

Lemma release_calls_unrefs a f :
  a <> 0 -> unrefs a (release_calls f) = occ a (samples f).
Proof.
  intros Ha. unfold release_calls, samples, unrefs.
  rewrite counts_app, (occ_cons a (video f) [audio f]).
  fold (unrefs a (if is_null (video f) then [] else [gst_sample_unref (video f)])).
  fold (unrefs a (if is_null (audio f) then [] else [gst_sample_unref (audio f)])).
  destruct (is_null (video f)) eqn:Hv, (is_null (audio f)) eqn:Hu;
    rewrite ?unrefs_unref, ?(occ_null a _ Ha Hv), ?(occ_null a _ Ha Hu);
    reflexivity.
Qed.

Ltac reduce :=
  cbn -[Input.seek Input.try_pop_video Input.new_video_sample
        Input.new_audio_sample Input.on_eos slack occ unrefs flat_map
        release_calls Z.add Z.sub].

Lemma silent_step w e : silent w -> silent (fst (step w e)).
Proof.
  intros [Hl Hb]. destruct w as [s r]. unfold silent in *.
  cbn [impl sched] in *.
  destruct e; cbn [step impl sched].
  - unfold run_step. destruct (pc r).
    + unfold run_seek. destruct (0 <=? seek_ s); reduce; auto.
    + unfold run_eof. reduce.
      destruct (Input.eof (input_ s) || _); reduce;
        [destruct (loop_ s && (2 <? frame_count_ s)) |]; reduce; auto.
    + unfold run_pop.
      destruct (Input.try_pop_video nullptr (input_ s)) as [[popped x] i'].
      destruct popped; [destruct (is_null x) |]; reduce; auto.
    + unfold run_push.
      destruct (buffer_size s <? to_size_t (buffer_capacity_ s));
        [destruct (seek_ s =? -1) |]; reduce; auto.
      split; [reflexivity |]. intros f Hin.
      apply in_app_or in Hin. destruct Hin as [Hin | [<- | []]]; auto.
  - unfold prev_frame.
    destruct (negb (core.video_field.eqb field core.video_field.b));
      [destruct (frame_flush_ s || negb (core.has_image (frame_ s)));
       [destruct (buffer_ s) eqn:Hq |] |];
      reduce; rewrite ?Hq; auto.
  - pose proof (SystemSpec.effect_holds (mk s r) (ev_next_frame field)) as [He _].
    cbn [SystemSpec.effect step impl sched] in He.
    destruct He as (Hs & _ & _ & [(head & rest & Hq & Hq' & _) | (Hq & _)]).
    + split; [now rewrite Hs |]. intros f Hin. apply Hb. rewrite Hq.
      right. now rewrite <- Hq'.
    + split; [now rewrite Hs |]. now rewrite Hq.
  - reduce. auto.
  - reduce. split; [exact Hl |]. intros f [].
  - reduce. auto.
  - reduce. auto.
  - reduce. auto.
  - destruct (Input.new_video_sample pulled (input_ s)). reduce. auto.
  - destruct (Input.new_audio_sample pulled (input_ s)). reduce. auto.
  - reduce. auto.
Qed.

Lemma occ_nullptr a : a <> 0 -> occ a [nullptr] = 0.
Proof. intros Ha. now apply occ_null. Qed.

Lemma balanced_step a w e :
  a <> 0 -> silent w -> balanced a w -> balanced a (fst (step w e)).
Proof.
  intros Ha [Hl Hb] Hbal. destruct w as [s r].
  unfold balanced, owed, pending in *. cbn [impl sched] in *.
  destruct e; cbn [step impl sched].
  - unfold run_step. destruct (pc r) eqn:Hpc.
    + unfold run_seek. destruct (0 <=? seek_ s); reduce;
        rewrite ?(seek_slack a _ _ _ Ha); exact Hbal.
    + unfold run_eof. reduce.
      destruct (Input.eof (input_ s) || _); reduce;
        [destruct (loop_ s && (2 <? frame_count_ s)) |]; reduce;
        rewrite ?(seek_slack a _ _ _ Ha); exact Hbal.
    + unfold run_pop.
      pose proof (try_pop_video_slack a (input_ s)) as Hpop.
      destruct (Input.try_pop_video nullptr (input_ s)) as [[popped x] i'].
      cbn [fst snd] in Hpop.
      destruct popped; [destruct (is_null x) eqn:Hx |]; reduce.
      * rewrite (occ_null a x Ha Hx) in Hpop. rewrite Hpop. lia.
      * rewrite app_nil_r in Hbal. rewrite occ_frames_app.
        cbn [flat_map samples video audio app]. rewrite Hl.
        rewrite (occ_cons a x [nullptr]), (occ_nullptr a Ha), Hpop. lia.
      * rewrite Hpop. lia.
    + unfold run_push.
      destruct (buffer_size s <? to_size_t (buffer_capacity_ s));
        [destruct (seek_ s =? -1) |]; reduce.
      * now rewrite app_nil_r.
      * rewrite occ_frames_app in *.
        pose proof (occ_nonneg a (flat_map samples [lframe r])).
        cbn [flat_map] in *. unfold occ at 2. cbn. lia.
      * now rewrite Hpc.
  - unfold prev_frame.
    destruct (negb (core.video_field.eqb field core.video_field.b));
      [destruct (frame_flush_ s || negb (core.has_image (frame_ s)));
       [destruct (buffer_ s) eqn:Hq |] |];
      reduce; rewrite ?Hq; exact Hbal.
  - unfold next_frame.
    destruct (buffer_ s) as [| head rest] eqn:Hq.
    + destruct (buffer_eof_ s && negb (frame_flush_ s)); reduce;
        [destruct ((frame_time_ s <? clip_end s) && negb (frame_duration_ s =? 0));
         [| destruct (frame_time_ s <? clip_end s)] |];
        reduce; rewrite ?Hq; exact Hbal.
    + destruct (frame_flush_ s && (buffer_size s <? 4)).
      * destruct (buffer_eof_ s && negb (frame_flush_ s)); reduce;
          [destruct ((frame_time_ s <? clip_end s) && negb (frame_duration_ s =? 0));
           [| destruct (frame_time_ s <? clip_end s)] |];
          reduce; rewrite ?Hq; exact Hbal.
      * match goal with |- context [if ?c then _ else _] => destruct c end.
        -- reduce. rewrite ?Hq. exact Hbal.
        -- destruct (negb (latency_ s =? -1)); reduce;
             unfold unrefs in *; rewrite counts_app;
             fold (unrefs a (release_calls head));
             rewrite (release_calls_unrefs a head Ha);
             change ((head :: rest) ++ ?m) with ([head] ++ (rest ++ m)) in Hbal;
             rewrite occ_frames_app in Hbal; cbn [flat_map] in Hbal;
             rewrite app_nil_r in Hbal; lia.
  - reduce. exact Hbal.
  - reduce. rewrite app_nil_r. rewrite occ_frames_app in Hbal.
    pose proof (occ_nonneg a (flat_map samples (buffer_ s))).
    cbn [app]. lia.
  - reduce. exact Hbal.
  - reduce. exact Hbal.
  - reduce. exact Hbal.
  - pose proof (new_video_sample_slack a pulled (input_ s)) as Hnew.
    destruct (Input.new_video_sample pulled (input_ s)) as [flow i'].
    cbn [snd] in Hnew. reduce. now rewrite Hnew.
  - pose proof (new_audio_sample_slack a pulled (input_ s)) as Hnew.
    destruct (Input.new_audio_sample pulled (input_ s)) as [flow i'].
    cbn [snd] in Hnew. reduce. now rewrite Hnew.
  - reduce. now rewrite (on_eos_slack a _ Ha).
Qed.

Lemma invariant_run a es : forall w,
  a <> 0 -> silent w -> balanced a w ->
  silent (fst (run_events w es)) /\ balanced a (fst (run_events w es)).
Proof.
  induction es as [| e es IH]; intros w Ha Hs Hb; [now split |].
  rewrite SystemSpec.run_events_cons. cbn [fst].
  apply IH; [exact Ha | now apply silent_step | now apply balanced_step].
Qed.

Lemma initial_invariant a format_desc pipeline start seek duration loop :
  silent (initial format_desc pipeline start seek duration loop)
  /\ balanced a (initial format_desc pipeline start seek duration loop).
Proof.
  split.
  - split; [reflexivity | intros f []].
  - unfold balanced, owed, slack, initial, create. destruct pipeline; cbn; lia.
Qed.

(** Over any run of a freshly constructed producer and for every sample,
    the references the input and the producer have given back, together
    with the places where they still hold the sample (a queue of the
    input, a pending frame), never exceed the references they took: no
    reference is given back twice, and a sample that is held is covered
    by a reference. *)
Theorem no_sample_is_released_twice
        format_desc pipeline start seek duration loop es a :
  a <> 0 ->
  unrefs a (log (fst (run_events
                        (initial format_desc pipeline start seek duration loop)
                        es)))
  + held a (fst (run_events
                   (initial format_desc pipeline start seek duration loop) es))
  <= refs a (log (fst (run_events
                         (initial format_desc pipeline start seek duration loop)
                         es))).
Proof.
  intros Ha.
  destruct (initial_invariant a format_desc pipeline start seek duration loop)
    as [Hs Hb].
  destruct (invariant_run a es _ Ha Hs Hb) as [_ H].
  unfold balanced, owed, slack in H. unfold log, held, unrefs, refs in *.
  rewrite !counts_app.
  pose proof (counts_nonneg (is_ref a)
                (calls_ (impl (fst (run_events
                   (initial format_desc pipeline start seek duration loop) es))))).
  lia.
Qed.

(** In the run [Ordering.seek_in_the_middle] the sample at address 1 was
    delivered and given back; the sample at address 2 sat in the playout
    buffer when the seek came and keeps its reference; the sample at
    address 3 sat in the queue of the input and was given back by the
    flush. *)
Lemma no_sample_is_released_twice_witness :
  let w := fst (run_events (initial (mk_format 25 40 1) true None None None None)
                           Ordering.seek_in_the_middle) in
  (refs 1 (log w), unrefs 1 (log w), held 1 w) = (1, 1, 0)
  /\ (refs 2 (log w), unrefs 2 (log w), held 2 w) = (1, 0, 0)
  /\ (refs 3 (log w), unrefs 3 (log w), held 3 w) = (1, 1, 0)
  /\ unrefs 2 (log w) + held 2 w <= refs 2 (log w).
Proof.
  intros w.
  split; [vm_compute; reflexivity |].
  split; [vm_compute; reflexivity |].
  split; [vm_compute; reflexivity |].
  apply (no_sample_is_released_twice (mk_format 25 40 1) true None None None
           None Ordering.seek_in_the_middle 2).
  lia.
Defined.

Lemma deliveries_silent es : forall w,
  silent w ->
  Forall (fun f => audio f = nullptr)
         (Ordering.delivered_frames (snd (run_events w es))).
Proof.
  induction es as [| e es IH]; intros w Hs; [constructor |].
  rewrite Ordering.delivered_cons.
  apply Forall_app. split; [| apply IH; now apply silent_step].
  destruct (snd (step w e)) as [| | | [f | |] |] eqn:Ho; try constructor;
    [| constructor].
  destruct (SystemSpec.effect_holds w e) as [He _].
  destruct e; cbn [step] in Ho; try discriminate;
    try (destruct (run_step (impl w) (sched w)) as [[? ?] ?]; discriminate);
    try (destruct (prev_frame field (impl w)); discriminate);
    try (destruct (Input.new_video_sample pulled (input_ (impl w)));
         discriminate);
    try (destruct (Input.new_audio_sample pulled (input_ (impl w)));
         discriminate).
  cbn [SystemSpec.effect step] in He.
  destruct He as (_ & _ & _ & [(head & rest & Hq & _ & Hd) | (_ & Hd)]).
  - rewrite Ho in Hd. injection Hd as ->. apply Hs. rewrite Hq. now left.
  - now contradiction (Hd f).
Qed.

(** The audio samples the pipeline hands over never reach a frame: over
    any run of a freshly constructed producer, every frame [next_frame]
    delivers and every pending frame has no audio sample. *)
Theorem audio_never_reaches_a_frame
        format_desc pipeline start seek duration loop es :
  Forall (fun f => audio f = nullptr)
         (Ordering.delivered_frames
            (snd (run_events
                    (initial format_desc pipeline start seek duration loop) es)))
  /\ Forall (fun f => audio f = nullptr)
            (pending (fst (run_events
                             (initial format_desc pipeline start seek duration
                                      loop) es))).
Proof.
  destruct (initial_invariant 1 format_desc pipeline start seek duration loop)
    as [Hs Hb].
  split; [now apply deliveries_silent |].
  destruct (invariant_run 1 es _ ltac:(lia) Hs Hb) as [[Hl Hq] _].
  apply Forall_forall. intros f Hin. unfold pending in Hin.
  apply in_app_or in Hin. destruct Hin as [Hin | Hin]; [now apply Hq |].
  destruct (pc (sched _)); try contradiction.
  destruct Hin as [<- | []]. exact Hl.
Qed.

End References.

(** * Properties of the format conversions *)

Module GstUtilSpec.

Import gst_util.

(** The samples [gst_format_to_caspar] has a pixel format for. *)
Definition recognised (g : GstVideoFormat) : bool :=
  match fst (format_and_depth g) with invalid => false | _ => true end.

(** A frame made from a sample goes back out in the format it came in:
    for every sample format the module has a pixel format for, the format
    [make_gst_sample] computes from the frame's descriptor is the format of
    the sample, with two exceptions.  A YV12 sample comes back as I420
    and a 12-bit I420 sample comes back as 10-bit I420.  A sample of any
    other format gives a descriptor with the invalid format and no
    planes. *)
Theorem sample_format_round_trip video_info :
  (recognised (finfo video_info) = true ->
   finfo video_info <> GST_VIDEO_FORMAT_YV12 ->
   finfo video_info <> GST_VIDEO_FORMAT_I420_12LE ->
   sample_format (gst_format_to_caspar video_info) = Some (finfo video_info))
  /\ (finfo video_info = GST_VIDEO_FORMAT_YV12 ->
      sample_format (gst_format_to_caspar video_info)
      = Some GST_VIDEO_FORMAT_I420)
  /\ (finfo video_info = GST_VIDEO_FORMAT_I420_12LE ->
      sample_format (gst_format_to_caspar video_info)
      = Some GST_VIDEO_FORMAT_I420_10LE)
  /\ (recognised (finfo video_info) = false ->
      format (gst_format_to_caspar video_info) = invalid
      /\ planes (gst_format_to_caspar video_info) = []).
Proof.
  destruct video_info as [g m w h]. cbn [finfo].
  unfold recognised, sample_format, gst_format_to_caspar.
  split; [| split; [| split]].
  - intros Hr H1 H2.
    destruct g; cbn in *; try reflexivity; try discriminate; congruence.
  - intros ->. reflexivity.
  - intros ->. reflexivity.
  - intros Hr. destruct g; cbn in *; try discriminate; split; reflexivity.
Qed.

Lemma sample_format_round_trip_witness :
  sample_format
    (gst_format_to_caspar
       (mk_info GST_VIDEO_FORMAT_I420_10LE GST_VIDEO_COLOR_MATRIX_BT709
                1920 1080))
  = Some GST_VIDEO_FORMAT_I420_10LE
  /\ sample_format
       (gst_format_to_caspar
          (mk_info GST_VIDEO_FORMAT_YV12 GST_VIDEO_COLOR_MATRIX_BT601 720 576))
     = Some GST_VIDEO_FORMAT_I420.
Proof.
  split.
  - destruct (sample_format_round_trip
                (mk_info GST_VIDEO_FORMAT_I420_10LE GST_VIDEO_COLOR_MATRIX_BT709
                         1920 1080)) as [H _].
    apply H; [reflexivity | discriminate | discriminate].
  - destruct (sample_format_round_trip
                (mk_info GST_VIDEO_FORMAT_YV12 GST_VIDEO_COLOR_MATRIX_BT601
                         720 576)) as (_ & H & _).
    apply H. reflexivity.
Defined.

(** Every plane [make_frame] copies into exists in the descriptor it
    made for the sample, and the planes it copies are all of them or none:
    for the packed RGB formats and the planar YUV formats every plane of
    the descriptor is copied, in order; for GRAY8, GRAY16_LE and UYVY the
    descriptor has one plane and nothing is copied into it. *)
Theorem make_frame_copies_existing_planes video_info :
  (forall p, In p (make_frame_copies (gst_format_to_caspar video_info)) ->
             nth_error (planes (gst_format_to_caspar video_info)) p <> None)
  /\ (make_frame_copies (gst_format_to_caspar video_info)
      = seq 0 (length (planes (gst_format_to_caspar video_info)))
      \/ (make_frame_copies (gst_format_to_caspar video_info) = []
          /\ length (planes (gst_format_to_caspar video_info)) = 1%nat
          /\ In (finfo video_info)
                [GST_VIDEO_FORMAT_GRAY8; GST_VIDEO_FORMAT_GRAY16_LE;
                 GST_VIDEO_FORMAT_UYVY])).
Proof.
  destruct video_info as [g m w h].
  unfold make_frame_copies, gst_format_to_caspar. cbn [finfo].
  split.
  - intros p. destruct g; cbn; intros Hin;
      repeat (destruct Hin as [<- | Hin]; [discriminate |]);
      contradiction.
  - destruct g; cbn; auto 10.
Qed.

End GstUtilSpec.

(** * Properties of the consumer's pipeline description *)

Module PipelineSpec.

Import ConsumerPipeline.

Local Open Scope string_scope.

Lemma append_assoc (a b c : string) : (a ++ b) ++ c = a ++ (b ++ c).
Proof. induction a as [| x a IH]; cbn; [reflexivity | now rewrite IH]. Qed.

Lemma length_append (a b : string) :
  String.length (a ++ b) = (String.length a + String.length b)%nat.
Proof. induction a as [| x a IH]; cbn; [reflexivity | now rewrite IH]. Qed.

Lemma substring_prefix (a b : string) :
  String.substring 0 (String.length a) (a ++ b) = a.
Proof.
  induction a as [| x a IH]; cbn; [now destruct b | now rewrite IH].
Qed.

Lemma rfind_last_space (y : string) :
  rfind " " (y ++ " ") = Some (String.length y).
Proof.
  induction y as [| x y IH]; cbn [append rfind String.length];
    [reflexivity | now rewrite IH].
Qed.

Section Options.

Variable to_string : Z -> string.
Variable stoi : string -> option Z.
Variable scale_regex : string -> option (string * string).
Variable simple_scale_regex : string -> option (string * string).
Variable fps_regex : string -> option string.
Variable extension : string -> string.
Variable replace_extension_mkv : string -> string.
Variable format_desc_ : video_format_desc.
Variable path_ : string.

(** A valid [preset:v] option does not replace the default preset of the
    x264 encoder: the two cuts made on the description take off the final
    separator only, and the encoder is described with the default
    [speed-preset=veryfast tune=zerolatency] followed by the requested
    preset and a second [tune]. *)
Theorem preset_is_appended_to_the_default options preset pipeline_desc :
  String.eqb (video_codec options) "x264"
  || String.eqb (video_codec options) "libx264" = true ->
  options "preset:v" = Some preset ->
  is_preset preset = true ->
  add_encoder to_string stoi options pipeline_desc
  = pipeline_desc
    ++ "x264enc bitrate=" ++ to_string (video_bitrate to_string stoi options)
    ++ " speed-preset=veryfast tune=zerolatency"
    ++ " speed-preset=" ++ preset ++ " tune=zerolatency ! ".
Proof.
  intros Hcodec Hopt Hpreset.
  unfold add_encoder. rewrite Hcodec, Hopt, Hpreset. cbv zeta.
  set (y := pipeline_desc
            ++ "x264enc bitrate="
            ++ to_string (video_bitrate to_string stoi options)
            ++ " speed-preset=veryfast tune=zerolatency").
  assert (E : pipeline_desc ++ x264enc to_string stoi options
              = (y ++ " ") ++ "! ").
  { unfold y, x264enc. rewrite !append_assoc. reflexivity. }
  rewrite E, length_append. cbn [String.length].
  replace (String.length (y ++ " ") + 2 - 2)%nat
    with (String.length (y ++ " ")) by lia.
  rewrite substring_prefix, rfind_last_space. cbn [substr_to].
  rewrite substring_prefix. unfold y. now rewrite !append_assoc.
Qed.

(** The description reads the options under seven keys only. *)
Lemma description_reads_seven_keys options options' :
  options "codec:v" = options' "codec:v" ->
  options "vcodec" = options' "vcodec" ->
  options "vbitrate" = options' "vbitrate" ->
  options "bitrate:v" = options' "bitrate:v" ->
  options "filter:v" = options' "filter:v" ->
  options "preset:v" = options' "preset:v" ->
  (is_stream path_ = false -> options "format" = options' "format") ->
  pipeline_desc to_string stoi scale_regex simple_scale_regex fps_regex
                extension replace_extension_mkv format_desc_ path_ options
  = pipeline_desc to_string stoi scale_regex simple_scale_regex fps_regex
                  extension replace_extension_mkv format_desc_ path_ options'.
Proof.
  intros H1 H2 H3 H4 H5 H6 H7.
  assert (Hc : video_codec options = video_codec options')
    by (unfold video_codec, get_option; now rewrite H1, H2).
  assert (Hb : video_bitrate to_string stoi options
               = video_bitrate to_string stoi options')
    by (unfold video_bitrate, bitrate, get_option; now rewrite H3, H4).
  assert (Hf : video_filter options = video_filter options')
    by (unfold video_filter, get_option; now rewrite H5).
  unfold pipeline_desc. cbv zeta.
  unfold add_output, add_parser, add_encoder, add_video_filter, x264enc.
  rewrite Hc, Hb, Hf, H6.
  destruct (is_stream path_) eqn:Hs; [reflexivity |].
  unfold container_format, format, get_option.
  rewrite Hs, (H7 eq_refl). reflexivity.
Qed.

(** The keys of the audio options. *)
Definition audio_keys : list string :=
  ["acodec"; "codec:a"; "abitrate"; "bitrate:a"; "filter:a"].

(** The audio options are read and nothing more: two sets of options
    that differ only in the audio codec, the audio bitrate and the audio
    filter give the same description. *)
Theorem audio_options_do_not_reach_the_pipeline options options' :
  (forall key, ~ In key audio_keys -> options key = options' key) ->
  pipeline_desc to_string stoi scale_regex simple_scale_regex fps_regex
                extension replace_extension_mkv format_desc_ path_ options
  = pipeline_desc to_string stoi scale_regex simple_scale_regex fps_regex
                  extension replace_extension_mkv format_desc_ path_ options'.
Proof.
  intros H.
  assert (Hk : forall key,
             existsb (String.eqb key) audio_keys = false ->
             options key = options' key).
  { intros key Hno. apply H. intros Hin.
    assert (existsb (String.eqb key) audio_keys = true); [| congruence].
    apply existsb_exists. exists key. split; [exact Hin | apply String.eqb_refl]. }
  apply description_reads_seven_keys; try intros _; apply Hk; reflexivity.
Qed.

(** For a path that contains [://] the [format] option has no effect:
    the container it names is computed and not used, and the muxer
    follows the scheme of the path alone. *)
Theorem format_option_is_ignored_for_streams options options' :
  is_stream path_ = true ->
  (forall key, key <> "format" -> options key = options' key) ->
  pipeline_desc to_string stoi scale_regex simple_scale_regex fps_regex
                extension replace_extension_mkv format_desc_ path_ options
  = pipeline_desc to_string stoi scale_regex simple_scale_regex fps_regex
                  extension replace_extension_mkv format_desc_ path_ options'.
Proof.
  intros Hs H.
  apply description_reads_seven_keys;
    try (apply H; discriminate).
  intros Hf. congruence.
Qed.

(** A video bitrate that [stoi] cannot read under [vbitrate] ends the
    reading of the bitrate: the encoder gets the default 3000 whatever
    [bitrate:v] holds, also a readable number.  With [vbitrate] readable
    and [bitrate:v] not, the encoder gets the value of [vbitrate]. *)
Theorem unreadable_vbitrate_hides_bitrate_v options t :
  options "vbitrate" = Some t ->
  (stoi t = None ->
   video_bitrate to_string stoi options = 3000%Z
   /\ x264enc to_string stoi options
      = "x264enc bitrate=" ++ to_string 3000%Z
        ++ " speed-preset=veryfast tune=zerolatency ! ")
  /\ (forall v u, stoi t = Some v -> options "bitrate:v" = Some u ->
                  stoi u = None ->
                  video_bitrate to_string stoi options = v).
Proof.
  intros Ht. unfold x264enc, video_bitrate, bitrate, get_option. rewrite Ht.
  split.
  - intros ->. split; reflexivity.
  - intros v u -> -> ->. reflexivity.
Qed.

(** The codec names the encoder and the parser both know. *)
Definition known_codec (codec : string) : bool :=
  existsb (String.eqb codec)
          ["x264"; "libx264"; "openh264"; "nvenc"; "nvh264"; "vp8"; "vp9";
           "jpeg"; "mjpeg"].

(** A codec name the consumer does not know is encoded as x264, with the
    same encoder text as for [x264], but unlike for [x264] no [h264parse]
    follows the encoder. *)
Theorem unknown_codec_gets_x264_without_parser options pipeline_desc :
  options "preset:v" = None ->
  (known_codec (video_codec options) = false ->
   add_parser options (add_encoder to_string stoi options pipeline_desc)
   = pipeline_desc ++ x264enc to_string stoi options)
  /\ (video_codec options = "x264" ->
      add_parser options (add_encoder to_string stoi options pipeline_desc)
      = (pipeline_desc ++ x264enc to_string stoi options) ++ "h264parse ! ").
Proof.
  intros Hp. unfold add_parser, add_encoder. rewrite Hp. split.
  - unfold known_codec. cbn [existsb]. intros Hk.
    repeat (apply orb_false_iff in Hk; destruct Hk as [? Hk]).
    repeat match goal with
           | H : String.eqb _ _ = false |- _ => rewrite H; clear H
           end.
    reflexivity.
  - intros ->. reflexivity.
Qed.

End Options.

(** [std::to_string] on an [int]. *)
Definition decimal (z : Z) : string := NilZero.string_of_int (Z.to_int z).

(** [std::isspace] in the classic locale. *)
Definition isspace (c : ascii) : bool :=
  let n := nat_of_ascii c in
  (n =? 32)%nat || ((9 <=? n)%nat && (n <=? 13)%nat).

Fixpoint skip_space (text : string) : string :=
  match text with
  | String c rest => if isspace c then skip_space rest else text
  | EmptyString => text
  end.

(** The number written by the decimal digits [text] starts with, after
    [acc]; [None] when there is no digit and [seen] is false. *)
Fixpoint leading_digits (acc : Z) (seen : bool) (text : string) : option Z :=
  match text with
  | String c rest =>
      match WrapperSpec.digit c with
      | Some d => leading_digits (10 * acc + d) true rest
      | None => if seen then Some acc else None
      end
  | EmptyString => if seen then Some acc else None
  end.

(** [std::stoi] in base 10: blanks are skipped, a sign is read, then as
    many digits as there are, and what follows them is ignored.  [None]:
    it throws, [std::invalid_argument] when no digit is found,
    [std::out_of_range] when the number is no [int]. *)
Definition std_stoi (text : string) : option Z :=
  let text := skip_space text in
  let '(negative, digits) :=
    match text with
    | String "-" rest => (true, rest)
    | String "+" rest => (false, rest)
    | _ => (false, text)
    end in
  match leading_digits 0 false digits with
  | None => None
  | Some v =>
      let v := if negative then - v else v in
      if (- Int.INT_MAX - 1 <=? v)%Z && (v <=? Int.INT_MAX)%Z
      then Some v
      else None
  end.

(** The examples give no video filter, so the regular expressions are
    applied to no text. *)
Definition no_pair (text : string) : option (string * string) := None.

Definition no_match (text : string) : option string := None.

(** [extension()] and [replace_extension(".mkv")] of
    [boost::filesystem::path], for a path whose last component has a name
    before its last dot. *)
Definition file_extension (path : string) : string :=
  match rfind "." path with
  | Some k => substr_from k path
  | None => EmptyString
  end.

Definition with_mkv (path : string) : string :=
  substr_to (rfind "." path) path ++ ".mkv".

Definition pal : video_format_desc := mk_format 720 576 25 1.

Definition with_slow_preset (key : string) : option string :=
  if String.eqb key "preset:v" then Some "slow" else None.

Lemma preset_is_appended_to_the_default_witness :
  add_encoder decimal std_stoi with_slow_preset "videoconvert ! "
  = "videoconvert ! x264enc bitrate=3000 speed-preset=veryfast tune=zerolatency speed-preset=slow tune=zerolatency ! ".
Proof.
  apply (preset_is_appended_to_the_default decimal std_stoi
           with_slow_preset "slow" "videoconvert ! ");
    reflexivity.
Defined.

Definition vp8_only (key : string) : option string :=
  if String.eqb key "vcodec" then Some "vp8" else None.

Definition vp8_with_audio (key : string) : option string :=
  if String.eqb key "codec:a" then Some "mp3"
  else if String.eqb key "bitrate:a" then Some "192"
  else vp8_only key.

Lemma audio_options_do_not_reach_the_pipeline_witness :
  pipeline_desc decimal std_stoi no_pair no_pair no_match file_extension with_mkv
                pal "clip.webm" vp8_with_audio
  = pipeline_desc decimal std_stoi no_pair no_pair no_match file_extension with_mkv
                  pal "clip.webm" vp8_only.
Proof.
  apply (audio_options_do_not_reach_the_pipeline decimal std_stoi no_pair
           no_pair no_match file_extension with_mkv pal "clip.webm" vp8_with_audio
           vp8_only).
  intros key Hno. unfold vp8_with_audio.
  destruct (String.eqb_spec key "codec:a") as [-> | _];
    [contradiction Hno; cbn; tauto |].
  destruct (String.eqb_spec key "bitrate:a") as [-> | _];
    [contradiction Hno; cbn; tauto | reflexivity].
Defined.

Definition vp8_as_flv (key : string) : option string :=
  if String.eqb key "format" then Some "flv" else vp8_only key.

Lemma format_option_is_ignored_for_streams_witness :
  pipeline_desc decimal std_stoi no_pair no_pair no_match file_extension with_mkv
                pal "udp://239.0.0.1:1234" vp8_as_flv
  = pipeline_desc decimal std_stoi no_pair no_pair no_match file_extension with_mkv
                  pal "udp://239.0.0.1:1234" vp8_only.
Proof.
  apply (format_option_is_ignored_for_streams decimal std_stoi no_pair
           no_pair no_match file_extension with_mkv pal "udp://239.0.0.1:1234"
           vp8_as_flv vp8_only); [reflexivity |].
  intros key Hno. unfold vp8_as_flv.
  destruct (String.eqb_spec key "format") as [-> | _];
    [now contradiction Hno | reflexivity].
Defined.

(** [vbitrate] holds a word, [bitrate:v] a number. *)
Definition two_bitrates (key : string) : option string :=
  if String.eqb key "vbitrate" then Some "high"
  else if String.eqb key "bitrate:v" then Some "5000"
  else None.

Lemma unreadable_vbitrate_hides_bitrate_v_witness :
  video_bitrate decimal std_stoi two_bitrates = 3000%Z
  /\ x264enc decimal std_stoi two_bitrates
     = "x264enc bitrate=3000 speed-preset=veryfast tune=zerolatency ! ".
Proof.
  destruct (unreadable_vbitrate_hides_bitrate_v decimal std_stoi
              two_bitrates "high" eq_refl) as [H _].
  apply H. reflexivity.
Defined.

Definition h265_codec (key : string) : option string :=
  if String.eqb key "vcodec" then Some "h265" else None.

Lemma unknown_codec_gets_x264_without_parser_witness :
  add_parser h265_codec
             (add_encoder decimal std_stoi h265_codec "videoconvert ! ")
  = "videoconvert ! x264enc bitrate=3000 speed-preset=veryfast tune=zerolatency ! ".
Proof.
  destruct (unknown_codec_gets_x264_without_parser decimal std_stoi
              h265_codec "videoconvert ! " eq_refl) as [H _].
  apply H. reflexivity.
Defined.

End PipelineSpec.

(** * The index of a consumer *)

Module IndexSpec.

Import Encoder.

(** A constructed consumer has an index between 600000 and 609999 that
    is computed from its path.  [initialize] replaces it: from then on
    the index is 600000 plus the channel index, whatever the path, so
    that two consumers with different paths initialised on the same
    channel report the same index. *)
Theorem index_follows_the_channel_after_initialize
        path args realtime channel_index how :
  Int.in_int (600000 + channel_index) ->
  600000 <= index (Consumer.create path args realtime) <= 609999
  /\ exists e',
       initialize channel_index how
                  (fresh (Consumer.create path args realtime)) = inr e'
       /\ index (consumer e') = 600000 + channel_index.
Proof.
  intros Hr. split.
  - unfold index, Consumer.create. cbn [Consumer.channel_index_].
    pose proof (Z.mod_pos_bound (Consumer.path_hash 0 path) 10000 ltac:(lia)).
    rewrite Facts.wrap_int_id; [lia |].
    unfold Int.in_int, Int.INT_MAX. lia.
  - unfold initialize, fresh. cbn [thread].
    eexists. split; [reflexivity |].
    unfold index. destruct how; cbn; now apply Facts.wrap_int_id.
Qed.

Lemma index_follows_the_channel_after_initialize_witness :
  index (Consumer.create "a.mp4" EmptyString false) = 600196
  /\ (exists e1,
         initialize 1 (playing true)
                    (fresh (Consumer.create "a.mp4" EmptyString false))
         = inr e1
         /\ index (consumer e1) = 600001)
  /\ (exists e2,
         initialize 1 (playing true)
                    (fresh (Consumer.create "udp://239.0.0.1:1234" EmptyString
                                            true))
         = inr e2
         /\ index (consumer e2) = 600001).
Proof.
  split; [vm_compute; reflexivity |]. split.
  - apply (index_follows_the_channel_after_initialize
             "a.mp4" EmptyString false 1 (playing true)).
    unfold Int.in_int, Int.INT_MAX; lia.
  - apply (index_follows_the_channel_after_initialize
             "udp://239.0.0.1:1234" EmptyString true 1 (playing true)).
    unfold Int.in_int, Int.INT_MAX; lia.
Defined.

End IndexSpec.
